(** * MKL25Z4 security system: the coordination core

    A shallow embedding of the firmware's core modules
    ([timer_driver.c], [pir_driver.c], [keypad_driver.c], [rfid_driver.c],
    [storage_mgr.c], [security_manager.c]) as state-passing functions over
    one record of the firmware's file-scope variables, and of the interrupt
    handlers and the console beside them ([Keypad_Tick], [Outputs_Tick],
    [UART2_IRQHandler], [admin_mgr.c]), whose own variables are passed in and
    handed back.

    Conventions.
    - A C integer is a [Z]; the wrap-around of [uint32_t] and [uint8_t]
      arithmetic is written out ([wrap32], [wrap8]).
    - A [char] array is a [list ascii]; a C string is the part of it before
      the first NUL ([cstr]).
    - Calls into collaborators that only drive hardware (servo, buzzer, LED,
      UART, interrupt mask, reader commands) put an [Output] in front of the
      world's [trace] (newest first).
    - What the hardware answers (flash status codes, reader registers) is
      held in the world and may be changed by the environment between calls.
    - One call of a firmware function is atomic: the tick counter does not
      advance inside it. *)

From Stdlib Require Import ZArith List Ascii String Bool Lia.
From stdpp Require Import base list strings.
Import ListNotations.

Local Open Scope Z_scope.

(* ====================================================================== *)
(** ** Machine integers and C strings *)
(* ====================================================================== *)

Definition wrap32 (z : Z) : Z := z mod 2 ^ 32.
Definition wrap8 (z : Z) : Z := z mod 2 ^ 8.

Definition NUL : ascii := Ascii.zero.

(** The characters of a buffer up to, not including, the first NUL. *)
Fixpoint cstr (buf : list ascii) : list ascii :=
  match buf with
  | [] => []
  | c :: rest => if Ascii.eqb c NUL then [] else c :: cstr rest
  end.

Definition strlen (s : list ascii) : Z := Z.of_nat (length (cstr s)).

(** [strcmp(a, b) == 0]. *)
Definition streq (a b : list ascii) : bool := bool_decide (cstr a = cstr b).

(** [strncpy(dst, src, n)]: at most [n] characters of [src], NUL padded to
    [n]; the rest of [dst] is kept. *)
Definition strncpy (dst src : list ascii) (n : nat) : list ascii :=
  let s := take n (cstr src) in
  s ++ replicate (n - length s) NUL ++ drop n dst.

(** [strcpy(dst, src)]: the string and its terminator; the rest of [dst] is
    kept. *)
Definition strcpy (dst src : list ascii) : list ascii :=
  let s := cstr src in
  s ++ [NUL] ++ drop (S (length s)) dst.

Definition chars (s : string) : list ascii := list_ascii_of_string s.

Definition code (c : ascii) : Z := Z.of_nat (nat_of_ascii c).

(* ====================================================================== *)
(** ** storage_mgr.h *)
(* ====================================================================== *)

Definition MAX_STORED_IDS : nat := 50.
Definition STORAGE_MAGIC : Z := 0xA5A5A5A7.

Record SecurityConfig_t := {
  door_pin : list ascii;          (* char door_pin[5] *)
  admin_password : list ascii;    (* char admin_password[10] *)
  authorized_uids : list Z;       (* uint32_t authorized_uids[50], 0 = empty *)
  magic_header : Z                (* uint32_t *)
}.

Definition set_door_pin (v : list ascii) (c : SecurityConfig_t) :=
  {| door_pin := v; admin_password := admin_password c;
     authorized_uids := authorized_uids c; magic_header := magic_header c |}.
Definition set_admin_password (v : list ascii) (c : SecurityConfig_t) :=
  {| door_pin := door_pin c; admin_password := v;
     authorized_uids := authorized_uids c; magic_header := magic_header c |}.
Definition set_authorized_uids (v : list Z) (c : SecurityConfig_t) :=
  {| door_pin := door_pin c; admin_password := admin_password c;
     authorized_uids := v; magic_header := magic_header c |}.
Definition set_magic_header (v : Z) (c : SecurityConfig_t) :=
  {| door_pin := door_pin c; admin_password := admin_password c;
     authorized_uids := authorized_uids c; magic_header := v |}.

(** The array sizes of the struct declaration. *)
Definition config_shape (c : SecurityConfig_t) : Prop :=
  length (door_pin c) = 5%nat /\ length (admin_password c) = 10%nat /\
  length (authorized_uids c) = MAX_STORED_IDS.

(* ====================================================================== *)
(** ** The firmware's variables *)
(* ====================================================================== *)

(** security_manager.c *)
Inductive SystemState_t :=
| STATE_ARMED | STATE_ENTRY_DELAY | STATE_EXIT_DELAY
| STATE_TRIGGERED | STATE_DISARMED | STATE_LOCKED.

#[global] Instance SystemState_eq_dec : EqDecision SystemState_t.
Proof. solve_decision. Defined.

Record Security := {
  currentState : SystemState_t;
  stateEntryTime : Z;             (* uint32_t *)
  lastAlarmToggle : Z;            (* uint32_t *)
  alarmVolume : Z;                (* int *)
  failedAttempts : Z;             (* uint8_t *)
  doorUnlockedMsg : bool;
  waitingForAutoLock : bool;
  toggle_triggered : bool;        (* static int toggle, case STATE_TRIGGERED *)
  toggle_locked : bool;           (* static int toggle, case STATE_LOCKED *)
  toggle_exit : bool              (* static int toggle, case STATE_EXIT_DELAY *)
}.

(** keypad_driver.c (the variables the main context reads and writes) *)
Record Keypad := {
  g_pressed_key : ascii;          (* validated, debounced key event *)
  kp_buffer : list ascii;         (* char kp_buffer[PASS_LEN + 1] *)
  kp_index : Z;                   (* uint8_t *)
  last_key_time_kp : Z            (* uint32_t *)
}.

(** rfid_driver.c *)
Inductive RFID_State_t :=
| RFID_IDLE | RFID_REQ_SENT | RFID_ANTICOLL_SENT | RFID_HALT_SENT.

Record Rfid := {
  g_rfidState : RFID_State_t;
  g_rfid_timer : Z;               (* uint32_t *)
  g_next_scan_time : Z;           (* uint32_t *)
  g_last_valid_result : Z;        (* int *)
  g_last_uid : list Z;            (* uint8_t g_last_uid[5] *)
  g_last_uid_time : Z             (* uint32_t *)
}.

(** What the MFRC522 answers on the bus: the interrupt and error registers
    and the bytes waiting in its FIFO. *)
Record Rc522 := {
  ComIrq : Z;
  ErrorFlags : Z;
  fifo : list Z
}.

(** The flash sector and the status codes the SDK driver will report. *)
Record Flash := {
  sector : SecurityConfig_t;      (* the record at STORAGE_SECTOR_ADDR *)
  init_status : Z;                (* FLASH_Init *)
  erase_status : Z;               (* FLASH_Erase *)
  program_status : Z              (* FLASH_Program *)
}.

(** What leaves the core: register writes of the actuator drivers, the
    interrupt mask, reader commands and UART text. *)
Inductive Output :=
| O_ServoDuty (dutyCyclePercent : Z)     (* TPM_UpdatePwmDutycycle *)
| O_BuzzerOn (pitch volume : Z)          (* TPM1->MOD, TPM1 CnV *)
| O_BuzzerOff
| O_BuzzerTimeout (duration_ms : Z)      (* g_buzzerTimeout = duration_ms *)
| O_LedOn
| O_LedOff
| O_IrqOff                               (* __disable_irq *)
| O_IrqOn                                (* __enable_irq *)
| O_Transceive (data : list Z)           (* Start_Transceive *)
| O_BitFraming (val : Z)                 (* WriteReg(BitFramingReg, val) *)
| O_Uart (fmt : string) (args : list Z). (* UART_Printf, line ends dropped *)

Record World := {
  g_systemTick : Z;               (* timer_driver.c *)
  g_pirDetected : bool;           (* pir_driver.c *)
  kp : Keypad;
  rf : Rfid;
  chip : Rc522;
  g_cachedConfig : SecurityConfig_t;   (* storage_mgr.c *)
  flash : Flash;
  sec : Security;
  trace : list Output
}.

(** *** Field updates *)

Definition upd_tick (f : Z -> Z) (w : World) : World :=
  {| g_systemTick := f (g_systemTick w); g_pirDetected := g_pirDetected w;
     kp := kp w; rf := rf w; chip := chip w;
     g_cachedConfig := g_cachedConfig w; flash := flash w; sec := sec w;
     trace := trace w |}.
Definition set_pir (v : bool) (w : World) : World :=
  {| g_systemTick := g_systemTick w; g_pirDetected := v;
     kp := kp w; rf := rf w; chip := chip w;
     g_cachedConfig := g_cachedConfig w; flash := flash w; sec := sec w;
     trace := trace w |}.
Definition upd_kp (f : Keypad -> Keypad) (w : World) : World :=
  {| g_systemTick := g_systemTick w; g_pirDetected := g_pirDetected w;
     kp := f (kp w); rf := rf w; chip := chip w;
     g_cachedConfig := g_cachedConfig w; flash := flash w; sec := sec w;
     trace := trace w |}.
Definition upd_rf (f : Rfid -> Rfid) (w : World) : World :=
  {| g_systemTick := g_systemTick w; g_pirDetected := g_pirDetected w;
     kp := kp w; rf := f (rf w); chip := chip w;
     g_cachedConfig := g_cachedConfig w; flash := flash w; sec := sec w;
     trace := trace w |}.
Definition upd_chip (f : Rc522 -> Rc522) (w : World) : World :=
  {| g_systemTick := g_systemTick w; g_pirDetected := g_pirDetected w;
     kp := kp w; rf := rf w; chip := f (chip w);
     g_cachedConfig := g_cachedConfig w; flash := flash w; sec := sec w;
     trace := trace w |}.
Definition upd_config (f : SecurityConfig_t -> SecurityConfig_t) (w : World) : World :=
  {| g_systemTick := g_systemTick w; g_pirDetected := g_pirDetected w;
     kp := kp w; rf := rf w; chip := chip w;
     g_cachedConfig := f (g_cachedConfig w); flash := flash w; sec := sec w;
     trace := trace w |}.
Definition upd_flash (f : Flash -> Flash) (w : World) : World :=
  {| g_systemTick := g_systemTick w; g_pirDetected := g_pirDetected w;
     kp := kp w; rf := rf w; chip := chip w;
     g_cachedConfig := g_cachedConfig w; flash := f (flash w); sec := sec w;
     trace := trace w |}.
Definition upd_sec (f : Security -> Security) (w : World) : World :=
  {| g_systemTick := g_systemTick w; g_pirDetected := g_pirDetected w;
     kp := kp w; rf := rf w; chip := chip w;
     g_cachedConfig := g_cachedConfig w; flash := flash w; sec := f (sec w);
     trace := trace w |}.
Definition upd_trace (f : list Output -> list Output) (w : World) : World :=
  {| g_systemTick := g_systemTick w; g_pirDetected := g_pirDetected w;
     kp := kp w; rf := rf w; chip := chip w;
     g_cachedConfig := g_cachedConfig w; flash := flash w; sec := sec w;
     trace := f (trace w) |}.

Definition set_currentState (v : SystemState_t) (s : Security) : Security :=
  {| currentState := v; stateEntryTime := stateEntryTime s;
     lastAlarmToggle := lastAlarmToggle s; alarmVolume := alarmVolume s;
     failedAttempts := failedAttempts s; doorUnlockedMsg := doorUnlockedMsg s;
     waitingForAutoLock := waitingForAutoLock s;
     toggle_triggered := toggle_triggered s; toggle_locked := toggle_locked s;
     toggle_exit := toggle_exit s |}.
Definition set_stateEntryTime (v : Z) (s : Security) : Security :=
  {| currentState := currentState s; stateEntryTime := v;
     lastAlarmToggle := lastAlarmToggle s; alarmVolume := alarmVolume s;
     failedAttempts := failedAttempts s; doorUnlockedMsg := doorUnlockedMsg s;
     waitingForAutoLock := waitingForAutoLock s;
     toggle_triggered := toggle_triggered s; toggle_locked := toggle_locked s;
     toggle_exit := toggle_exit s |}.
Definition set_lastAlarmToggle (v : Z) (s : Security) : Security :=
  {| currentState := currentState s; stateEntryTime := stateEntryTime s;
     lastAlarmToggle := v; alarmVolume := alarmVolume s;
     failedAttempts := failedAttempts s; doorUnlockedMsg := doorUnlockedMsg s;
     waitingForAutoLock := waitingForAutoLock s;
     toggle_triggered := toggle_triggered s; toggle_locked := toggle_locked s;
     toggle_exit := toggle_exit s |}.
Definition set_alarmVolume (v : Z) (s : Security) : Security :=
  {| currentState := currentState s; stateEntryTime := stateEntryTime s;
     lastAlarmToggle := lastAlarmToggle s; alarmVolume := v;
     failedAttempts := failedAttempts s; doorUnlockedMsg := doorUnlockedMsg s;
     waitingForAutoLock := waitingForAutoLock s;
     toggle_triggered := toggle_triggered s; toggle_locked := toggle_locked s;
     toggle_exit := toggle_exit s |}.
Definition set_failedAttempts (v : Z) (s : Security) : Security :=
  {| currentState := currentState s; stateEntryTime := stateEntryTime s;
     lastAlarmToggle := lastAlarmToggle s; alarmVolume := alarmVolume s;
     failedAttempts := v; doorUnlockedMsg := doorUnlockedMsg s;
     waitingForAutoLock := waitingForAutoLock s;
     toggle_triggered := toggle_triggered s; toggle_locked := toggle_locked s;
     toggle_exit := toggle_exit s |}.
Definition set_doorUnlockedMsg (v : bool) (s : Security) : Security :=
  {| currentState := currentState s; stateEntryTime := stateEntryTime s;
     lastAlarmToggle := lastAlarmToggle s; alarmVolume := alarmVolume s;
     failedAttempts := failedAttempts s; doorUnlockedMsg := v;
     waitingForAutoLock := waitingForAutoLock s;
     toggle_triggered := toggle_triggered s; toggle_locked := toggle_locked s;
     toggle_exit := toggle_exit s |}.
Definition set_waitingForAutoLock (v : bool) (s : Security) : Security :=
  {| currentState := currentState s; stateEntryTime := stateEntryTime s;
     lastAlarmToggle := lastAlarmToggle s; alarmVolume := alarmVolume s;
     failedAttempts := failedAttempts s; doorUnlockedMsg := doorUnlockedMsg s;
     waitingForAutoLock := v;
     toggle_triggered := toggle_triggered s; toggle_locked := toggle_locked s;
     toggle_exit := toggle_exit s |}.
Definition set_toggle_triggered (v : bool) (s : Security) : Security :=
  {| currentState := currentState s; stateEntryTime := stateEntryTime s;
     lastAlarmToggle := lastAlarmToggle s; alarmVolume := alarmVolume s;
     failedAttempts := failedAttempts s; doorUnlockedMsg := doorUnlockedMsg s;
     waitingForAutoLock := waitingForAutoLock s;
     toggle_triggered := v; toggle_locked := toggle_locked s;
     toggle_exit := toggle_exit s |}.
Definition set_toggle_locked (v : bool) (s : Security) : Security :=
  {| currentState := currentState s; stateEntryTime := stateEntryTime s;
     lastAlarmToggle := lastAlarmToggle s; alarmVolume := alarmVolume s;
     failedAttempts := failedAttempts s; doorUnlockedMsg := doorUnlockedMsg s;
     waitingForAutoLock := waitingForAutoLock s;
     toggle_triggered := toggle_triggered s; toggle_locked := v;
     toggle_exit := toggle_exit s |}.
Definition set_toggle_exit (v : bool) (s : Security) : Security :=
  {| currentState := currentState s; stateEntryTime := stateEntryTime s;
     lastAlarmToggle := lastAlarmToggle s; alarmVolume := alarmVolume s;
     failedAttempts := failedAttempts s; doorUnlockedMsg := doorUnlockedMsg s;
     waitingForAutoLock := waitingForAutoLock s;
     toggle_triggered := toggle_triggered s; toggle_locked := toggle_locked s;
     toggle_exit := v |}.

Definition set_g_pressed_key (v : ascii) (k : Keypad) : Keypad :=
  {| g_pressed_key := v; kp_buffer := kp_buffer k; kp_index := kp_index k;
     last_key_time_kp := last_key_time_kp k |}.
Definition set_kp_buffer (v : list ascii) (k : Keypad) : Keypad :=
  {| g_pressed_key := g_pressed_key k; kp_buffer := v; kp_index := kp_index k;
     last_key_time_kp := last_key_time_kp k |}.
Definition set_kp_index (v : Z) (k : Keypad) : Keypad :=
  {| g_pressed_key := g_pressed_key k; kp_buffer := kp_buffer k; kp_index := v;
     last_key_time_kp := last_key_time_kp k |}.
Definition set_last_key_time_kp (v : Z) (k : Keypad) : Keypad :=
  {| g_pressed_key := g_pressed_key k; kp_buffer := kp_buffer k;
     kp_index := kp_index k; last_key_time_kp := v |}.

Definition set_g_rfidState (v : RFID_State_t) (r : Rfid) : Rfid :=
  {| g_rfidState := v; g_rfid_timer := g_rfid_timer r;
     g_next_scan_time := g_next_scan_time r;
     g_last_valid_result := g_last_valid_result r; g_last_uid := g_last_uid r;
     g_last_uid_time := g_last_uid_time r |}.
Definition set_g_rfid_timer (v : Z) (r : Rfid) : Rfid :=
  {| g_rfidState := g_rfidState r; g_rfid_timer := v;
     g_next_scan_time := g_next_scan_time r;
     g_last_valid_result := g_last_valid_result r; g_last_uid := g_last_uid r;
     g_last_uid_time := g_last_uid_time r |}.
Definition set_g_next_scan_time (v : Z) (r : Rfid) : Rfid :=
  {| g_rfidState := g_rfidState r; g_rfid_timer := g_rfid_timer r;
     g_next_scan_time := v;
     g_last_valid_result := g_last_valid_result r; g_last_uid := g_last_uid r;
     g_last_uid_time := g_last_uid_time r |}.
Definition set_g_last_valid_result (v : Z) (r : Rfid) : Rfid :=
  {| g_rfidState := g_rfidState r; g_rfid_timer := g_rfid_timer r;
     g_next_scan_time := g_next_scan_time r;
     g_last_valid_result := v; g_last_uid := g_last_uid r;
     g_last_uid_time := g_last_uid_time r |}.
Definition set_g_last_uid (v : list Z) (r : Rfid) : Rfid :=
  {| g_rfidState := g_rfidState r; g_rfid_timer := g_rfid_timer r;
     g_next_scan_time := g_next_scan_time r;
     g_last_valid_result := g_last_valid_result r; g_last_uid := v;
     g_last_uid_time := g_last_uid_time r |}.
Definition set_g_last_uid_time (v : Z) (r : Rfid) : Rfid :=
  {| g_rfidState := g_rfidState r; g_rfid_timer := g_rfid_timer r;
     g_next_scan_time := g_next_scan_time r;
     g_last_valid_result := g_last_valid_result r; g_last_uid := g_last_uid r;
     g_last_uid_time := v |}.

Definition set_fifo (v : list Z) (c : Rc522) : Rc522 :=
  {| ComIrq := ComIrq c; ErrorFlags := ErrorFlags c; fifo := v |}.
Definition set_sector (v : SecurityConfig_t) (f : Flash) : Flash :=
  {| sector := v; init_status := init_status f;
     erase_status := erase_status f; program_status := program_status f |}.

(* ====================================================================== *)
(** ** A state monad over the world *)
(* ====================================================================== *)

Definition M (A : Type) : Type := World -> A * World.

Definition ret {A} (a : A) : M A := fun w => (a, w).
Definition bind {A B} (m : M A) (k : A -> M B) : M B :=
  fun w => let '(a, w') := m w in k a w'.
Definition gets {A} (f : World -> A) : M A := fun w => (f w, w).
Definition modify (f : World -> World) : M unit := fun w => (tt, f w).
Definition when (b : bool) (m : M unit) : M unit := if b then m else ret tt.
Definition exec {A} (m : M A) (w : World) : World := snd (m w).
Definition eval {A} (m : M A) (w : World) : A := fst (m w).

Declare Scope fw_scope.
Delimit Scope fw_scope with fw.
Notation "x <- m ;; k" := (bind m (fun x => k))
  (at level 100, m at next level, k at level 200, right associativity) : fw_scope.
Notation "m ;; k" := (bind m (fun _ => k))
  (at level 100, k at level 200, right associativity) : fw_scope.
Local Open Scope fw_scope.

Definition emit (o : Output) : M unit := modify (upd_trace (cons o)).

(* ====================================================================== *)
(** ** timer_driver.c *)
(* ====================================================================== *)

Definition GetTick : M Z := gets g_systemTick.

Definition IsTimeout (startTick durationMs : Z) : M bool :=
  now <- gets g_systemTick ;;
  ret (durationMs <=? wrap32 (now - startTick)).

(** The counting line of [PIT_IRQHandler]: [g_systemTick++]. *)
Definition PIT_IRQHandler : M unit :=
  modify (upd_tick (fun t => wrap32 (t + 1))).

(* ====================================================================== *)
(** ** pir_driver.c *)
(* ====================================================================== *)

Definition PIR_CheckTriggered : M bool :=
  d <- gets g_pirDetected ;;
  if d then modify (set_pir false) ;; ret true else ret false.

(** The flag line of [PORTA_IRQHandler]. *)
Definition PORTA_IRQHandler : M unit := modify (set_pir true).

(* ====================================================================== *)
(** ** servo_driver.c, output_mgr.c, uart_driver.c *)
(* ====================================================================== *)

Definition SERVO_OPEN_DUTY : Z := 4.
Definition SERVO_CLOSE_DUTY : Z := 11.

Definition Servo_SetDuty (dutyCyclePercent : Z) : M unit :=
  let d := if dutyCyclePercent <? 2 then 2 else dutyCyclePercent in
  let d := if 12 <? d then 12 else d in
  emit (O_ServoDuty d).

Definition Servo_Close : M unit := Servo_SetDuty SERVO_CLOSE_DUTY.
Definition Servo_Open : M unit := Servo_SetDuty SERVO_OPEN_DUTY.

Definition LED_Alarm_On : M unit := emit O_LedOn.
Definition LED_Alarm_Off : M unit := emit O_LedOff.

(** [volume] is a [uint8_t] parameter. *)
Definition Buzzer_On (pitch volume : Z) : M unit :=
  let v := wrap8 volume in
  let v := if 50 <? v then 50 else v in
  let v := if v <? 1 then 1 else v in
  emit (O_BuzzerOn pitch v).

Definition Buzzer_Off : M unit := emit O_BuzzerOff.

Definition Buzzer_Beep (duration_ms : Z) : M unit :=
  Buzzer_On 1000 50 ;;
  emit (O_BuzzerTimeout duration_ms).

Definition UART_Printf (fmt : string) (args : list Z) : M unit :=
  emit (O_Uart fmt args).

(* ====================================================================== *)
(** ** output_mgr.c: the beep timer *)
(* ====================================================================== *)

(** Called from the tick interrupt.  [g_buzzerTimeout] is passed in and
    handed back. *)
Definition Outputs_Tick (g_buzzerTimeout : Z) : M Z :=
  if 0 <? g_buzzerTimeout then
    let t := wrap32 (g_buzzerTimeout - 1) in
    when (t =? 0) Buzzer_Off ;;
    ret t
  else ret g_buzzerTimeout.

(* ====================================================================== *)
(** ** storage_mgr.c *)
(* ====================================================================== *)

Definition kStatus_FLASH_Success : Z := 0.

(** A sector after [FLASH_Erase]: every byte 0xFF. *)
Definition erased_sector : SecurityConfig_t :=
  {| door_pin := replicate 5 (ascii_of_nat 255);
     admin_password := replicate 10 (ascii_of_nat 255);
     authorized_uids := replicate MAX_STORED_IDS 0xFFFFFFFF;
     magic_header := 0xFFFFFFFF |}.

(** The SDK calls: the status is the device's; a successful erase leaves the
    sector erased, a successful program leaves the record in it.  What a
    failed call leaves behind is not known to the firmware; the sector is
    kept here, and nothing below depends on that. *)
Definition FLASH_Erase : M Z :=
  st <- gets (fun w => erase_status (flash w)) ;;
  when (st =? kStatus_FLASH_Success)
       (modify (upd_flash (set_sector erased_sector))) ;;
  ret st.

Definition FLASH_Program (src : SecurityConfig_t) : M Z :=
  st <- gets (fun w => program_status (flash w)) ;;
  when (st =? kStatus_FLASH_Success) (modify (upd_flash (set_sector src))) ;;
  ret st.

Definition Print_Flash_Error (status : Z) : M unit :=
  when (negb (status =? kStatus_FLASH_Success))
       (UART_Printf "[STORAGE] Flash Error Code: %d" [status]).

(** Steps 2 to 4 of [Storage_SaveConfig]: the critical section with the
    erase and the program. *)
Definition SaveConfig_sector (inConfig : SecurityConfig_t) : M bool :=
  (* 2. Critical Section *)
  LED_Alarm_On ;;
  emit O_IrqOff ;;
  (* 3. Erase Sector *)
  result <- FLASH_Erase ;;
  if negb (result =? kStatus_FLASH_Success) then
    emit O_IrqOn ;;
    LED_Alarm_Off ;;
    Print_Flash_Error result ;;
    ret false
  else
    (* 4. Program Data *)
    result <- FLASH_Program inConfig ;;
    emit O_IrqOn ;;
    LED_Alarm_Off ;;
    if result =? kStatus_FLASH_Success then
      UART_Printf "[STORAGE] Save Success." [] ;;
      ret true
    else
      Print_Flash_Error result ;;
      ret false.

Definition Storage_SaveConfig (inConfig : SecurityConfig_t) : M bool :=
  (* 1. Update Cache *)
  modify (upd_config (fun _ => inConfig)) ;;
  SaveConfig_sector inConfig.

(** [outConfig] is what the caller's struct held before the call; the result
    is what it holds after.  [None] is the NULL pointer. *)
Definition Storage_LoadConfig (outConfig : option SecurityConfig_t)
  : M (option SecurityConfig_t) :=
  match outConfig with
  | None => ret None
  | Some out =>
    stored <- gets (fun w => sector (flash w)) ;;
    if magic_header stored =? STORAGE_MAGIC then
      ret (Some stored)
    else
      UART_Printf "[STORAGE] No valid config found. Loading Defaults." [] ;;
      let out := set_door_pin (strcpy (door_pin out) (chars "1234")) out in
      let out := set_admin_password
                   (strcpy (admin_password out) (chars "123456")) out in
      let out := set_authorized_uids (replicate MAX_STORED_IDS 0) out in
      let out := set_magic_header STORAGE_MAGIC out in
      Storage_SaveConfig out ;;
      ret (Some out)
  end.

(** [Storage_LoadConfig(&g_cachedConfig)] and the two messages around it. *)
Definition Storage_Init : M unit :=
  result <- gets (fun w => init_status (flash w)) ;;
  if negb (result =? kStatus_FLASH_Success) then
    UART_Printf "[STORAGE] Driver Init Failed!" []
  else
    UART_Printf "[STORAGE] Flash Initialized. Total: %d KB, Sector: %d B" [] ;;
    cache <- gets g_cachedConfig ;;
    loaded <- Storage_LoadConfig (Some cache) ;;
    match loaded with
    | Some c => modify (upd_config (fun _ => c))
    | None => ret tt
    end ;;
    UART_Printf "[STORAGE] Config Loaded. PIN: %s" [].

Definition Storage_GetConfig : M SecurityConfig_t := gets g_cachedConfig.

Definition Storage_UpdatePIN (newPin : list ascii) : M bool :=
  if 4 <? strlen newPin then ret false
  else
    modify (upd_config (fun c =>
      set_door_pin (<[4%nat := NUL]> (strncpy (door_pin c) newPin 4)) c)) ;;
    cache <- gets g_cachedConfig ;;
    Storage_SaveConfig cache.

Definition Storage_UpdateAdminPass (newPass : list ascii) : M bool :=
  if 9 <? strlen newPass then ret false
  else
    modify (upd_config (fun c =>
      set_admin_password
        (<[9%nat := NUL]> (strncpy (admin_password c) newPass 9)) c)) ;;
    cache <- gets g_cachedConfig ;;
    Storage_SaveConfig cache.

(** [for (i = from; i < from + count; i++) if (test(tbl[i])) return i;] *)
Fixpoint find_slot (test : Z -> bool) (tbl : list Z) (from count : nat)
  : option nat :=
  match count with
  | O => None
  | S count' =>
    if test (default 0 (tbl !! from)) then Some from
    else find_slot test tbl (S from) count'
  end.

Definition Storage_AddRFID (uid : Z) : M bool :=
  if uid =? 0 then ret false
  else
    tbl <- gets (fun w => authorized_uids (g_cachedConfig w)) ;;
    (* Check if already exists *)
    match find_slot (fun x => x =? uid) tbl 0 MAX_STORED_IDS with
    | Some _ =>
      UART_Printf "[STORAGE] UID %X already exists." [uid] ;;
      ret false
    | None =>
      (* Find Empty Slot *)
      match find_slot (fun x => x =? 0) tbl 0 MAX_STORED_IDS with
      | Some i =>
        modify (upd_config (set_authorized_uids (<[i := uid]> tbl))) ;;
        UART_Printf "[STORAGE] UID %x added at slot %d." [uid; Z.of_nat i] ;;
        cache <- gets g_cachedConfig ;;
        Storage_SaveConfig cache
      | None =>
        UART_Printf "[STORAGE] Memory Full! Delete an old ID first." [] ;;
        ret false
      end
    end.

(** The loop of [Storage_RemoveRFID]: clear every matching slot. *)
Fixpoint clear_matching (uid : Z) (tbl : list Z) (from count : nat)
  : list Z * bool :=
  match count with
  | O => (tbl, false)
  | S count' =>
    if default 0 (tbl !! from) =? uid then
      let '(tbl', _) := clear_matching uid (<[from := 0]> tbl) (S from) count' in
      (tbl', true)
    else clear_matching uid tbl (S from) count'
  end.

Definition Storage_RemoveRFID (uid : Z) : M bool :=
  tbl <- gets (fun w => authorized_uids (g_cachedConfig w)) ;;
  let '(tbl', found) := clear_matching uid tbl 0 MAX_STORED_IDS in
  modify (upd_config (set_authorized_uids tbl')) ;;
  if found then
    UART_Printf "[STORAGE] UID %x removed." [uid] ;;
    cache <- gets g_cachedConfig ;;
    Storage_SaveConfig cache
  else
    UART_Printf "[STORAGE] UID %x not found." [uid] ;;
    ret false.

(** [def0] is what the uninitialised local [def] holds on entry. *)
Definition Storage_FactoryReset (def0 : SecurityConfig_t) : M unit :=
  let def := set_door_pin (strcpy (door_pin def0) (chars "1234")) def0 in
  let def := set_admin_password
               (strcpy (admin_password def) (chars "123456")) def in
  let def := set_authorized_uids (replicate MAX_STORED_IDS 0) def in
  let def := set_magic_header STORAGE_MAGIC def in
  Storage_SaveConfig def ;;
  UART_Printf "[STORAGE] Factory Reset Complete." [].

(** The loop of [Storage_ListRFIDs]: one line per occupied slot; the result
    is [count]. *)
Fixpoint list_slots (tbl : list Z) (from n : nat) (count : Z) : M Z :=
  match n with
  | O => ret count
  | S n' =>
    let x := default 0 (tbl !! from) in
    if negb (x =? 0) then
      UART_Printf "  [%d]: %X" [Z.of_nat from + 1; x] ;;
      list_slots tbl (S from) n' (count + 1)
    else list_slots tbl (S from) n' count
  end.

Definition Storage_ListRFIDs : M unit :=
  UART_Printf "[STORAGE] Authorized UIDs:" [] ;;
  tbl <- gets (fun w => authorized_uids (g_cachedConfig w)) ;;
  count <- list_slots tbl 0 MAX_STORED_IDS 0 ;;
  when (count =? 0) (UART_Printf "  (None)" []).

(* ====================================================================== *)
(** ** security_manager.c: password checks *)
(* ====================================================================== *)

Definition Security_CheckPassword (inputPin : list ascii) : M bool :=
  cfg <- Storage_GetConfig ;;
  if streq inputPin (door_pin cfg) then
    UART_Printf "[ACCESS] Keypad PIN Accepted." [] ;;
    ret true
  else
    UART_Printf "[ACCESS] Keypad PIN Rejected." [] ;;
    ret false.

Definition Security_CheckAdminPassword (inputPass : list ascii) : M bool :=
  cfg <- Storage_GetConfig ;;
  ret (streq inputPass (admin_password cfg)).

(* ====================================================================== *)
(** ** keypad_driver.c *)
(* ====================================================================== *)

Definition PASS_LEN : Z := 4.
Definition TIMEOUT_MS : Z := 5000.

Definition key_map : list (list ascii) :=
  [ ["1"; "2"; "3"; "A"];
    ["4"; "5"; "6"; "B"];
    ["7"; "8"; "9"; "C"];
    ["*"; "0"; "#"; "D"] ]%char.

Definition setK (f : Keypad -> Keypad) : M unit := modify (upd_kp f).

(** The latching line of [Keypad_Tick]: [g_pressed_key = stable_key_candidate]. *)
Definition Keypad_latch (k : ascii) : M unit := setK (set_g_pressed_key k).

Definition Keypad_GetKeyNonBlocking : M ascii :=
  k <- gets (fun w => g_pressed_key (kp w)) ;;
  if negb (Ascii.eqb k NUL) then
    setK (set_g_pressed_key NUL) ;;   (* Event Consumed *)
    ret k
  else ret NUL.

Definition Keypad_CheckPassword : M Z :=
  (* 1. Timeout Check *)
  idx <- gets (fun w => kp_index (kp w)) ;;
  last <- gets (fun w => last_key_time_kp (kp w)) ;;
  expired <- IsTimeout last TIMEOUT_MS ;;
  when ((0 <? idx) && expired)
       (setK (set_kp_index 0) ;;
        setK (fun k => set_kp_buffer (<[0%nat := NUL]> (kp_buffer k)) k) ;;
        UART_Printf "[KEYPAD] TIMEOUT. Buffer Cleared." []) ;;
  key <- Keypad_GetKeyNonBlocking ;;
  if Ascii.eqb key NUL then ret 0
  else
    now <- GetTick ;;
    setK (set_last_key_time_kp now) ;;
    Buzzer_Beep 30 ;;
    UART_Printf "KEY: %c" [code key] ;;
    if Ascii.eqb key "#" then
      setK (set_kp_index 0) ;;
      ret 2                              (* Trigger Signal *)
    else
      (* Append to buffer *)
      idx <- gets (fun w => kp_index (kp w)) ;;
      when (idx <? PASS_LEN)
           (setK (fun k =>
              set_kp_buffer (<[Z.to_nat idx := key]> (kp_buffer k)) k) ;;
            setK (set_kp_index (wrap8 (idx + 1)))) ;;
      (* Validate *)
      idx <- gets (fun w => kp_index (kp w)) ;;
      if idx =? PASS_LEN then
        setK (fun k =>
          set_kp_buffer (<[Z.to_nat PASS_LEN := NUL]> (kp_buffer k)) k) ;;
        setK (set_kp_index 0) ;;
        UART_Printf "[ACCESS] PIN Submitted: ****" [] ;;
        buf <- gets (fun w => kp_buffer (kp w)) ;;
        ok <- Security_CheckPassword buf ;;
        if ok then ret 1 else ret (-1)
      else ret 0.

(* ====================================================================== *)
(** ** keypad_driver.c: the scan interrupt *)
(* ====================================================================== *)

Definition ROW1_PIN : Z := 8.
Definition ROW2_PIN : Z := 9.
Definition ROW3_PIN : Z := 10.
Definition ROW4_PIN : Z := 11.

Definition COL1_PIN : Z := 2.
Definition COL2_PIN : Z := 3.
Definition COL3_PIN : Z := 4.
Definition COL4_PIN : Z := 5.

(** The variables only the scan interrupt touches, and the output latch of
    port B, whose bits 8 to 11 drive the rows. *)
Record KeypadScan := {
  current_row : Z;                (* static uint8_t, in Keypad_Tick *)
  stable_key_candidate : ascii;   (* static char, in Keypad_Tick *)
  last_valid_key : ascii;         (* static char, in Keypad_Tick *)
  g_raw_key : ascii;              (* immediate scan result *)
  g_stable_count : Z;             (* uint8_t debounce counter *)
  GPIOB_PDOR : Z
}.

Definition set_current_row (v : Z) (s : KeypadScan) : KeypadScan :=
  {| current_row := v; stable_key_candidate := stable_key_candidate s;
     last_valid_key := last_valid_key s; g_raw_key := g_raw_key s;
     g_stable_count := g_stable_count s; GPIOB_PDOR := GPIOB_PDOR s |}.
Definition set_stable_key_candidate (v : ascii) (s : KeypadScan) : KeypadScan :=
  {| current_row := current_row s; stable_key_candidate := v;
     last_valid_key := last_valid_key s; g_raw_key := g_raw_key s;
     g_stable_count := g_stable_count s; GPIOB_PDOR := GPIOB_PDOR s |}.
Definition set_last_valid_key (v : ascii) (s : KeypadScan) : KeypadScan :=
  {| current_row := current_row s; stable_key_candidate := stable_key_candidate s;
     last_valid_key := v; g_raw_key := g_raw_key s;
     g_stable_count := g_stable_count s; GPIOB_PDOR := GPIOB_PDOR s |}.
Definition set_g_raw_key (v : ascii) (s : KeypadScan) : KeypadScan :=
  {| current_row := current_row s; stable_key_candidate := stable_key_candidate s;
     last_valid_key := last_valid_key s; g_raw_key := v;
     g_stable_count := g_stable_count s; GPIOB_PDOR := GPIOB_PDOR s |}.
Definition set_g_stable_count (v : Z) (s : KeypadScan) : KeypadScan :=
  {| current_row := current_row s; stable_key_candidate := stable_key_candidate s;
     last_valid_key := last_valid_key s; g_raw_key := g_raw_key s;
     g_stable_count := v; GPIOB_PDOR := GPIOB_PDOR s |}.
Definition set_GPIOB_PDOR (v : Z) (s : KeypadScan) : KeypadScan :=
  {| current_row := current_row s; stable_key_candidate := stable_key_candidate s;
     last_valid_key := last_valid_key s; g_raw_key := g_raw_key s;
     g_stable_count := g_stable_count s; GPIOB_PDOR := v |}.

(** [GPIOB->PSOR = mask] and [GPIOB->PCOR = mask]. *)
Definition PSOR (mask : Z) (s : KeypadScan) : KeypadScan :=
  set_GPIOB_PDOR (Z.lor (GPIOB_PDOR s) mask) s.
Definition PCOR (mask : Z) (s : KeypadScan) : KeypadScan :=
  set_GPIOB_PDOR (Z.ldiff (GPIOB_PDOR s) mask) s.

(** [key_map[row][col]]. *)
Definition key_map_at (row col : Z) : ascii :=
  default NUL (default [] (key_map !! Z.to_nat row) !! Z.to_nat col).

(** The pin of the [switch (current_row)] statements; no case for a row
    above 3. *)
Definition row_pin (row : Z) : option Z :=
  if row =? 0 then Some ROW1_PIN
  else if row =? 1 then Some ROW2_PIN
  else if row =? 2 then Some ROW3_PIN
  else if row =? 3 then Some ROW4_PIN
  else None.

(** Called every millisecond by the tick interrupt; [col_val] is what
    [GPIOE->PDIR] reads. *)
Definition Keypad_Tick (col_val : Z) (s : KeypadScan) : M KeypadScan :=
  (* 1. Read Result directly from inputs (cols) *)
  let low pin := Z.land col_val (Z.shiftl 1 pin) =? 0 in
  let row := current_row s in
  let detected_char :=
    if low COL1_PIN then key_map_at row 0
    else if low COL2_PIN then key_map_at row 1
    else if low COL3_PIN then key_map_at row 2
    else if low COL4_PIN then key_map_at row 3
    else NUL in
  (* 2. Disable current Row (Set High) *)
  let s := match row_pin row with
           | Some pin => PSOR (Z.shiftl 1 pin) s
           | None => s
           end in
  let s := if negb (Ascii.eqb detected_char NUL)
           then set_g_raw_key detected_char s else s in
  (* 3. Process Stability at end of Scan Cycle (Row 3) *)
  s <- (if current_row s =? 3 then
          let s :=
            if negb (Ascii.eqb (g_raw_key s) NUL)
               && Ascii.eqb (g_raw_key s) (stable_key_candidate s)
            then set_g_stable_count (wrap8 (g_stable_count s + 1)) s
            else set_g_stable_count 0 (set_stable_key_candidate (g_raw_key s) s) in
          (* Edge Logic: Only trigger EVENT on new stable press *)
          s <- (if 20 <? g_stable_count s then
                  if negb (Ascii.eqb (stable_key_candidate s) (last_valid_key s))
                  then
                    Keypad_latch (stable_key_candidate s) ;;
                    ret (set_last_valid_key (stable_key_candidate s) s)
                  else ret s
                else
                  ret (if Ascii.eqb (g_raw_key s) NUL
                       then set_last_valid_key NUL s else s)) ;;
          ret (set_g_raw_key NUL s)       (* Reset for next sweep *)
        else ret s) ;;
  (* 4. Move to Next Row & Enable (Set Low) *)
  let row := wrap8 (current_row s + 1) in
  let row := if 3 <? row then 0 else row in
  let s := set_current_row row s in
  ret (match row_pin row with
       | Some pin => PCOR (Z.shiftl 1 pin) s
       | None => s
       end).

(** The scan's variables at reset, with the rows as [Keypad_Init] leaves
    them: all high. *)
Definition KeypadScan_reset : KeypadScan :=
  {| current_row := 0; stable_key_candidate := NUL; last_valid_key := NUL;
     g_raw_key := NUL; g_stable_count := 0;
     GPIOB_PDOR := Z.lor (Z.lor (Z.lor (Z.shiftl 1 ROW1_PIN) (Z.shiftl 1 ROW2_PIN))
                           (Z.shiftl 1 ROW3_PIN)) (Z.shiftl 1 ROW4_PIN) |}.

(* ====================================================================== *)
(** ** rfid_driver.c *)
(* ====================================================================== *)

Definition PICC_REQIDL : Z := 0x26.
Definition PICC_ANTICOLL : Z := 0x93.
Definition PCD_HALT : Z := 0x50.

Definition setR (f : Rfid -> Rfid) : M unit := modify (upd_rf f).

(** The FSM helper: stop the running command, clear the interrupt bits,
    flush the FIFO, send [data]. *)
Definition Start_Transceive (data : list Z) : M unit :=
  modify (upd_chip (fun c =>
    {| ComIrq := 0; ErrorFlags := ErrorFlags c; fifo := [] |})) ;;
  emit (O_Transceive data).

(** [ReadReg(FIFODataReg)]: the next byte of the FIFO. *)
Definition Read_FIFOData : M Z :=
  q <- gets (fun w => fifo (chip w)) ;;
  modify (upd_chip (set_fifo (tail q))) ;;
  ret (default 0 (head q)).

(** [for (i = from; i < from + count; i++) uid[i] = ReadReg(FIFODataReg);] *)
Fixpoint read_uid (uid : list Z) (from count : nat) : M (list Z) :=
  match count with
  | O => ret uid
  | S count' =>
    b <- Read_FIFOData ;;
    read_uid (<[from := b]> uid) (S from) count'
  end.

Definition at_ (l : list Z) (i : nat) : Z := default 0 (l !! i).

(** [uid0] is what the uninitialised local [uid[5]] holds on entry. *)
Definition RFID_Tick (uid0 : list Z) : M unit :=
  now <- GetTick ;;
  st <- gets (fun w => g_rfidState (rf w)) ;;
  match st with
  | RFID_IDLE =>
    (* Clear last UID after 500ms of inactivity to allow re-scan *)
    last <- gets (fun w => g_last_uid_time (rf w)) ;;
    stale <- IsTimeout last 500 ;;
    when stale
         (setR (fun r => set_g_last_uid
                           (replicate 5 0 ++ drop 5 (g_last_uid r)) r)) ;;
    next <- gets (fun w => g_next_scan_time (rf w)) ;;
    due <- IsTimeout next 100 ;;
    when due
         (setR (set_g_next_scan_time now) ;;
          emit (O_BitFraming 0x07) ;;
          Start_Transceive [PICC_REQIDL] ;;
          setR (set_g_rfidState RFID_REQ_SENT) ;;
          setR (set_g_rfid_timer now))
  | RFID_REQ_SENT =>
    timer <- gets (fun w => g_rfid_timer (rf w)) ;;
    late <- IsTimeout timer 25 ;;
    if late then setR (set_g_rfidState RFID_IDLE)
    else
      n <- gets (fun w => ComIrq (chip w)) ;;
      when (negb (Z.land n 0x30 =? 0))
           (e <- gets (fun w => ErrorFlags (chip w)) ;;
            if Z.land e 0x1B =? 0 then
              emit (O_BitFraming 0x00) ;;
              Start_Transceive [PICC_ANTICOLL; 0x20] ;;
              setR (set_g_rfidState RFID_ANTICOLL_SENT) ;;
              t <- GetTick ;;
              setR (set_g_rfid_timer t)
            else setR (set_g_rfidState RFID_IDLE))
  | RFID_ANTICOLL_SENT =>
    timer <- gets (fun w => g_rfid_timer (rf w)) ;;
    late <- IsTimeout timer 25 ;;
    if late then setR (set_g_rfidState RFID_IDLE)
    else
      n <- gets (fun w => ComIrq (chip w)) ;;
      when (negb (Z.land n 0x30 =? 0))
           (e <- gets (fun w => ErrorFlags (chip w)) ;;
            when (Z.land e 0x1B =? 0)
                 ((* UID Received! *)
                  level <- gets (fun w => wrap8 (Z.of_nat (length (fifo (chip w))))) ;;
                  let nn := if 5 <? level then 5 else level in
                  uid <- read_uid uid0 0 (Z.to_nat nn) ;;
                  (* Verify Checksum *)
                  let serNumCheck :=
                    Z.lxor (Z.lxor (Z.lxor (Z.lxor 0 (at_ uid 0)) (at_ uid 1))
                                   (at_ uid 2)) (at_ uid 3) in
                  when (serNumCheck =? at_ uid 4)
                       (last_uid <- gets (fun w => g_last_uid (rf w)) ;;
                        let same :=
                          forallb (fun i => at_ uid i =? at_ last_uid i)
                                  [0; 1; 2; 3]%nat in
                        when (negb same)
                             ((* NEW Card detected! *)
                              setR (fun r => set_g_last_uid
                                      (take 5 uid ++ drop 5 (g_last_uid r)) r) ;;
                              t <- GetTick ;;
                              setR (set_g_last_uid_time t) ;;
                              UART_Printf
                                "[ACCESS] Card Scanned: [%02X %02X %02X %02X]"
                                [at_ uid 0; at_ uid 1; at_ uid 2; at_ uid 3] ;;
                              setR (set_g_last_valid_result 1)) ;;
                        (* Halt Card *)
                        Start_Transceive [PCD_HALT; 0])) ;;
            setR (set_g_rfidState RFID_IDLE))
  | RFID_HALT_SENT => setR (set_g_rfidState RFID_IDLE)
  end.

Definition RFID_GetLastScanResult : M Z :=
  res <- gets (fun w => g_last_valid_result (rf w)) ;;
  setR (set_g_last_valid_result 0) ;;   (* Clear *)
  ret res.

Definition RFID_GetLastUID : M Z :=
  u <- gets (fun w => g_last_uid (rf w)) ;;
  ret (wrap32 (Z.lor (Z.lor (Z.lor (Z.shiftl (at_ u 0) 24)
                                   (Z.shiftl (at_ u 1) 16))
                            (Z.shiftl (at_ u 2) 8))
                     (at_ u 3))).

Definition RFID_CheckScan : M Z := RFID_GetLastScanResult.

(* ====================================================================== *)
(** ** security_manager.c *)
(* ====================================================================== *)

Definition ENTRY_DELAY_MS : Z := 5000.
Definition DISARM_WINDOW_MS : Z := 5000.
Definition ALARM_BLINK_MS : Z := 500.
Definition STARTUP_DELAY_MS : Z := 2000.
Definition AUTO_LOCK_DELAY_MS : Z := 1000.
Definition EXIT_DELAY_MS : Z := 10000.
Definition BRUTE_FORCE_LIMIT : Z := 3.
Definition LOCKOUT_TIME_MS : Z := 10000.
Definition INITIAL_VOLUME : Z := 10.
Definition MAX_VOLUME : Z := 50.

Definition AUTH_VALID : Z := 1.
Definition AUTH_INVALID : Z := -1.
Definition AUTH_NONE : Z := 0.

Definition setS (f : Security -> Security) : M unit := modify (upd_sec f).

(** The loop over the authorized list (in [Check_Auth] and in the armed
    case): some slot is non-zero and equals [uid]. *)
Definition uid_listed (tbl : list Z) (uid : Z) : bool :=
  match find_slot (fun x => negb (x =? 0) && (x =? uid)) tbl 0 MAX_STORED_IDS with
  | Some _ => true
  | None => false
  end.

(* Checks both Keypad and RFID for valid credentials *)
Definition Check_Auth : M Z :=
  (* 1. Keypad Check *)
  kp <- Keypad_CheckPassword ;;
  (* 2. RFID Check *)
  rf_status <- RFID_CheckScan ;;
  rf_auth <-
    (if 0 <? rf_status then
       scannedUid <- RFID_GetLastUID ;;
       liveConfig <- Storage_GetConfig ;;
       if uid_listed (authorized_uids liveConfig) scannedUid then
         UART_Printf "[ACCESS] RFID Authorized (UID: %x)" [scannedUid] ;;
         ret AUTH_VALID
       else
         UART_Printf "[ACCESS] RFID DENIED (UID: %x)" [scannedUid] ;;
         ret AUTH_INVALID
     else ret AUTH_NONE) ;;
  if (kp =? 1) || (rf_auth =? AUTH_VALID) then ret AUTH_VALID
  else if (kp =? -1) || (rf_auth =? AUTH_INVALID) then ret AUTH_INVALID
  else ret AUTH_NONE.

(* Manages Brute Force logic *)
Definition Check_Brute_Force : M unit :=
  setS (fun s => set_failedAttempts (wrap8 (failedAttempts s + 1)) s) ;;
  n <- gets (fun w => failedAttempts (sec w)) ;;
  UART_Printf "[SECURITY] Invalid Auth! Attempts: %d/%d" [n; BRUTE_FORCE_LIMIT] ;;
  when (BRUTE_FORCE_LIMIT <=? n)
       (UART_Printf "[SECURITY] BRUTE FORCE DETECTED! SYSTEM LOCKED." [] ;;
        setS (set_currentState STATE_LOCKED) ;;
        now <- GetTick ;;
        setS (set_stateEntryTime now) ;;
        (* Panic Mode (Siren) *)
        setS (set_alarmVolume MAX_VOLUME) ;;
        v <- gets (fun w => alarmVolume (sec w)) ;;
        Buzzer_On 2000 v ;;
        LED_Alarm_On).

Definition Security_Init : M unit :=
  (* Clear Sensors before Arming *)
  PIR_CheckTriggered ;;
  RFID_GetLastScanResult ;;
  Keypad_GetKeyNonBlocking ;;
  setS (set_currentState STATE_ARMED) ;;
  Servo_Close ;;
  now <- GetTick ;;
  setS (set_stateEntryTime now) ;;
  UART_Printf "Security Manager Initialized. State: ARMED" [].

Definition isdigit (c : ascii) : bool := (48 <=? code c) && (code c <=? 57).

(** The keypad charset test of [Security_SetPassword]. *)
Definition pin_char_ok (c : ascii) : bool :=
  let isDigit := isdigit c in
  let isAlpha := (code "A" <=? code c) && (code c <=? code "D") in
  let isSpecial := Ascii.eqb c "*" || Ascii.eqb c "#" in
  isDigit || isAlpha || isSpecial.

(** [None] is the NULL pointer. *)
Definition Security_SetPassword (newPassword : option (list ascii)) : M unit :=
  match newPassword with
  | None => ret tt
  | Some newPassword =>
    (* 1. Length Check *)
    let len := strlen newPassword in
    if negb (len =? 4) then
      UART_Printf "[ADMIN ] ERR: PIN must be EXACTLY 4 characters." []
    (* 2. Alphanumeric Check *)
    else if negb (forallb pin_char_ok (cstr newPassword)) then
      UART_Printf "[ADMIN ] ERR: PIN Invalid. Use 0-9, A-D, *, #" []
    else
      (* 3. Save *)
      ok <- Storage_UpdatePIN newPassword ;;
      if ok then UART_Printf "[ADMIN ] Password Updated & Saved to Flash." []
      else UART_Printf "[ADMIN ] ERR: Flash Save Failed." []
  end.

Definition Security_SetAdminPassword (newPassword : option (list ascii)) : M unit :=
  match newPassword with
  | None => ret tt
  | Some newPassword =>
    (* 1. Length Check *)
    let len := strlen newPassword in
    if (len <? 1) || (9 <? len) then
      UART_Printf "[ADMIN ] ERR: Pass must be 1-9 chars." []
    else
      (* 2. Save *)
      ok <- Storage_UpdateAdminPass newPassword ;;
      if ok then UART_Printf "[ADMIN ] Admin Password Updated & Saved." []
      else UART_Printf "[ADMIN ] ERR: Flash Save Failed." []
  end.

(** The assignments shared by the three "authorized" branches. *)
Definition enter_disarmed : M unit :=
  setS (set_currentState STATE_DISARMED) ;;
  now <- GetTick ;;
  setS (set_stateEntryTime now) ;;
  setS (set_doorUnlockedMsg false) ;;
  setS (set_waitingForAutoLock false) ;;
  setS (set_failedAttempts 0).

Definition case_STATE_ARMED : M unit :=
  kp <- Keypad_CheckPassword ;;
  rf <- RFID_CheckScan ;;
  (* Validate RFID immediately if present *)
  rf_auth <-
    (if 0 <? rf then
       uid <- RFID_GetLastUID ;;
       liveConfig <- Storage_GetConfig ;;
       if uid_listed (authorized_uids liveConfig) uid then
         UART_Printf "[ACCESS] RFID Authorized (UID: %x)" [uid] ;;
         ret AUTH_VALID
       else
         UART_Printf "[ACCESS] RFID DENIED (UID: %x)" [uid] ;;
         ret AUTH_INVALID
     else ret AUTH_NONE) ;;
  (* 1. Check Explicit Auth (User Action) *)
  if (kp =? 1) || (rf_auth =? AUTH_VALID) then
    UART_Printf "[ACCESS] AUTHORIZED! Unlocking Door directly..." [] ;;
    Buzzer_Beep 200 ;;
    enter_disarmed
  (* 2. Check Invalid Auth *)
  else if (kp =? -1) || (rf_auth =? AUTH_INVALID) then
    Check_Brute_Force
  (* 3. Check Passive Intrusion (PIR) or Wakeup *)
  else
    motion <- PIR_CheckTriggered ;;
    when (motion || (kp =? 2))
         (UART_Printf "[ALARM ] MOTION DETECTED! Entry Delay Started (5s)..." [] ;;
          Servo_Close ;;
          setS (set_currentState STATE_ENTRY_DELAY) ;;
          now <- GetTick ;;
          setS (set_stateEntryTime now)).

Definition case_STATE_ENTRY_DELAY : M unit :=
  entry <- gets (fun w => stateEntryTime (sec w)) ;;
  late <- IsTimeout entry ENTRY_DELAY_MS ;;
  when late
       (UART_Printf "[ALARM ] ENTRY TIMEOUT! ALARM TRIGGERED!" [] ;;
        setS (set_alarmVolume INITIAL_VOLUME) ;;
        setS (set_currentState STATE_TRIGGERED) ;;
        now <- GetTick ;;
        setS (set_lastAlarmToggle now)) ;;
  authStatus <- Check_Auth ;;
  if authStatus =? AUTH_VALID then
    UART_Printf "[ACCESS] AUTHORIZED." [] ;;
    Buzzer_Beep 200 ;;
    enter_disarmed
  else
    when (authStatus =? AUTH_INVALID)
         (UART_Printf "[ACCESS] DENIED! Retry..." [] ;;
          Buzzer_Beep 800 ;;
          Check_Brute_Force).

Definition case_STATE_TRIGGERED : M unit :=
  last <- gets (fun w => lastAlarmToggle (sec w)) ;;
  due <- IsTimeout last ALARM_BLINK_MS ;;
  when due
       (now <- GetTick ;;
        setS (set_lastAlarmToggle now) ;;
        setS (fun s => set_toggle_triggered (negb (toggle_triggered s)) s) ;;
        toggle <- gets (fun w => toggle_triggered (sec w)) ;;
        v <- gets (fun w => alarmVolume (sec w)) ;;
        if toggle then Buzzer_On 1000 v ;; LED_Alarm_On
        else Buzzer_On 500 v ;; LED_Alarm_Off) ;;
  authStatus <- Check_Auth ;;
  if authStatus =? AUTH_VALID then
    UART_Printf "[ACCESS] AUTHORIZED! Silencing Alarm..." [] ;;
    Buzzer_Off ;;
    LED_Alarm_Off ;;
    Buzzer_Beep 200 ;;
    enter_disarmed
  else
    when (authStatus =? AUTH_INVALID)
         (UART_Printf "[ACCESS] DENIED! Volume UP." [] ;;
          setS (fun s => set_alarmVolume (alarmVolume s + 10) s) ;;
          v <- gets (fun w => alarmVolume (sec w)) ;;
          when (MAX_VOLUME <? v) (setS (set_alarmVolume MAX_VOLUME)) ;;
          Check_Brute_Force).

Definition case_STATE_LOCKED : M unit :=
  last <- gets (fun w => lastAlarmToggle (sec w)) ;;
  due <- IsTimeout last 100 ;;
  when due
       (now <- GetTick ;;
        setS (set_lastAlarmToggle now) ;;
        setS (fun s => set_toggle_locked (negb (toggle_locked s)) s) ;;
        toggle <- gets (fun w => toggle_locked (sec w)) ;;
        v <- gets (fun w => alarmVolume (sec w)) ;;
        if toggle then LED_Alarm_On ;; Buzzer_On 2500 v
        else LED_Alarm_Off ;; Buzzer_On 1500 v) ;;
  (* Flush Inputs during lock *)
  RFID_GetLastScanResult ;;
  Keypad_GetKeyNonBlocking ;;
  entry <- gets (fun w => stateEntryTime (sec w)) ;;
  expired <- IsTimeout entry LOCKOUT_TIME_MS ;;
  when expired
       (UART_Printf "[ALARM ] LOCKOUT EXPIRED. ALARM ACTIVE! Auth Required." [] ;;
        (* Transition to Triggered to ensure alarm sounds *)
        setS (set_currentState STATE_TRIGGERED) ;;
        now <- GetTick ;;
        setS (set_lastAlarmToggle now) ;;
        setS (set_failedAttempts 0) ;;
        RFID_GetLastScanResult ;;
        Keypad_GetKeyNonBlocking ;;
        ret tt).

Definition case_STATE_EXIT_DELAY : M unit :=
  last <- gets (fun w => lastAlarmToggle (sec w)) ;;
  due <- IsTimeout last 1000 ;;
  when due
       (now <- GetTick ;;
        setS (set_lastAlarmToggle now) ;;
        setS (fun s => set_toggle_exit (negb (toggle_exit s)) s) ;;
        toggle <- gets (fun w => toggle_exit (sec w)) ;;
        if toggle then LED_Alarm_On else LED_Alarm_Off) ;;
  entry <- gets (fun w => stateEntryTime (sec w)) ;;
  expired <- IsTimeout entry EXIT_DELAY_MS ;;
  when expired
       (UART_Printf "[SYSTEM] System ARMED. Monitoring Active." [] ;;
        setS (set_currentState STATE_ARMED) ;;
        LED_Alarm_Off ;;
        (* Clear PIR buffer *)
        PIR_CheckTriggered ;;
        RFID_GetLastScanResult ;;
        Keypad_GetKeyNonBlocking ;;
        ret tt).

Definition case_STATE_DISARMED : M unit :=
  now <- GetTick ;;
  entry <- gets (fun w => stateEntryTime (sec w)) ;;
  let elapsed := wrap32 (now - entry) in
  (* 1. Unlock Phase *)
  if elapsed <? DISARM_WINDOW_MS then
    shown <- gets (fun w => doorUnlockedMsg (sec w)) ;;
    when (negb shown)
         (Servo_Open ;;
          UART_Printf "[SYSTEM] Door UNLOCKED. Closing in 5s..." [] ;;
          setS (set_doorUnlockedMsg true))
  (* 2. Auto-Lock Phase *)
  else
    waiting <- gets (fun w => waitingForAutoLock (sec w)) ;;
    when (negb waiting)
         (UART_Printf "[SYSTEM] Auto-Locking..." [] ;;
          Servo_Close ;;
          now <- GetTick ;;
          setS (set_stateEntryTime now) ;;
          setS (set_waitingForAutoLock true)) ;;
    waiting <- gets (fun w => waitingForAutoLock (sec w)) ;;
    when waiting
         (entry <- gets (fun w => stateEntryTime (sec w)) ;;
          settled <- IsTimeout entry AUTO_LOCK_DELAY_MS ;;
          when settled
               (UART_Printf "[SYSTEM] Exit Delay Started (10s). Leaving..." [] ;;
                setS (set_currentState STATE_EXIT_DELAY) ;;
                now <- GetTick ;;
                setS (set_stateEntryTime now) ;;
                setS (set_waitingForAutoLock false))).

(* Main State Machine Loop - Called periodically from Main *)
Definition Security_Update : M unit :=
  now <- GetTick ;;
  if now <? STARTUP_DELAY_MS then ret tt
  else
    st <- gets (fun w => currentState (sec w)) ;;
    match st with
    | STATE_ARMED => case_STATE_ARMED
    | STATE_ENTRY_DELAY => case_STATE_ENTRY_DELAY
    | STATE_TRIGGERED => case_STATE_TRIGGERED
    | STATE_LOCKED => case_STATE_LOCKED
    | STATE_EXIT_DELAY => case_STATE_EXIT_DELAY
    | STATE_DISARMED => case_STATE_DISARMED
    end.

(* ====================================================================== *)
(** ** admin_mgr.c *)
(* ====================================================================== *)

(** [strncmp(a, b, n) == 0]. *)
Definition strneq (a b : list ascii) (n : nat) : bool :=
  bool_decide (take n (cstr a) = take n (cstr b)).

(** The number of leading characters of [s] that pass [p]. *)
Fixpoint span (p : ascii -> bool) (s : list ascii) : nat :=
  match s with
  | c :: rest => if p c then S (span p rest) else O
  | [] => O
  end.

(** [strtok] going on from position [pos] of [buf]: the delimiters in front
    are skipped; the token runs up to the next delimiter, which is
    overwritten with NUL, or to the end of the string.  The token ([None]
    for the NULL pointer), the buffer, and the position to go on from. *)
Definition strtok (buf : list ascii) (pos : nat) (delim : list ascii)
  : option (list ascii) * list ascii * nat :=
  let is_delim c := existsb (Ascii.eqb c) (cstr delim) in
  let start := (pos + span is_delim (cstr (drop pos buf)))%nat in
  let len := span (fun c => negb (is_delim c)) (cstr (drop start buf)) in
  let stop := (start + len)%nat in
  if (len =? 0)%nat then (None, buf, start)
  else if (length (cstr (drop stop buf)) =? 0)%nat
  then (Some (take len (drop start buf)), buf, stop)
  else (Some (take len (drop start buf)), <[stop := NUL]> buf, S stop).

(** [token = strtok(cmd, " "); token = strtok(NULL, delim);] *)
Definition second_token (cmd delim : list ascii)
  : option (list ascii) * list ascii :=
  let '(_, cmd, pos) := strtok cmd 0 (chars " ") in
  let '(token, cmd, _) := strtok cmd pos delim in
  (token, cmd).

(** The loop that copies [token] to [cleanHex] without blanks and line
    ends, 16 characters at most; [idx] characters are copied already. *)
Fixpoint clean_hex (token : list ascii) (idx : nat) : list ascii :=
  match token with
  | [] => []
  | c :: rest =>
    if Ascii.eqb c NUL || (16 <=? idx)%nat then []
    else if negb (Ascii.eqb c " ") && negb (Ascii.eqb c "010")
            && negb (Ascii.eqb c "013")
    then c :: clean_hex rest (S idx)
    else clean_hex rest idx
  end.

Section Admin.

(** [strtoul(s, NULL, 16)], of the C library. *)
Variable strtoul16 : list ascii -> Z.

(** [cmd] is the buffer the pointer refers to ([None] for the NULL pointer)
    and [logged] the value of [g_admin_logged_in]; the buffer as [strtok]
    leaves it and the new value of the flag are handed back. *)
Definition Admin_ProcessCommand (cmd : option (list ascii)) (logged : bool)
  : M (list ascii * bool) :=
  match cmd with
  | None => ret ([], logged)
  | Some cmd =>
    if strlen cmd =? 0 then ret (cmd, logged)
    else
      UART_Printf "[ADMIN_RX] Cmd: %s" (map code (cstr cmd)) ;;
      (* 1. Process LOGIN *)
      if strneq cmd (chars "LOGIN") 5 then
        let '(token, cmd) := second_token cmd (chars " ") in
        match token with
        | Some token =>
          ok <- Security_CheckAdminPassword token ;;
          if ok then
            UART_Printf "[ADMIN ] LOGIN SUCCESS. Session Active." [] ;;
            ret (cmd, true)
          else
            UART_Printf "[ADMIN ] LOGIN FAILED. Invalid Credentials." [] ;;
            ret (cmd, logged)
        | None =>
          UART_Printf "[ADMIN ] ERR: Missing Password." [] ;;
          ret (cmd, logged)
        end
      (* 2. Security Check (Session Required) *)
      else if negb logged then
        UART_Printf "[ADMIN ] ACCESS DENIED. Please LOGIN first." [] ;;
        ret (cmd, logged)
      (* 3. Command Dispatch *)
      else if strneq cmd (chars "NEWPASS") 7 then
        let '(token, cmd) := second_token cmd (chars " ") in
        match token with
        | Some token =>
          Security_SetPassword (Some token) ;;
          UART_Printf "[ADMIN ] User PIN updated remotely." [] ;;
          ret (cmd, logged)
        | None =>
          UART_Printf "[ADMIN ] ERR: Missing PIN." [] ;;
          ret (cmd, logged)
        end
      else if strneq cmd (chars "UNLOCK") 6 then
        UART_Printf "[ADMIN ] Feature not implemented. Use RFID/Keypad." [] ;;
        ret (cmd, logged)
      else if strneq cmd (chars "STATUS") 6 then
        UART_Printf "[ADMIN ] System Active. Logged In." [] ;;
        ret (cmd, logged)
      (* 6. ADDID <HEX> *)
      else if strneq cmd (chars "ADDID") 5 then
        let '(token, cmd) := second_token cmd [] in
        match token with
        | Some token =>
          let cleanHex := clean_hex token 0 in
          let uid := wrap32 (strtoul16 cleanHex) in
          (if negb (uid =? 0) then
             ok <- Storage_AddRFID uid ;;
             if ok then UART_Printf "[ADMIN ] ID Added: %X" [uid]
             else UART_Printf "[ADMIN ] ERR: Storage Full or Save Failed." []
           else UART_Printf "[ADMIN ] ERR: Invalid Hex ID." []) ;;
          ret (cmd, logged)
        | None =>
          UART_Printf "[ADMIN ] ERR: Missing ID." [] ;;
          ret (cmd, logged)
        end
      (* 7. DELID <HEX> *)
      else if strneq cmd (chars "DELID") 5 then
        let '(token, cmd) := second_token cmd [] in
        match token with
        | Some token =>
          let cleanHex := clean_hex token 0 in
          let uid := wrap32 (strtoul16 cleanHex) in
          ok <- Storage_RemoveRFID uid ;;
          (if ok then UART_Printf "[ADMIN ] ID Removed: %X" [uid]
           else UART_Printf "[ADMIN ] ERR: ID Not Found." []) ;;
          ret (cmd, logged)
        | None =>
          UART_Printf "[ADMIN ] ERR: Missing ID." [] ;;
          ret (cmd, logged)
        end
      (* 8. ADMINPASS <PASS> *)
      else if strneq cmd (chars "ADMINPASS") 9 then
        let '(token, cmd) := second_token cmd (chars " ") in
        match token with
        | Some token =>
          Security_SetAdminPassword (Some token) ;;
          ret (cmd, logged)
        | None =>
          UART_Printf "[ADMIN ] ERR: Missing new password." [] ;;
          ret (cmd, logged)
        end
      (* 9. LISTIDS *)
      else if strneq cmd (chars "LISTIDS") 7 then
        Storage_ListRFIDs ;;
        ret (cmd, logged)
      else
        UART_Printf "[ADMIN ] Unknown Command." [] ;;
        ret (cmd, logged)
  end.

(* ====================================================================== *)
(** ** uart_driver.c: the receive interrupt *)
(* ====================================================================== *)

Definition RX_BUFFER_SIZE : Z := 64.

(** The variables of the receive interrupt, and the session flag of
    admin_mgr.c, which only the interrupt's call of [Admin_ProcessCommand]
    reads and writes. *)
Record Console := {
  rx_buffer : list ascii;         (* char rx_buffer[RX_BUFFER_SIZE] *)
  rx_index : Z;                   (* uint8_t *)
  g_admin_logged_in : bool
}.

Definition set_rx_buffer (v : list ascii) (u : Console) : Console :=
  {| rx_buffer := v; rx_index := rx_index u;
     g_admin_logged_in := g_admin_logged_in u |}.
Definition set_rx_index (v : Z) (u : Console) : Console :=
  {| rx_buffer := rx_buffer u; rx_index := v;
     g_admin_logged_in := g_admin_logged_in u |}.

(** [UART_WriteByte]: one character on the line [UART_Printf] writes to. *)
Definition UART_WriteByte (data : ascii) : M unit :=
  emit (O_Uart "%c" [code data]).

(** [rx_full] and [framing_error] are the two bits of the status flags the
    handler tests, [data] is what [UART_ReadByte] returns.  Clearing the
    error flags at the end touches the peripheral only. *)
Definition UART2_IRQHandler (rx_full framing_error : bool) (data : ascii)
    (u : Console) : M Console :=
  (* Check if RX Full *)
  if rx_full && negb framing_error then
    (* Echo back to Phone *)
    UART_WriteByte data ;;
    (* Handle Backspace/Delete *)
    if (code data =? 0x08) || (code data =? 0x7F) then
      ret (if 0 <? rx_index u
           then set_rx_index (wrap8 (rx_index u - 1)) u else u)
    (* Handle Enter (\r or \n) *)
    else if Ascii.eqb data "013" || Ascii.eqb data "010" then
      if 0 <? rx_index u then
        let buf := <[Z.to_nat (rx_index u) := NUL]> (rx_buffer u) in
        r <- Admin_ProcessCommand (Some buf) (g_admin_logged_in u) ;;
        ret {| rx_buffer := fst r; rx_index := 0; g_admin_logged_in := snd r |}
      else ret u
    else if rx_index u <? RX_BUFFER_SIZE - 1 then
      ret (set_rx_index (wrap8 (rx_index u + 1))
             (set_rx_buffer (<[Z.to_nat (rx_index u) := data]> (rx_buffer u)) u))
    else ret (set_rx_index 0 u)             (* Overflow protection *)
  else ret u.

End Admin.

(** The console at reset. *)
Definition Console_reset : Console :=
  {| rx_buffer := replicate 64 NUL; rx_index := 0; g_admin_logged_in := false |}.

(* ====================================================================== *)
(** ** main.c: start-up and the super loop *)
(* ====================================================================== *)

(** The variables as their initialisers leave them at reset. *)
Definition Security_reset : Security :=
  {| currentState := STATE_TRIGGERED; stateEntryTime := 0;
     lastAlarmToggle := 0; alarmVolume := INITIAL_VOLUME; failedAttempts := 0;
     doorUnlockedMsg := false; waitingForAutoLock := false;
     toggle_triggered := false; toggle_locked := false; toggle_exit := false |}.

Definition Keypad_reset : Keypad :=
  {| g_pressed_key := NUL; kp_buffer := replicate 5 NUL; kp_index := 0;
     last_key_time_kp := 0 |}.

Definition Rfid_reset : Rfid :=
  {| g_rfidState := RFID_IDLE; g_rfid_timer := 0; g_next_scan_time := 0;
     g_last_valid_result := 0; g_last_uid := replicate 5 0;
     g_last_uid_time := 0 |}.

Definition Config_reset : SecurityConfig_t :=
  {| door_pin := replicate 5 NUL; admin_password := replicate 10 NUL;
     authorized_uids := replicate MAX_STORED_IDS 0; magic_header := 0 |}.

(** The world at reset, for a given flash device and reader. *)
Definition reset_world (f : Flash) (c : Rc522) : World :=
  {| g_systemTick := 0; g_pirDetected := false; kp := Keypad_reset;
     rf := Rfid_reset; chip := c; g_cachedConfig := Config_reset;
     flash := f; sec := Security_reset; trace := [] |}.

(** The logic start-up of [main]. *)
Definition main_startup : M unit :=
  Storage_Init ;;
  Security_Init.

(** One pass of the super loop after the wake-up. *)
Definition main_loop_body (uid0 : list Z) : M unit :=
  RFID_Tick uid0 ;;
  Security_Update.

(* ====================================================================== *)
(** * Runs, verdicts and scenarios

    The notions the properties below are stated with, and the concrete
    worlds and runs they are tried on. *)
(* ====================================================================== *)

(** ** Devices and worlds to try things on *)

(** A blank flash whose driver calls succeed. *)
Definition flash_blank : Flash :=
  {| sector := erased_sector; init_status := 0; erase_status := 0;
     program_status := 0 |}.

(** A reader with nothing to report. *)
Definition chip_idle : Rc522 := {| ComIrq := 0; ErrorFlags := 0; fifo := [] |}.

(** The world [main] reaches on them before the super loop. *)
Definition booted : World := exec main_startup (reset_world flash_blank chip_idle).

(** The same world with a flash whose erase fails (status 103). *)
Definition booted_bad_flash : World :=
  upd_flash (fun f => {| sector := sector f; init_status := 0;
                         erase_status := 103; program_status := 0 |}) booted.

(** The same world with all fifty slots taken (identifiers 1 to 50). *)
Definition booted_full : World :=
  upd_config (set_authorized_uids (map Z.of_nat (seq 1 50))) booted.

(** ** Verdicts *)

(** The states whose case consults the arbiter. *)
Definition evaluating (st : SystemState_t) : bool :=
  match st with
  | STATE_ARMED | STATE_ENTRY_DELAY | STATE_TRIGGERED => true
  | _ => false
  end.

(** The verdict a cycle acts on: [Some v] when the start-up guard lets the
    cycle through in a state that consults the arbiter, [None] otherwise. *)
Definition attempt (w : World) : option Z :=
  if (STARTUP_DELAY_MS <=? g_systemTick w) && evaluating (currentState (sec w))
  then Some (eval Check_Auth w)
  else None.

(** Two worlds that agree on what the credential checks read. *)
Definition same_inputs (w1 w2 : World) : Prop :=
  g_systemTick w1 = g_systemTick w2 /\ kp w1 = kp w2 /\ rf w1 = rf w2 /\
  g_cachedConfig w1 = g_cachedConfig w2.

(** The world cut down to what the credential checks read. *)
Definition base (w : World) : World :=
  {| g_systemTick := g_systemTick w; g_pirDetected := false; kp := kp w;
     rf := rf w; chip := chip_idle; g_cachedConfig := g_cachedConfig w;
     flash := flash_blank; sec := Security_reset; trace := [] |}.

(** What a cycle that acts on the verdict [v] does to the orchestrator's
    variables, [s] before and [s'] after the cycle. *)
Definition cycle_effect (v : Z) (s s' : Security) : Prop :=
  if v =? AUTH_VALID then
    currentState s' = STATE_DISARMED /\ failedAttempts s' = 0
  else if v =? AUTH_INVALID then
    failedAttempts s' = wrap8 (failedAttempts s + 1) /\
    (if BRUTE_FORCE_LIMIT <=? wrap8 (failedAttempts s + 1)
     then currentState s' = STATE_LOCKED /\ alarmVolume s' = MAX_VOLUME
     else currentState s' <> STATE_LOCKED /\ currentState s' <> STATE_DISARMED)
  else
    failedAttempts s' = failedAttempts s /\
    currentState s' <> STATE_LOCKED /\ currentState s' <> STATE_DISARMED.

(** What a cycle that acts on no verdict does to the state and the
    counter. *)
Definition idle_effect (s s' : Security) : Prop :=
  (currentState s = STATE_LOCKED ->
   (currentState s' = STATE_LOCKED /\ failedAttempts s' = failedAttempts s) \/
   (currentState s' = STATE_TRIGGERED /\ failedAttempts s' = 0)) /\
  (currentState s <> STATE_LOCKED ->
   failedAttempts s' = failedAttempts s /\
   currentState s' <> STATE_LOCKED /\
   (currentState s <> STATE_DISARMED -> currentState s' <> STATE_DISARMED)).

(** The counter is below the limit outside of Locked and at it inside. *)
Definition lock_inv (s : Security) : Prop :=
  (currentState s = STATE_LOCKED /\ failedAttempts s = BRUTE_FORCE_LIMIT) \/
  (currentState s <> STATE_LOCKED /\ 0 <= failedAttempts s < BRUTE_FORCE_LIMIT).

(** How many more invalid attempts the counter admits before the limit. *)
Definition attempts_left (s : Security) : nat :=
  Z.to_nat (BRUTE_FORCE_LIMIT - failedAttempts s).

(** The UART lines that report a credential: every one of them starts with
    the access tag. *)
Definition access_output (o : Output) : bool :=
  match o with
  | O_Uart fmt _ => String.prefix "[ACCESS]" fmt
  | _ => false
  end.

(** ** Runs under any environment *)

(** A step of a run: the environment rewrites what lies outside
    security_manager.c (interrupts, the drivers' ticks, admin commands; the
    orchestrator's variables are file-static and stay), or the super loop
    calls [Security_Update]. *)
Inductive Action :=
| Env (outside : World)
| Cycle.

Definition act (a : Action) (w : World) : World :=
  match a with
  | Env outside => upd_sec (fun _ => sec w) outside
  | Cycle => exec Security_Update w
  end.

Definition run (l : list Action) (w : World) : World :=
  fold_left (fun w a => act a w) l w.

(** The worlds a run reaches from the start-up of [main], on any flash and
    reader. *)
Definition reachable (w : World) : Prop :=
  exists f c l, w = run l (exec main_startup (reset_world f c)).

Definition is_cycle (a : Action) : bool :=
  match a with Cycle => true | Env _ => false end.

(** How many cycles of the run [l] from [w] act on the verdict [v]. *)
Fixpoint attempts (v : Z) (l : list Action) (w : World) : nat :=
  match l with
  | [] => 0
  | a :: l' =>
    ((if is_cycle a && bool_decide (attempt w = Some v) then 1 else 0)
     + attempts v l' (act a w))%nat
  end.

(** The outside of [w] when an unlisted card (DE AD BE EF) has just been
    latched and the tick counter reads 5000. *)
Definition unlisted_card (w : World) : World :=
  upd_rf (fun r => set_g_last_valid_result 1
                     (set_g_last_uid [0xDE; 0xAD; 0xBE; 0xEF; 0x22] r))
         (upd_tick (fun _ => 5000) w).

(** Three times: an unlisted card is latched, and the next cycle polls it. *)
Definition three_bad_cards : list Action :=
  [Env (unlisted_card booted); Cycle;
   Env (unlisted_card booted); Cycle;
   Env (unlisted_card booted); Cycle].

(** The world after [three_bad_cards] (Locked, tick counter at 5000), with a
    key and a card event pending. *)
Definition locked_with_inputs : World :=
  upd_kp (set_g_pressed_key "5")
    (upd_rf (set_g_last_valid_result 1) (run three_bad_cards booted)).

(** ** PIN entry *)

(** One keystroke: the scan interrupt has latched [k], and the main loop
    polls the keypad when the tick counter reads [t]. *)
Definition keystroke (k : ascii) (t : Z) : M Z :=
  modify (upd_tick (fun _ => t)) ;;
  Keypad_latch k ;;
  Keypad_CheckPassword.

(** A sequence of keystrokes; the results of the polls, in order. *)
Fixpoint submit (keys : list (ascii * Z)) : M (list Z) :=
  match keys with
  | [] => ret []
  | (k, t) :: rest =>
    r <- keystroke k t ;;
    rs <- submit rest ;;
    ret (r :: rs)
  end.

(** A key of the matrix other than the abort key. *)
Definition entry_key (c : ascii) : Prop :=
  In c (concat key_map) /\ c <> "#"%char.

(** Successive polls less than [TIMEOUT_MS] apart. *)
Fixpoint paced (ts : list Z) : Prop :=
  match ts with
  | t :: (t' :: _) as rest => wrap32 (t' - t) < TIMEOUT_MS /\ paced rest
  | _ => True
  end.

(** ** A card held in the field *)

(** The checksum byte a card sends after its four identifier bytes. *)
Definition bcc (uid : list Z) : Z :=
  Z.lxor (Z.lxor (Z.lxor (at_ uid 0) (at_ uid 1)) (at_ uid 2)) (at_ uid 3).

(** What the reader holds while a card with identifier [uid] stays in the
    field: the command in flight has completed without error, with the
    card's ATQA after a request and its identifier and checksum after an
    anticollision. *)
Definition card_in_field (uid : list Z) : M unit :=
  st <- gets (fun w => g_rfidState (rf w)) ;;
  match st with
  | RFID_REQ_SENT =>
    modify (upd_chip (fun _ =>
      {| ComIrq := 0x30; ErrorFlags := 0; fifo := [0x04; 0x00] |}))
  | RFID_ANTICOLL_SENT =>
    modify (upd_chip (fun _ =>
      {| ComIrq := 0x30; ErrorFlags := 0; fifo := uid ++ [bcc uid] |}))
  | _ => ret tt
  end.

(** One millisecond with the card in the field: the tick interrupt, then the
    super loop's [RFID_Tick] and a consumer of the one-shot flag. *)
Definition held_card_ms (uid : list Z) : M Z :=
  PIT_IRQHandler ;;
  card_in_field uid ;;
  RFID_Tick (replicate 5 0) ;;
  RFID_GetLastScanResult.

(** [n] such milliseconds; the number of "new card" events consumed. *)
Fixpoint held_card (n : nat) (uid : list Z) : M Z :=
  match n with
  | O => ret 0
  | S n' =>
    e <- held_card_ms uid ;;
    es <- held_card n' uid ;;
    ret (e + es)
  end.

Definition card_DEADBEEF : list Z := [0xDE; 0xAD; 0xBE; 0xEF].

(** ** The super loop, millisecond by millisecond *)

(** One millisecond of the running system with no card in the field: the
    tick interrupt, in which the keypad scan may latch a key, then one pass
    of the super loop. *)
Definition ms (key : option ascii) : M unit :=
  PIT_IRQHandler ;;
  match key with Some k => Keypad_latch k | None => ret tt end ;;
  main_loop_body (replicate 5 0).

Fixpoint ms_seq (keys : list (option ascii)) : M unit :=
  match keys with
  | [] => ret tt
  | key :: rest => ms key ;; ms_seq rest
  end.

(** The interrupt's part of [ms]. *)
Definition ms_pre (key : option ascii) (w : World) : World :=
  let w1 := upd_tick (fun t => wrap32 (t + 1)) w in
  match key with
  | Some k => upd_kp (set_g_pressed_key k) w1
  | None => w1
  end.

(** No answer pending in the reader and no card event pending. *)
Definition quiet (w : World) : Prop :=
  ComIrq (chip w) = 0 /\ g_last_valid_result (rf w) = 0.

(** What a quiet world's millisecond reads and writes besides the reader's
    timers and the trace. *)
Definition Core : Type := (Z * bool * Keypad * SecurityConfig_t * Security)%type.

Definition core (w : World) : Core :=
  (g_systemTick w, g_pirDetected w, kp w, g_cachedConfig w, sec w).

(** A quiet world with a given core. *)
Definition canon (c : Core) : World :=
  let '(t, p, k, cfg, s) := c in
  {| g_systemTick := t; g_pirDetected := p; kp := k; rf := Rfid_reset;
     chip := chip_idle; g_cachedConfig := cfg; flash := flash_blank;
     sec := s; trace := [] |}.

Definition booted_core : Core := Eval vm_compute in core booted.

(** The core of the armed system at rest, with the tick counter at [t]:
    everything but the tick as start-up left it. *)
Definition rest_core (t : Z) : Core :=
  let '(_, p, k, cfg, s) := booted_core in (t, p, k, cfg, s).

(** [n] milliseconds without a key. *)
Definition rest (n : N) (w : World) : World := N.iter n (exec (ms None)) w.

(** Three wrong PINs, "0000", one key every 100 ms. *)
Definition three_wrong_pins : list (option ascii) :=
  concat (replicate 12 (Some "0"%char :: replicate 99 None)).

(** A run of the system from start-up: at rest for 2^32 - 2200 ms; three
    wrong PINs over the next 1200 ms; 1100 ms more, over which the tick
    counter wraps; and one millisecond in which a key is latched. *)
Definition after_wrap : World :=
  exec (ms_seq (three_wrong_pins ++ replicate 1100 None ++ [Some "1"%char]))
       (rest (2 ^ 32 - 2200) booted).

(** The core that run ends with, computed on the canonical world. *)
Definition after_wrap_core : Core :=
  Eval vm_compute in
    core (exec (ms_seq (three_wrong_pins ++ replicate 1100 None
                          ++ [Some "1"%char]))
               (canon (rest_core (2 ^ 32 - 2200)))).

(** ** The store across calls and restarts *)

(** A restart: the variables are at their initialisers again, the flash
    holds what it held; then the logic start-up of [main]. *)
Definition restart (c : Rc522) (w : World) : World :=
  exec main_startup (reset_world (flash w) c).

(** The interrupt mask and the LED, the bracket of the flash write. *)
Definition bracket (o : Output) : bool :=
  match o with
  | O_IrqOff | O_IrqOn | O_LedOn | O_LedOff => true
  | _ => false
  end.

(** A call that, when it answers true, has ended in [Storage_SaveConfig] of
    the cached record, on the same flash device and with the marker the
    cache had. *)
Definition saves (m : M bool) : Prop :=
  forall w, eval m w = true ->
    exists w0, m w = Storage_SaveConfig (g_cachedConfig w0) w0 /\
               flash w0 = flash w /\
               magic_header (g_cachedConfig w0) = magic_header (g_cachedConfig w).


(** ** Outputs, frames and the system under any inputs *)

(** Every output the computation adds to the trace satisfies [P]. *)
Definition emits (P : Output -> Prop) {A} (m : M A) : Prop :=
  forall w, exists new, trace (exec m w) = new ++ trace w /\ Forall P new.

(** Any output but the servo's open duty. *)
Definition keeps_door_shut (o : Output) : Prop := o <> O_ServoDuty SERVO_OPEN_DUTY.

(** The alarm volume lies between its initial and its maximal value. *)
Definition volume_inv (s : Security) : Prop :=
  INITIAL_VOLUME <= alarmVolume s <= MAX_VOLUME.

(** The computation leaves the part [part] of the world as it is. *)
Definition keeps {X} (part : World -> X) {A} (m : M A) : Prop :=
  forall w, part (exec m w) = part w.

(** What the card reader's driver has no business with: the tick, the motion
    flag, the keypad, the configuration store and the orchestrator. *)
Definition beside_reader (w : World)
  : Z * bool * Keypad * SecurityConfig_t * Flash * Security :=
  (g_systemTick w, g_pirDetected w, kp w, g_cachedConfig w, flash w, sec w).

(** A world that has just entered Disarmed, 5000 ms after the start. *)
Definition just_disarmed : World :=
  exec enter_disarmed (upd_tick (fun _ => 5000) booted).


(** What the environment does within one millisecond: the keypad scan may
    latch a key, the motion sensor's interrupt may fire, the reader's
    registers may change; [in_stack] is what [RFID_Tick] finds in its
    uninitialised local array. *)
Record Inputs := {
  in_key : option ascii;
  in_motion : bool;
  in_chip : option Rc522;
  in_stack : list Z
}.

(** One millisecond of the running system: the tick interrupt, the
    environment, one pass of the super loop.  The tick is at rest within
    the pass and every pass is followed by one tick; on the device a pass
    that prints lasts longer than a millisecond (the UART output blocks at
    9600 baud while the timer counts on), so a time stated over [ms_run] is
    a count of passes. *)
Definition ms_with (i : Inputs) : M unit :=
  PIT_IRQHandler ;;
  match in_key i with Some k => Keypad_latch k | None => ret tt end ;;
  when (in_motion i) PORTA_IRQHandler ;;
  match in_chip i with
  | Some c => modify (upd_chip (fun _ => c))
  | None => ret tt
  end ;;
  main_loop_body (in_stack i).

Fixpoint ms_run (ins : list Inputs) : M unit :=
  match ins with
  | [] => ret tt
  | i :: rest => ms_with i ;; ms_run rest
  end.

(** The duties commanded to the servo, newest first. *)
Definition servo_duties (tr : list Output) : list Z :=
  omap (fun o => match o with O_ServoDuty d => Some d | _ => None end) tr.

(** Any output but a servo command. *)
Definition no_servo (o : Output) : Prop := forall d, o <> O_ServoDuty d.

(** Where the orchestrator stands [n] ms after it entered Disarmed at tick
    [t0]: the lock open for 5000 ms, closed for another 5000 ms, then the
    exit delay of 10000 ms, then Armed. *)
Definition rearm_phase (t0 n : Z) (s : Security) : Prop :=
  if n =? 0 then
    currentState s = STATE_DISARMED /\ stateEntryTime s = t0 /\
    doorUnlockedMsg s = false /\ waitingForAutoLock s = false
  else if n <? 5000 then
    currentState s = STATE_DISARMED /\ stateEntryTime s = t0 /\
    doorUnlockedMsg s = true /\ waitingForAutoLock s = false
  else if n <? 10000 then
    currentState s = STATE_DISARMED /\ stateEntryTime s = t0 + 5000 /\
    doorUnlockedMsg s = true /\ waitingForAutoLock s = true
  else if n <? 20000 then
    currentState s = STATE_EXIT_DELAY /\ stateEntryTime s = t0 + 10000
  else currentState s = STATE_ARMED.

(** The servo commands issued within these [n] ms, newest first. *)
Definition rearm_duties (n : Z) : list Z :=
  if n =? 0 then []
  else if n <? 5000 then [SERVO_OPEN_DUTY]
  else [SERVO_CLOSE_DUTY; SERVO_OPEN_DUTY].

(** The interrupt's and the environment's part of [ms_with]. *)
Definition ms_with_pre (i : Inputs) (w : World) : World :=
  let w1 := upd_tick (fun t => wrap32 (t + 1)) w in
  let w2 := match in_key i with
            | Some k => upd_kp (set_g_pressed_key k) w1
            | None => w1
            end in
  let w3 := if in_motion i then set_pir true w2 else w2 in
  match in_chip i with
  | Some c => upd_chip (fun _ => c) w3
  | None => w3
  end.

(** A millisecond in which a key is latched, motion is seen and a card
    answers the reader. *)
Definition busy_ms : Inputs :=
  {| in_key := Some "5"%char; in_motion := true;
     in_chip := Some {| ComIrq := 0x30; ErrorFlags := 0;
                        fifo := [0xDE; 0xAD; 0xBE; 0xEF; 0x22] |};
     in_stack := replicate 5 0 |}.

(** A millisecond without a key and without a change at the reader. *)
Definition silent (i : Inputs) : Prop := in_key i = None /\ in_chip i = None.

(** No key pending, no card event pending, no answer waiting in the reader. *)
Definition no_credential (w : World) : Prop :=
  g_pressed_key (kp w) = NUL /\ quiet w.

(** The armed system at rest 5000 ms after the start, with motion seen. *)
Definition motion_seen : World := set_pir true (upd_tick (fun _ => 5000) booted).

(** A millisecond with motion and nothing else. *)
Definition still_moving : Inputs :=
  {| in_key := None; in_motion := true; in_chip := None;
     in_stack := replicate 5 0 |}.

(** Where the system stands [n] ms after motion was flagged in Armed at tick
    [t0], nothing being presented: the entry delay from the first cycle on,
    the alarm once 5000 ms of it have passed. *)
Definition alarm_phase (t0 n : Z) (w : World) : Prop :=
  if n =? 0 then
    currentState (sec w) = STATE_ARMED /\ g_pirDetected w = true
  else if n <=? 5000 then
    currentState (sec w) = STATE_ENTRY_DELAY /\ stateEntryTime (sec w) = t0 + 1
  else
    currentState (sec w) = STATE_TRIGGERED /\ alarmVolume (sec w) = INITIAL_VOLUME.

(** ** The reader's answers *)

(** The four identifier bytes, most significant first, as one number. *)
Definition uid_number (u : list Z) : Z :=
  at_ u 0 * 2 ^ 24 + at_ u 1 * 2 ^ 16 + at_ u 2 * 2 ^ 8 + at_ u 3.

(** The first four entries are bytes. *)
Definition uid_bytes (u : list Z) : Prop :=
  forall i, (i < 4)%nat -> 0 <= at_ u i < 256.

(** The reader in the state in which [RFID_Tick] reads an answer to the
    anticollision command: the command is younger than 25 ms, the reader
    signals completion without error, and the FIFO holds five bytes or more. *)
Definition answer_ready (w : World) (b0 b1 b2 b3 c : Z) (more : list Z) : Prop :=
  g_rfidState (rf w) = RFID_ANTICOLL_SENT /\
  wrap32 (g_systemTick w - g_rfid_timer (rf w)) < 25 /\
  Z.land (ComIrq (chip w)) 0x30 <> 0 /\
  Z.land (ErrorFlags (chip w)) 0x1B = 0 /\
  fifo (chip w) = b0 :: b1 :: b2 :: b3 :: c :: more /\
  (length more <= 59)%nat.

(** The reader answering the anticollision command with DE AD BE EF and the
    checksum [c], 110 ms after the reset. *)
Definition answering (c : Z) : World :=
  upd_chip (fun _ => {| ComIrq := 0x30; ErrorFlags := 0;
                        fifo := [0xDE; 0xAD; 0xBE; 0xEF; c] |})
    (upd_rf (fun r => set_g_rfid_timer 105 (set_g_rfidState RFID_ANTICOLL_SENT r))
       (upd_tick (fun _ => 110) (reset_world flash_blank chip_idle))).

(** One millisecond at the reader: its registers change, the super loop
    calls [RFID_Tick] (finding [stack] in the local array), the tick
    interrupt fires. *)
Definition reader_ms (e : Rc522 * list Z) : M unit :=
  modify (upd_chip (fun _ => fst e)) ;;
  RFID_Tick (snd e) ;;
  PIT_IRQHandler.

Fixpoint reader_run (es : list (Rc522 * list Z)) : M unit :=
  match es with
  | [] => ret tt
  | e :: rest => reader_ms e ;; reader_run rest
  end.

(** A bound on the milliseconds the state machine can stay away from idle:
    what is left of the 25 ms of the command in flight, and the 25 ms of the
    anticollision that may follow a request. *)
Definition reader_patience (w : World) : Z :=
  let left := 25 - Z.min (wrap32 (g_systemTick w - g_rfid_timer (rf w))) 25 in
  match g_rfidState (rf w) with
  | RFID_IDLE => 0
  | RFID_HALT_SENT => 1
  | RFID_ANTICOLL_SENT => 1 + left
  | RFID_REQ_SENT => 27 + left
  end.

(** ** The key matrix *)

(** Row [r] is driven low. *)
Definition row_low (pdor : Z) (r : Z) : bool :=
  negb (Z.testbit pdor (ROW1_PIN + r)).

(** What port E reads: the four columns are pulled up; the key at row [r],
    column [c], while held, pulls its column low when its row is driven
    low. *)
Definition GPIOE_PDIR (held : option (Z * Z)) (pdor : Z) : Z :=
  let up := 0x3C in
  match held with
  | Some (r, c) =>
    if row_low pdor r then Z.ldiff up (Z.shiftl 1 (COL1_PIN + c)) else up
  | None => up
  end.

(** One millisecond of the scan with the keys as [held] says. *)
Definition scan_ms (held : option (Z * Z)) (s : KeypadScan) : M KeypadScan :=
  Keypad_Tick (GPIOE_PDIR held (GPIOB_PDOR s)) s.

Fixpoint scan_run (held : option (Z * Z)) (n : nat) (s : KeypadScan)
  : M KeypadScan :=
  match n with
  | O => ret s
  | S n' => s' <- scan_ms held s ;; scan_run held n' s'
  end.

(** The scan drives row [current_row] and no other. *)
Definition driving (s : KeypadScan) : Prop :=
  0 <= current_row s < 4 /\
  forall j, 0 <= j < 4 ->
    row_low (GPIOB_PDOR s) j = (j =? current_row s).

(** No row but [current_row] is driven. *)
Definition settled (s : KeypadScan) : Prop :=
  0 <= current_row s < 4 /\
  forall j, 0 <= j < 4 -> j <> current_row s ->
    row_low (GPIOB_PDOR s) j = false.

(** The scan at the start of a sweep, the sweep before having found no key
    down. *)
Definition released (s : KeypadScan) : Prop :=
  driving s /\ current_row s = 0 /\
  stable_key_candidate s = NUL /\ last_valid_key s = NUL /\
  g_raw_key s = NUL /\ g_stable_count s = 0.

(** *** The four steps of [Keypad_Tick] *)

(** 1. The key of the first low column in the row being driven. *)
Definition scan_detect (col_val row : Z) : ascii :=
  let low pin := Z.land col_val (Z.shiftl 1 pin) =? 0 in
  if low COL1_PIN then key_map_at row 0
  else if low COL2_PIN then key_map_at row 1
  else if low COL3_PIN then key_map_at row 2
  else if low COL4_PIN then key_map_at row 3
  else NUL.

(** 1 and 2. The row is released and the key found is noted. *)
Definition scan_read (col_val : Z) (s : KeypadScan) : KeypadScan :=
  let detected_char := scan_detect col_val (current_row s) in
  let s := match row_pin (current_row s) with
           | Some pin => PSOR (Z.shiftl 1 pin) s
           | None => s
           end in
  if negb (Ascii.eqb detected_char NUL)
  then set_g_raw_key detected_char s else s.

(** 3. The end of a sweep. *)
Definition scan_settle (s : KeypadScan) : M KeypadScan :=
  let s :=
    if negb (Ascii.eqb (g_raw_key s) NUL)
       && Ascii.eqb (g_raw_key s) (stable_key_candidate s)
    then set_g_stable_count (wrap8 (g_stable_count s + 1)) s
    else set_g_stable_count 0 (set_stable_key_candidate (g_raw_key s) s) in
  s <- (if 20 <? g_stable_count s then
          if negb (Ascii.eqb (stable_key_candidate s) (last_valid_key s))
          then
            Keypad_latch (stable_key_candidate s) ;;
            ret (set_last_valid_key (stable_key_candidate s) s)
          else ret s
        else
          ret (if Ascii.eqb (g_raw_key s) NUL
               then set_last_valid_key NUL s else s)) ;;
  ret (set_g_raw_key NUL s).

(** 4. The next row is driven. *)
Definition scan_advance (s : KeypadScan) : KeypadScan :=
  let row := wrap8 (current_row s + 1) in
  let row := if 3 <? row then 0 else row in
  let s := set_current_row row s in
  match row_pin row with
  | Some pin => PCOR (Z.shiftl 1 pin) s
  | None => s
  end.

(** The key at row [r], column [c] held down since the scan was released:
    [j] sweeps have seen it and the scan is [i] rows into the next. *)
Definition pressing (r c j i : Z) (s : KeypadScan) : Prop :=
  driving s /\ current_row s = i /\
  g_raw_key s = (if r <? i then key_map_at r c else NUL) /\
  last_valid_key s = NUL /\
  stable_key_candidate s = (if j =? 0 then NUL else key_map_at r c) /\
  g_stable_count s = (if j =? 0 then 0 else j - 1).

(** The key at row [r], column [c] is held and has been reported. *)
Definition reported (r c : Z) (s : KeypadScan) : Prop :=
  driving s /\
  g_raw_key s = (if r <? current_row s then key_map_at r c else NUL) /\
  stable_key_candidate s = key_map_at r c /\
  last_valid_key s = key_map_at r c /\
  0 <= g_stable_count s < 256.

(** The scan over the milliseconds in which port E reads [cols]. *)
Fixpoint Keypad_Ticks (cols : list Z) (s : KeypadScan) : M KeypadScan :=
  match cols with
  | [] => ret s
  | col_val :: rest => s' <- Keypad_Tick col_val s ;; Keypad_Ticks rest s'
  end.

(** The keys as [held] says while the main loop polls: each millisecond the
    scan runs and then, where [polls] says so, the main loop calls
    [Keypad_GetKeyNonBlocking]; the answers of the milliseconds, [NUL] where
    no call was made. *)
Fixpoint held_polls (held : option (Z * Z)) (polls : list bool) (s : KeypadScan)
  : M (list ascii) :=
  match polls with
  | [] => ret []
  | p :: rest =>
    s' <- scan_ms held s ;;
    k <- (if p then Keypad_GetKeyNonBlocking else ret NUL) ;;
    ks <- held_polls held rest s' ;;
    ret (k :: ks)
  end.

(** [k] at the first poll made, [NUL] elsewhere. *)
Fixpoint once (k : ascii) (polls : list bool) : list ascii :=
  match polls with
  | [] => []
  | true :: rest => k :: map (fun _ => NUL) rest
  | false :: rest => NUL :: once k rest
  end.

(** ** A beep and the ticks after it *)

Fixpoint Outputs_Ticks (n : nat) (g_buzzerTimeout : Z) : M Z :=
  match n with
  | O => ret g_buzzerTimeout
  | S n' => t <- Outputs_Tick g_buzzerTimeout ;; Outputs_Ticks n' t
  end.

(** [Buzzer_Beep], the value it leaves in the [uint32_t g_buzzerTimeout],
    and [n] tick interrupts. *)
Definition beep_then_ticks (duration_ms : Z) (n : nat) : M Z :=
  Buzzer_Beep duration_ms ;;
  Outputs_Ticks n (wrap32 duration_ms).

(** ** The admin console *)


(** The command is a LOGIN whose second word is the admin password. *)
Definition login_ok (cmd : option (list ascii)) (w : World) : bool :=
  match cmd with
  | Some buf =>
    negb (strlen buf =? 0) && strneq buf (chars "LOGIN") 5 &&
    match fst (second_token buf (chars " ")) with
    | Some token => streq token (admin_password (g_cachedConfig w))
    | None => false
    end
  | None => false
  end.


(** The characters [l] arrive one after the other, each with the receive
    flag set and no framing error. *)
Fixpoint receive (strtoul16 : list ascii -> Z) (l : list ascii) (u : Console)
  : M Console :=
  match l with
  | [] => ret u
  | c :: rest =>
    u' <- UART2_IRQHandler strtoul16 true false c u ;;
    receive strtoul16 rest u'
  end.

(** A character the receive interrupt stores: no backspace, delete or line
    end. *)
Definition stored_char (c : ascii) : Prop :=
  code c <> 0x08 /\ code c <> 0x7F /\ c <> "013"%char /\ c <> "010"%char.

(** What the receive interrupt echoes for the characters [l], newest
    first. *)
Definition echoes (l : list ascii) : list Output :=
  map (fun c => O_Uart "%c" [code c]) (rev l).

(* ====================================================================== *)
(** * Properties *)
(* ====================================================================== *)

Create HintDb fw discriminated.

#[local] Hint Unfold
  bind ret gets modify when exec eval emit setK setR setS
  GetTick IsTimeout PIR_CheckTriggered
  Servo_SetDuty Servo_Close Servo_Open LED_Alarm_On LED_Alarm_Off
  Buzzer_On Buzzer_Off Buzzer_Beep UART_Printf
  FLASH_Erase FLASH_Program Print_Flash_Error
  SaveConfig_sector Storage_SaveConfig Storage_GetConfig
  Security_CheckPassword Keypad_GetKeyNonBlocking
  RFID_GetLastScanResult RFID_CheckScan RFID_GetLastUID : fw.

(** Unfold the firmware calls of the goal and compute. *)
Ltac fw_simpl := autounfold with fw; cbn [fst snd].

Ltac has_var t := match t with context [?x] => is_var x end.

(** Settle a test: compute it when it is closed, split on it otherwise. *)
Ltac fw_split b :=
  tryif has_var b then destruct b eqn:?
  else (let v := eval vm_compute in b in
        replace b with v by (vm_compute; reflexivity)).

(** Settle the first test the computation is stuck on. *)
Ltac fw_case :=
  match goal with
  | |- context [if ?b then _ else _] =>
      tryif has_var b then fail else idtac;
      let v := eval vm_compute in b in
      replace b with v by (vm_compute; reflexivity)
  | |- context [if negb ?b then _ else _] => fw_split b; cbn [negb]
  | |- context [if ?a && _ then _ else _] => fw_split a; cbn [andb]
  | |- context [if ?a || _ then _ else _] => fw_split a; cbn [orb]
  | |- context [if ?b then _ else _] => fw_split b
  end.

Ltac fw_run := fw_simpl; repeat (fw_case; cbn [fst snd]).

(** Reduce the projections of updated records, and nothing else. *)
Ltac fw_norm :=
  cbn [fst snd
       g_systemTick g_pirDetected kp rf chip g_cachedConfig flash sec trace
       upd_tick set_pir upd_kp upd_rf upd_chip upd_config upd_flash upd_sec
       upd_trace
       currentState stateEntryTime lastAlarmToggle alarmVolume failedAttempts
       doorUnlockedMsg waitingForAutoLock toggle_triggered toggle_locked
       toggle_exit
       set_currentState set_stateEntryTime set_lastAlarmToggle set_alarmVolume
       set_failedAttempts set_doorUnlockedMsg set_waitingForAutoLock
       set_toggle_triggered set_toggle_locked set_toggle_exit
       g_pressed_key kp_buffer kp_index last_key_time_kp
       set_g_pressed_key set_kp_buffer set_kp_index set_last_key_time_kp
       g_rfidState g_rfid_timer g_next_scan_time g_last_valid_result
       g_last_uid g_last_uid_time
       set_g_rfidState set_g_rfid_timer set_g_next_scan_time
       set_g_last_valid_result set_g_last_uid set_g_last_uid_time
       ComIrq ErrorFlags fifo set_fifo
       sector init_status erase_status program_status set_sector].

Ltac fw_go := autounfold with fw; fw_norm; repeat (fw_case; fw_norm).

(** Boolean comparisons of the hypotheses as propositions. *)
Ltac zb :=
  repeat match goal with
  | H : (_ =? _) = true |- _ => apply Z.eqb_eq in H
  | H : (_ =? _) = false |- _ => apply Z.eqb_neq in H
  | H : (_ <? _) = true |- _ => apply Z.ltb_lt in H
  | H : (_ <? _) = false |- _ => apply Z.ltb_ge in H
  | H : (_ <=? _) = true |- _ => apply Z.leb_le in H
  | H : (_ <=? _) = false |- _ => apply Z.leb_gt in H
  end.

(* ---------------------------------------------------------------------- *)
(** ** The configuration store *)
(* ---------------------------------------------------------------------- *)

Section Store.

Implicit Types (w : World) (cfg : SecurityConfig_t).

(** The critical section never touches the cache. *)
Lemma SaveConfig_sector_cache cfg w :
  g_cachedConfig (exec (SaveConfig_sector cfg) w) = g_cachedConfig w.
Proof. fw_run; reflexivity. Qed.

Lemma SaveConfig_sector_result cfg w :
  eval (SaveConfig_sector cfg) w = true <->
  erase_status (flash w) = kStatus_FLASH_Success /\
  program_status (flash w) = kStatus_FLASH_Success.
Proof.
  fw_run; zb; (split; [intros H | intros [H1 H2]]);
    try discriminate; try contradiction; auto.
Qed.

Lemma SaveConfig_sector_programs cfg w :
  eval (SaveConfig_sector cfg) w = true ->
  sector (flash (exec (SaveConfig_sector cfg) w)) = cfg.
Proof. fw_run; cbn; intros H; try discriminate; reflexivity. Qed.

(** *** The table loops *)

Lemma find_slot_Some test (tbl : list Z) from count i :
  find_slot test tbl from count = Some i ->
  (from <= i < from + count)%nat /\ test (default 0 (tbl !! i)) = true /\
  forall j, (from <= j < i)%nat -> test (default 0 (tbl !! j)) = false.
Proof.
  revert from. induction count as [|count IH]; intros from; cbn; [discriminate|].
  destruct (test (default 0 (tbl !! from))) eqn:Hfrom.
  - intros [= <-]. repeat split; auto; lia.
  - intros H. apply IH in H as (Hi & Ht & Hlt). repeat split; auto; try lia.
    intros j Hj. destruct (decide (j = from)) as [->|]; auto. apply Hlt. lia.
Qed.

Lemma find_slot_None test (tbl : list Z) from count :
  find_slot test tbl from count = None <->
  forall j, (from <= j < from + count)%nat -> test (default 0 (tbl !! j)) = false.
Proof.
  revert from. induction count as [|count IH]; intros from; cbn.
  - split; auto. intros _ j Hj. lia.
  - destruct (test (default 0 (tbl !! from))) eqn:Hfrom.
    + split; [discriminate|]. intros H. rewrite H in Hfrom by lia. discriminate.
    + rewrite IH. split; intros H j Hj.
      * destruct (decide (j = from)) as [->|]; auto. apply H. lia.
      * apply H. lia.
Qed.

Lemma find_slot_is_Some test (tbl : list Z) from count j :
  (from <= j < from + count)%nat -> test (default 0 (tbl !! j)) = true ->
  exists i, find_slot test tbl from count = Some i.
Proof.
  intros Hj Ht. destruct (find_slot test tbl from count) as [i|] eqn:E; eauto.
  rewrite find_slot_None in E. rewrite E in Ht by exact Hj. discriminate.
Qed.

(** The zero identifier is turned away with nothing touched. *)
Lemma Storage_AddRFID_zero w : Storage_AddRFID 0 w = (false, w).
Proof. reflexivity. Qed.

(** An identifier found in the table is turned away: only the message is
    new. *)
Lemma Storage_AddRFID_duplicate uid w i :
  uid <> 0 -> (i < MAX_STORED_IDS)%nat ->
  authorized_uids (g_cachedConfig w) !! i = Some uid ->
  Storage_AddRFID uid w =
    (false, exec (UART_Printf "[STORAGE] UID %X already exists." [uid]) w).
Proof.
  intros Hnz Hi Hlook. unfold Storage_AddRFID.
  destruct (uid =? 0) eqn:E; zb; [contradiction|].
  destruct (find_slot_is_Some (fun x => x =? uid)
              (authorized_uids (g_cachedConfig w)) 0 MAX_STORED_IDS i)
    as [j Hj]; [lia | rewrite Hlook; cbn; apply Z.eqb_refl |].
  fw_simpl. rewrite Hj. reflexivity.
Qed.

(** With every slot taken by another identifier the table is full: only the
    message is new. *)
Lemma Storage_AddRFID_full uid w :
  uid <> 0 ->
  length (authorized_uids (g_cachedConfig w)) = MAX_STORED_IDS ->
  Forall (fun x => x <> 0) (authorized_uids (g_cachedConfig w)) ->
  ~ In uid (authorized_uids (g_cachedConfig w)) ->
  Storage_AddRFID uid w =
    (false,
     exec (UART_Printf "[STORAGE] Memory Full! Delete an old ID first." []) w).
Proof.
  intros Hnz Hlen Hocc Hnew. unfold Storage_AddRFID.
  destruct (uid =? 0) eqn:E; zb; [contradiction|].
  set (tbl := authorized_uids (g_cachedConfig w)) in *.
  assert (Hslot : forall j, (0 <= j < 0 + MAX_STORED_IDS)%nat ->
            exists x, tbl !! j = Some x /\ x <> 0 /\ x <> uid).
  { intros j Hj. destruct (lookup_lt_is_Some_2 tbl j) as [x Hx]; [lia|].
    exists x. split; auto. apply list_elem_of_lookup_2 in Hx as Hin.
    split.
    - rewrite Forall_forall in Hocc. apply Hocc. exact Hin.
    - intros ->. apply Hnew. apply list_elem_of_In. exact Hin. }
  assert (H1 : find_slot (fun x => x =? uid) tbl 0 MAX_STORED_IDS = None).
  { apply find_slot_None. intros j Hj.
    destruct (Hslot j Hj) as (x & -> & _ & Hx). cbn. apply Z.eqb_neq. exact Hx. }
  assert (H2 : find_slot (fun x => x =? 0) tbl 0 MAX_STORED_IDS = None).
  { apply find_slot_None. intros j Hj.
    destruct (Hslot j Hj) as (x & -> & Hx & _). cbn. apply Z.eqb_neq. exact Hx. }
  fw_simpl. fold tbl. rewrite H1, H2. reflexivity.
Qed.

(** A successful add leaves the identifier in the table. *)
Lemma Storage_AddRFID_stored uid w :
  length (authorized_uids (g_cachedConfig w)) = MAX_STORED_IDS ->
  eval (Storage_AddRFID uid) w = true ->
  exists i, (i < MAX_STORED_IDS)%nat /\
    authorized_uids (g_cachedConfig (exec (Storage_AddRFID uid) w)) !! i
      = Some uid.
Proof.
  intros Hlen. unfold Storage_AddRFID.
  destruct (uid =? 0) eqn:E; [cbn; discriminate|].
  fw_simpl.
  destruct (find_slot (fun x => x =? uid) _ 0 _) eqn:H1; [cbn; discriminate|].
  destruct (find_slot (fun x => x =? 0) _ 0 _) as [i|] eqn:H2;
    [|cbn; discriminate].
  apply find_slot_Some in H2 as (Hi & _ & _).
  intros _. exists i. split; [lia|].
  repeat (fw_case; cbn [fst snd]); cbn; apply list_lookup_insert_eq; lia.
Qed.

Lemma Storage_SaveConfig_cache cfg w :
  g_cachedConfig (exec (Storage_SaveConfig cfg) w) = cfg.
Proof.
  unfold Storage_SaveConfig, exec, bind at 1, modify at 1.
  apply (SaveConfig_sector_cache cfg (upd_config (fun _ => cfg) w)).
Qed.

End Store.

(** The outputs of the critical section: the LED and the interrupt mask
    around the flash calls, then the success line or the code of the call
    that failed. *)
Lemma SaveConfig_sector_trace cfg w :
  let w' := exec (SaveConfig_sector cfg) w in
  let e := erase_status (flash w) in
  let p := program_status (flash w) in
  trace w' =
    (if negb (e =? kStatus_FLASH_Success)
     then O_Uart "[STORAGE] Flash Error Code: %d" [e]
     else if p =? kStatus_FLASH_Success
          then O_Uart "[STORAGE] Save Success." []
          else O_Uart "[STORAGE] Flash Error Code: %d" [p])
    :: O_LedOff :: O_IrqOn :: O_IrqOff :: O_LedOn :: trace w.
Proof.
  cbv zeta. unfold exec, SaveConfig_sector. autounfold with fw. fw_norm.
  destruct (erase_status (flash w) =? kStatus_FLASH_Success) eqn:E;
    cbn [negb]; fw_norm; rewrite ?E; cbn [negb]; fw_norm;
    [destruct (program_status (flash w) =? kStatus_FLASH_Success) eqn:P;
     fw_norm; rewrite ?P; cbn [negb]; fw_norm|];
    reflexivity.
Qed.

(** C8. [Storage_SaveConfig] first overwrites the cached configuration and
    only then runs the erase-and-program section, on the world that already
    holds the new record.  The section erases and programs: the call
    answers true exactly when both the erase and the program succeed, the
    sector then holds the new record, and the outputs show the attempt (the
    LED and interrupt bracket, then the success line or the code of the
    call that failed).  The section never touches the cache, so the cache
    holds the new record whatever the outcome: on a failed erase or program
    the call returns false with the cache still holding the new record, not
    rolled back. *)
Theorem Storage_SaveConfig_cache_before_flash cfg w :
  let w' := exec (Storage_SaveConfig cfg) w in
  let e := erase_status (flash w) in
  let p := program_status (flash w) in
  Storage_SaveConfig cfg w
    = SaveConfig_sector cfg (upd_config (fun _ => cfg) w) /\
  g_cachedConfig (exec (SaveConfig_sector cfg) w) = g_cachedConfig w /\
  g_cachedConfig w' = cfg /\
  (eval (Storage_SaveConfig cfg) w = true <->
   e = kStatus_FLASH_Success /\ p = kStatus_FLASH_Success) /\
  (eval (Storage_SaveConfig cfg) w = true -> sector (flash w') = cfg) /\
  (e <> kStatus_FLASH_Success \/ p <> kStatus_FLASH_Success ->
   eval (Storage_SaveConfig cfg) w = false /\ g_cachedConfig w' = cfg) /\
  trace w' =
    (if negb (e =? kStatus_FLASH_Success)
     then O_Uart "[STORAGE] Flash Error Code: %d" [e]
     else if p =? kStatus_FLASH_Success
          then O_Uart "[STORAGE] Save Success." []
          else O_Uart "[STORAGE] Flash Error Code: %d" [p])
    :: O_LedOff :: O_IrqOn :: O_IrqOff :: O_LedOn :: trace w.
Proof.
  cbv zeta.
  pose proof (SaveConfig_sector_result cfg (upd_config (fun _ => cfg) w)) as R.
  change (eval (SaveConfig_sector cfg) (upd_config (fun _ => cfg) w))
    with (eval (Storage_SaveConfig cfg) w) in R.
  cbn [flash upd_config] in R.
  split; [reflexivity|].
  split; [apply SaveConfig_sector_cache|].
  split; [apply Storage_SaveConfig_cache|].
  split; [exact R|].
  split; [apply (SaveConfig_sector_programs cfg (upd_config (fun _ => cfg) w))|].
  split.
  - intros Hfail. split; [|apply Storage_SaveConfig_cache].
    apply not_true_is_false. intros E. apply R in E. tauto.
  - apply (SaveConfig_sector_trace cfg (upd_config (fun _ => cfg) w)).
Qed.

(** On a flash whose erase fails, saving a new record returns false, the
    cache holds the new record and the sector still holds the old one. *)
Lemma Storage_SaveConfig_cache_before_flash_witness :
  let cfg := set_door_pin (chars "9999") (g_cachedConfig booted) in
  eval (Storage_SaveConfig cfg) booted_bad_flash = false /\
  g_cachedConfig (exec (Storage_SaveConfig cfg) booted_bad_flash) = cfg /\
  sector (flash (exec (Storage_SaveConfig cfg) booted_bad_flash)) <> cfg.
Proof.
  intros cfg.
  destruct (Storage_SaveConfig_cache_before_flash cfg booted_bad_flash)
    as (_ & _ & _ & _ & _ & Hfail & _).
  destruct Hfail as [Hr Hc]; [left; vm_compute; discriminate|].
  split; [exact Hr|]. split; [exact Hc|].
  vm_compute. discriminate.
Defined.

(** C7. [Storage_LoadConfig] on a sector whose marker is not
    [STORAGE_MAGIC] hands back the defaults (door PIN "1234", admin
    password "123456", fifty zero slots, the marker set) and has at once
    called [Storage_SaveConfig] on them, so the cache holds them and, when
    the flash calls succeed, so does the sector; on a sector whose marker
    matches it hands back the stored record and changes nothing. *)
Theorem Storage_LoadConfig_defaults_or_stored (out : SecurityConfig_t) w :
  (magic_header (sector (flash w)) <> STORAGE_MAGIC ->
   exists cfg,
     eval (Storage_LoadConfig (Some out)) w = Some cfg /\
     cstr (door_pin cfg) = chars "1234" /\
     cstr (admin_password cfg) = chars "123456" /\
     authorized_uids cfg = replicate MAX_STORED_IDS 0 /\
     magic_header cfg = STORAGE_MAGIC /\
     exec (Storage_LoadConfig (Some out)) w
       = exec (Storage_SaveConfig cfg)
           (exec (UART_Printf
                    "[STORAGE] No valid config found. Loading Defaults." []) w) /\
     g_cachedConfig (exec (Storage_LoadConfig (Some out)) w) = cfg /\
     (erase_status (flash w) = kStatus_FLASH_Success ->
      program_status (flash w) = kStatus_FLASH_Success ->
      sector (flash (exec (Storage_LoadConfig (Some out)) w)) = cfg)) /\
  (magic_header (sector (flash w)) = STORAGE_MAGIC ->
   Storage_LoadConfig (Some out) w = (Some (sector (flash w)), w)).
Proof.
  split; intros Hm.
  - apply Z.eqb_neq in Hm.
    set (cfg :=
      set_magic_header STORAGE_MAGIC
        (set_authorized_uids (replicate MAX_STORED_IDS 0)
          (set_admin_password (strcpy (admin_password out) (chars "123456"))
            (set_door_pin (strcpy (door_pin out) (chars "1234")) out)))).
    set (w1 := exec (UART_Printf
                 "[STORAGE] No valid config found. Loading Defaults." []) w).
    assert (Hrun : Storage_LoadConfig (Some out) w
                   = (Some cfg, exec (Storage_SaveConfig cfg) w1)).
    { unfold Storage_LoadConfig, bind at 1, gets at 1. rewrite Hm.
      subst w1 cfg. cbv [bind UART_Printf emit modify ret exec].
      cbn [fst snd admin_password set_door_pin].
      destruct (Storage_SaveConfig _ _); reflexivity. }
    exists cfg. unfold eval, exec at 1 3 4. rewrite Hrun. cbn [fst snd].
    repeat split.
    + apply Storage_SaveConfig_cache.
    + intros He Hp. apply SaveConfig_sector_programs.
      apply SaveConfig_sector_result. cbn. auto.
  - apply Z.eqb_eq in Hm.
    unfold Storage_LoadConfig, bind, gets, ret. rewrite Hm. reflexivity.
Qed.

(** A freshly erased sector loads as the defaults and is initialised; the
    booted world's initialised sector then loads as it is. *)
Lemma Storage_LoadConfig_defaults_or_stored_witness :
  (exists cfg,
     eval (Storage_LoadConfig (Some Config_reset))
          (reset_world flash_blank chip_idle) = Some cfg /\
     cstr (door_pin cfg) = chars "1234" /\
     cstr (admin_password cfg) = chars "123456") /\
  Storage_LoadConfig (Some Config_reset) booted
    = (Some (sector (flash booted)), booted).
Proof.
  split.
  - destruct (proj1 (Storage_LoadConfig_defaults_or_stored Config_reset
                       (reset_world flash_blank chip_idle)))
      as (cfg & H1 & H2 & H3 & _); [vm_compute; discriminate|].
    exists cfg. auto.
  - apply (proj2 (Storage_LoadConfig_defaults_or_stored Config_reset booted)).
    vm_compute. reflexivity.
Defined.

(** C6. [Storage_AddRFID] turns away the zero identifier; an identifier
    already in the table (so also the second add of one just stored), with
    the duplicate message; and, when all fifty slots hold other non-zero
    identifiers, a further one, with the memory-full message.  Each time it
    returns false and neither the cached table nor the flash changes. *)
Theorem Storage_AddRFID_rejections :
  (forall w, Storage_AddRFID 0 w = (false, w)) /\
  (forall w uid i,
     uid <> 0 -> (i < MAX_STORED_IDS)%nat ->
     authorized_uids (g_cachedConfig w) !! i = Some uid ->
     let w' := exec (Storage_AddRFID uid) w in
     eval (Storage_AddRFID uid) w = false /\
     g_cachedConfig w' = g_cachedConfig w /\ flash w' = flash w /\
     trace w' = O_Uart "[STORAGE] UID %X already exists." [uid] :: trace w) /\
  (forall w uid,
     uid <> 0 ->
     length (authorized_uids (g_cachedConfig w)) = MAX_STORED_IDS ->
     eval (Storage_AddRFID uid) w = true ->
     let w1 := exec (Storage_AddRFID uid) w in
     let w2 := exec (Storage_AddRFID uid) w1 in
     eval (Storage_AddRFID uid) w1 = false /\
     g_cachedConfig w2 = g_cachedConfig w1 /\ flash w2 = flash w1 /\
     trace w2 = O_Uart "[STORAGE] UID %X already exists." [uid] :: trace w1) /\
  (forall w uid,
     uid <> 0 ->
     length (authorized_uids (g_cachedConfig w)) = MAX_STORED_IDS ->
     Forall (fun x => x <> 0) (authorized_uids (g_cachedConfig w)) ->
     ~ In uid (authorized_uids (g_cachedConfig w)) ->
     let w' := exec (Storage_AddRFID uid) w in
     eval (Storage_AddRFID uid) w = false /\
     g_cachedConfig w' = g_cachedConfig w /\ flash w' = flash w /\
     trace w' =
       O_Uart "[STORAGE] Memory Full! Delete an old ID first." [] :: trace w).
Proof.
  split; [exact Storage_AddRFID_zero|].
  split; [|split].
  - intros w uid i Hnz Hi Hlook. cbv zeta. unfold eval, exec.
    rewrite (Storage_AddRFID_duplicate uid w i Hnz Hi Hlook).
    repeat split.
  - intros w uid Hnz Hlen Hok. cbv zeta.
    destruct (Storage_AddRFID_stored uid w Hlen Hok) as (i & Hi & Hlook).
    set (w1 := exec (Storage_AddRFID uid) w) in *.
    pose proof (Storage_AddRFID_duplicate uid w1 i Hnz Hi Hlook) as E.
    unfold eval, exec. rewrite E. repeat split.
  - intros w uid Hnz Hlen Hocc Hnew. cbv zeta. unfold eval, exec.
    rewrite (Storage_AddRFID_full uid w Hnz Hlen Hocc Hnew).
    repeat split.
Qed.

(** On the booted world the first add of 0xCAFE succeeds and the second is
    turned away as a duplicate; on the full table 0xCAFE is turned away with
    the memory-full message. *)
Lemma Storage_AddRFID_rejections_witness :
  eval (Storage_AddRFID 0xCAFE) (exec (Storage_AddRFID 0xCAFE) booted) = false /\
  eval (Storage_AddRFID 0xCAFE) booted_full = false /\
  trace (exec (Storage_AddRFID 0xCAFE) booted_full) =
    O_Uart "[STORAGE] Memory Full! Delete an old ID first." []
    :: trace booted_full.
Proof.
  destruct Storage_AddRFID_rejections as (_ & _ & Hsecond & Hfull).
  split.
  - apply (Hsecond booted 0xCAFE); [lia | reflexivity | reflexivity].
  - assert (Hocc : Forall (fun x => x <> 0)
                     (authorized_uids (g_cachedConfig booted_full)))
      by compute_done.
    assert (Hnew : ~ In 0xCAFE (authorized_uids (g_cachedConfig booted_full)))
      by (rewrite <- list_elem_of_In; compute_done).
    destruct (Hfull booted_full 0xCAFE ltac:(lia) ltac:(reflexivity) Hocc Hnew)
      as (H1 & _ & _ & H4).
    split; assumption.
Defined.

(** C4 fails as stated: a two-character string is not rejected by
    [Storage_UpdatePIN]; it returns true and the stored door PIN becomes that
    string. *)
Lemma Storage_UpdatePIN_accepts_short :
  strlen (chars "12") <> 4 /\
  cstr (door_pin (g_cachedConfig booted)) = chars "1234" /\
  eval (Storage_UpdatePIN (chars "12")) booted = true /\
  cstr (door_pin (g_cachedConfig (exec (Storage_UpdatePIN (chars "12")) booted)))
    = chars "12".
Proof. vm_compute. repeat split. discriminate. Qed.

(** C4, amended. [Storage_UpdatePIN] rejects every string longer than 4
    characters: it returns false and changes nothing.  A string of another
    length than 4 is turned away by the caller [Security_SetPassword], which
    then leaves the cached configuration and the flash as they are. *)
Theorem Storage_UpdatePIN_rejects_long :
  (forall newPin w,
     4 < strlen newPin -> Storage_UpdatePIN newPin w = (false, w)) /\
  (forall newPin w,
     strlen newPin <> 4 ->
     let w' := exec (Security_SetPassword (Some newPin)) w in
     g_cachedConfig w' = g_cachedConfig w /\ flash w' = flash w).
Proof.
  split.
  - intros newPin w Hlen. unfold Storage_UpdatePIN.
    apply Z.ltb_lt in Hlen. rewrite Hlen. reflexivity.
  - intros newPin w Hlen. cbv zeta. unfold Security_SetPassword.
    apply Z.eqb_neq in Hlen. rewrite Hlen. split; reflexivity.
Qed.

Lemma Storage_UpdatePIN_rejects_long_witness :
  Storage_UpdatePIN (chars "12345") booted = (false, booted) /\
  g_cachedConfig (exec (Security_SetPassword (Some (chars "12"))) booted)
    = g_cachedConfig booted.
Proof.
  split.
  - apply (proj1 Storage_UpdatePIN_rejects_long). vm_compute. reflexivity.
  - apply (proj2 Storage_UpdatePIN_rejects_long (chars "12") booted).
    vm_compute. discriminate.
Defined.

(** C9 fails as stated: the empty string is not rejected by
    [Storage_UpdateAdminPass]; it returns true and the stored admin password
    becomes empty. *)
Lemma Storage_UpdateAdminPass_accepts_empty :
  strlen [] < 1 /\
  cstr (admin_password (g_cachedConfig booted)) = chars "123456" /\
  eval (Storage_UpdateAdminPass []) booted = true /\
  cstr (admin_password
          (g_cachedConfig (exec (Storage_UpdateAdminPass []) booted))) = [].
Proof. vm_compute. repeat split. Qed.

(** C9, amended. [Storage_UpdateAdminPass] rejects every string longer than
    9 characters: it returns false and changes nothing.  A string whose
    length is outside 1 to 9, the empty one included, is turned away by the
    caller [Security_SetAdminPassword], which then leaves the cached
    configuration and the flash as they are. *)
Theorem Storage_UpdateAdminPass_rejects_long :
  (forall newPass w,
     9 < strlen newPass -> Storage_UpdateAdminPass newPass w = (false, w)) /\
  (forall newPass w,
     strlen newPass < 1 \/ 9 < strlen newPass ->
     let w' := exec (Security_SetAdminPassword (Some newPass)) w in
     g_cachedConfig w' = g_cachedConfig w /\ flash w' = flash w).
Proof.
  split.
  - intros newPass w Hlen. unfold Storage_UpdateAdminPass.
    apply Z.ltb_lt in Hlen. rewrite Hlen. reflexivity.
  - intros newPass w Hlen. cbv zeta. unfold Security_SetAdminPassword.
    assert (H : (strlen newPass <? 1) || (9 <? strlen newPass) = true).
    { apply orb_true_iff. destruct Hlen as [H|H]; [left|right];
        apply Z.ltb_lt; exact H. }
    rewrite H. split; reflexivity.
Qed.

Lemma Storage_UpdateAdminPass_rejects_long_witness :
  Storage_UpdateAdminPass (chars "0123456789") booted = (false, booted) /\
  g_cachedConfig (exec (Security_SetAdminPassword (Some [])) booted)
    = g_cachedConfig booted.
Proof.
  split.
  - apply (proj1 Storage_UpdateAdminPass_rejects_long). vm_compute. reflexivity.
  - apply (proj2 Storage_UpdateAdminPass_rejects_long [] booted).
    left. vm_compute. reflexivity.
Defined.

(* ---------------------------------------------------------------------- *)
(** ** What the polling calls read and write *)
(* ---------------------------------------------------------------------- *)

Lemma base_same_inputs w1 w2 : same_inputs w1 w2 -> base w1 = base w2.
Proof. intros (H1 & H2 & H3 & H4). unfold base. congruence. Qed.

Lemma Keypad_CheckPassword_frame w :
  let w' := exec Keypad_CheckPassword w in
  g_systemTick w' = g_systemTick w /\ g_pirDetected w' = g_pirDetected w /\
  rf w' = rf w /\ chip w' = chip w /\ g_cachedConfig w' = g_cachedConfig w /\
  flash w' = flash w /\ sec w' = sec w.
Proof. cbv zeta. unfold Keypad_CheckPassword. fw_go; repeat split. Qed.

Lemma Keypad_CheckPassword_base w :
  eval Keypad_CheckPassword w = eval Keypad_CheckPassword (base w) /\
  kp (exec Keypad_CheckPassword w) = kp (exec Keypad_CheckPassword (base w)).
Proof. unfold Keypad_CheckPassword, base. fw_go; repeat split. Qed.

Lemma Check_Auth_frame w :
  let w' := exec Check_Auth w in
  g_systemTick w' = g_systemTick w /\ g_pirDetected w' = g_pirDetected w /\
  chip w' = chip w /\ g_cachedConfig w' = g_cachedConfig w /\
  flash w' = flash w /\ sec w' = sec w /\
  g_last_valid_result (rf w') = 0.
Proof.
  unfold exec. set (r := Check_Auth w).
  assert (E : r = Check_Auth w) by reflexivity. clearbody r.
  unfold Check_Auth, bind at 1 in E.
  pose proof (Keypad_CheckPassword_frame w) as F. cbv zeta in F. unfold exec in F.
  destruct (Keypad_CheckPassword w) as [k w1]. cbn [snd] in F.
  destruct F as (F1 & F2 & F3 & F4 & F5 & F6 & F7).
  revert E. fw_go; intros ->; fw_norm; repeat split; assumption.
Qed.

Lemma Check_Auth_base w : eval Check_Auth w = eval Check_Auth (base w).
Proof.
  unfold eval.
  assert (E1 : exists r1, r1 = Check_Auth w) by eauto.
  assert (E2 : exists r2, r2 = Check_Auth (base w)) by eauto.
  destruct E1 as [r1 E1], E2 as [r2 E2]. rewrite <- E1, <- E2.
  unfold Check_Auth, bind at 1 in E1. unfold Check_Auth, bind at 1 in E2.
  pose proof (Keypad_CheckPassword_frame w) as F.
  pose proof (Keypad_CheckPassword_frame (base w)) as F'.
  pose proof (Keypad_CheckPassword_base w) as B.
  cbv zeta in F, F'. unfold exec, eval in F, F', B.
  destruct (Keypad_CheckPassword w) as [k w1].
  destruct (Keypad_CheckPassword (base w)) as [k' w1'].
  cbn [fst snd base g_systemTick rf g_cachedConfig] in F, F', B.
  destruct F as (_ & _ & Fr & _ & Fc & _).
  destruct F' as (_ & _ & Fr' & _ & Fc' & _).
  destruct B as [<- _].
  revert E1 E2. autounfold with fw; fw_norm. rewrite ?Fr, ?Fr', ?Fc, ?Fc'.
  repeat (fw_case; fw_norm; rewrite ?Fr, ?Fr', ?Fc, ?Fc');
    intros -> ->; reflexivity.
Qed.

(** The verdict depends only on the tick, the keypad and reader variables
    and the cached configuration. *)
Lemma Check_Auth_inputs w1 w2 :
  same_inputs w1 w2 -> eval Check_Auth w1 = eval Check_Auth w2.
Proof.
  intros H. rewrite (Check_Auth_base w1), (Check_Auth_base w2).
  rewrite (base_same_inputs w1 w2 H). reflexivity.
Qed.

(* ---------------------------------------------------------------------- *)
(** ** The brute-force policy *)
(* ---------------------------------------------------------------------- *)

#[local] Hint Unfold Check_Brute_Force enter_disarmed : fw.

Ltac fw_consts :=
  cbn [Z.eqb Z.leb Z.ltb Z.compare Pos.compare Pos.compare_cont Pos.eqb
       AUTH_VALID AUTH_INVALID AUTH_NONE].

(** [Check_Brute_Force]: one more failed attempt; at the limit, lock. *)
Lemma Check_Brute_Force_effect w :
  let s := sec w in
  let s' := sec (exec Check_Brute_Force w) in
  failedAttempts s' = wrap8 (failedAttempts s + 1) /\
  (if BRUTE_FORCE_LIMIT <=? wrap8 (failedAttempts s + 1)
   then currentState s' = STATE_LOCKED /\ alarmVolume s' = MAX_VOLUME /\
        stateEntryTime s' = g_systemTick w
   else currentState s' = currentState s /\ alarmVolume s' = alarmVolume s).
Proof. cbv zeta. fw_go; repeat split. Qed.

(** Use the recorded outcome of a test the goal still branches on. *)
Ltac fw_known :=
  repeat match goal with
  | H : ?c = _ |- context [if ?c then _ else _] => rewrite H
  end.

Ltac fw_close :=
  fw_known; repeat split; try reflexivity; try discriminate; try congruence.

Lemma case_STATE_ARMED_effect w :
  currentState (sec w) = STATE_ARMED ->
  cycle_effect (eval Check_Auth w) (sec w) (sec (exec case_STATE_ARMED w)).
Proof.
  intros Hst. unfold eval, exec.
  assert (E1 : exists r1, r1 = Check_Auth w) by eauto.
  assert (E2 : exists r2, r2 = case_STATE_ARMED w) by eauto.
  destruct E1 as [r1 E1], E2 as [r2 E2]. rewrite <- E1, <- E2.
  unfold Check_Auth, bind at 1 in E1. unfold case_STATE_ARMED, bind at 1 in E2.
  pose proof (Keypad_CheckPassword_frame w) as F. cbv zeta in F. unfold exec in F.
  destruct (Keypad_CheckPassword w) as [k w1]. cbn [snd] in F.
  destruct F as (_ & _ & _ & _ & _ & _ & Fs).
  revert E1 E2. autounfold with fw; fw_norm; rewrite ?Fs.
  repeat (fw_case; fw_norm; rewrite ?Fs); intros -> ->;
    unfold cycle_effect; fw_norm; rewrite ?Fs, ?Hst; fw_consts; fw_close.
Qed.

Lemma Check_Auth_run W :
  exists w2,
    Check_Auth W = (eval Check_Auth (base W), w2) /\
    sec w2 = sec W /\ g_systemTick w2 = g_systemTick W.
Proof.
  pose proof (Check_Auth_frame W) as F. pose proof (Check_Auth_base W) as B.
  cbv zeta in F. unfold exec in F. unfold eval at 1 in B.
  destruct (Check_Auth W) as [v w2]. cbn [fst snd] in F, B.
  exists w2. rewrite B. intuition.
Qed.

(** Run the [Check_Auth] call the goal is stuck on; [v] is the verdict on the
    cycle's inputs. *)
Ltac auth_run v :=
  match goal with
  | |- context [Check_Auth ?W] =>
    let w2 := fresh "w2" in
    let E := fresh "E" in
    let Fs := fresh "Fs" in
    let Ft := fresh "Ft" in
    destruct (Check_Auth_run W) as (w2 & E & Fs & Ft);
    rewrite E; clear E;
    change (eval Check_Auth (base W)) with v;
    revert Fs Ft; fw_norm; intros Fs Ft; rewrite ?Fs, ?Ft; fw_norm
  end.

Lemma case_STATE_ENTRY_DELAY_effect w :
  currentState (sec w) = STATE_ENTRY_DELAY ->
  cycle_effect (eval Check_Auth w) (sec w) (sec (exec case_STATE_ENTRY_DELAY w)).
Proof.
  intros Hst. rewrite (Check_Auth_base w).
  set (v := eval Check_Auth (base w)).
  unfold exec, case_STATE_ENTRY_DELAY. autounfold with fw; fw_norm.
  repeat (fw_case; fw_norm); auth_run v; clearbody v;
    repeat (fw_case; fw_norm; rewrite ?Fs, ?Ft; fw_norm);
    unfold cycle_effect; fw_norm; rewrite ?Fs, ?Hst; fw_consts; fw_close.
Qed.

Lemma case_STATE_TRIGGERED_effect w :
  currentState (sec w) = STATE_TRIGGERED ->
  cycle_effect (eval Check_Auth w) (sec w) (sec (exec case_STATE_TRIGGERED w)).
Proof.
  intros Hst. rewrite (Check_Auth_base w).
  set (v := eval Check_Auth (base w)).
  unfold exec, case_STATE_TRIGGERED. autounfold with fw; fw_norm.
  repeat (fw_case; fw_norm); auth_run v; clearbody v;
    repeat (fw_case; fw_norm; rewrite ?Fs, ?Ft; fw_norm);
    unfold cycle_effect; fw_norm; rewrite ?Fs, ?Hst; fw_consts; fw_close.
Qed.

Lemma case_STATE_LOCKED_effect w :
  currentState (sec w) = STATE_LOCKED ->
  idle_effect (sec w) (sec (exec case_STATE_LOCKED w)).
Proof.
  intros Hst. unfold idle_effect, exec, case_STATE_LOCKED.
  fw_go; rewrite ?Hst; split; intros; try congruence; auto.
Qed.

Lemma case_STATE_EXIT_DELAY_effect w :
  currentState (sec w) = STATE_EXIT_DELAY ->
  idle_effect (sec w) (sec (exec case_STATE_EXIT_DELAY w)).
Proof.
  intros Hst. unfold idle_effect, exec, case_STATE_EXIT_DELAY.
  fw_go; rewrite ?Hst; split; intros; try congruence;
    repeat split; try discriminate; auto.
Qed.

Lemma case_STATE_DISARMED_effect w :
  currentState (sec w) = STATE_DISARMED ->
  idle_effect (sec w) (sec (exec case_STATE_DISARMED w)).
Proof.
  intros Hst. unfold idle_effect, exec, case_STATE_DISARMED.
  fw_go; rewrite ?Hst; split; intros; try congruence;
    repeat split; try discriminate; auto.
Qed.

Lemma Security_Update_guarded w :
  g_systemTick w < STARTUP_DELAY_MS -> Security_Update w = (tt, w).
Proof.
  intros H. apply Z.ltb_lt in H. unfold Security_Update, bind, GetTick, gets.
  rewrite H. reflexivity.
Qed.

Lemma Security_Update_dispatch w :
  STARTUP_DELAY_MS <= g_systemTick w ->
  Security_Update w =
    match currentState (sec w) with
    | STATE_ARMED => case_STATE_ARMED
    | STATE_ENTRY_DELAY => case_STATE_ENTRY_DELAY
    | STATE_TRIGGERED => case_STATE_TRIGGERED
    | STATE_LOCKED => case_STATE_LOCKED
    | STATE_EXIT_DELAY => case_STATE_EXIT_DELAY
    | STATE_DISARMED => case_STATE_DISARMED
    end w.
Proof.
  intros H. apply Z.ltb_ge in H. unfold Security_Update, bind, GetTick, gets.
  rewrite H. reflexivity.
Qed.

Lemma idle_effect_refl s : idle_effect s s.
Proof. unfold idle_effect. split; intros; auto. Qed.

Lemma Security_Update_effect w :
  match attempt w with
  | Some v => cycle_effect v (sec w) (sec (exec Security_Update w))
  | None => idle_effect (sec w) (sec (exec Security_Update w))
  end.
Proof.
  unfold attempt.
  destruct (STARTUP_DELAY_MS <=? g_systemTick w) eqn:G; cbn [andb]; zb.
  - unfold exec. rewrite (Security_Update_dispatch w G).
    destruct (currentState (sec w)) eqn:Hst; cbn [evaluating].
    + apply case_STATE_ARMED_effect, Hst.
    + apply case_STATE_ENTRY_DELAY_effect, Hst.
    + apply case_STATE_EXIT_DELAY_effect, Hst.
    + apply case_STATE_TRIGGERED_effect, Hst.
    + apply case_STATE_DISARMED_effect, Hst.
    + apply case_STATE_LOCKED_effect, Hst.
  - unfold exec. rewrite (Security_Update_guarded w) by lia. apply idle_effect_refl.
Qed.

(** *** Runs of the system *)

Lemma wrap8_small z : 0 <= z < 256 -> wrap8 z = z.
Proof. intros H. unfold wrap8. apply Z.mod_small. lia. Qed.

Lemma evaluating_not_locked s :
  evaluating (currentState s) = true -> currentState s <> STATE_LOCKED.
Proof. destruct (currentState s); cbn; congruence. Qed.

Lemma attempt_Some w v :
  attempt w = Some v ->
  currentState (sec w) <> STATE_LOCKED /\ v = eval Check_Auth w /\
  STARTUP_DELAY_MS <= g_systemTick w.
Proof.
  unfold attempt.
  destruct (STARTUP_DELAY_MS <=? g_systemTick w) eqn:G; cbn [andb];
    [|discriminate].
  destruct (evaluating (currentState (sec w))) eqn:E; [|discriminate].
  intros [= <-]. zb. auto using evaluating_not_locked.
Qed.

Lemma lock_inv_cycle w : lock_inv (sec w) -> lock_inv (sec (exec Security_Update w)).
Proof.
  intros Hinv. pose proof (Security_Update_effect w) as Heff.
  unfold lock_inv in *.
  destruct (attempt w) as [v|] eqn:Ha.
  - apply attempt_Some in Ha as (Hnl & _ & _).
    destruct Hinv as [[Hl _]|[_ Hfa]]; [contradiction|].
    unfold BRUTE_FORCE_LIMIT in *. unfold cycle_effect in Heff.
    destruct (v =? AUTH_VALID).
    + destruct Heff as [Hs Hf]. right. rewrite Hs, Hf. split; [discriminate|lia].
    + rewrite wrap8_small in Heff by lia.
      destruct (v =? AUTH_INVALID).
      * destruct Heff as [Hf Hs].
        unfold BRUTE_FORCE_LIMIT in Hs.
        destruct (3 <=? failedAttempts (sec w) + 1) eqn:E; zb.
        -- left. split; [tauto|lia].
        -- right. split; [tauto|lia].
      * destruct Heff as (Hf & Hs & _). right. split; [exact Hs|lia].
  - destruct Heff as [Hlocked Hother].
    destruct Hinv as [[Hl Hfa]|[Hnl Hfa]].
    + destruct (Hlocked Hl) as [[Hs Hf]|[Hs Hf]].
      * left. split; [exact Hs|congruence].
      * right. rewrite Hs, Hf. unfold BRUTE_FORCE_LIMIT. split; [discriminate|lia].
    + unfold BRUTE_FORCE_LIMIT in *. destruct (Hother Hnl) as (Hf & Hs & _). right. split; [exact Hs|lia].
Qed.

Lemma Storage_Init_sec w : sec (exec Storage_Init w) = sec w.
Proof.
  unfold exec, Storage_Init, Storage_LoadConfig.
  fw_go; reflexivity.
Qed.

Lemma Servo_Close_duty : Servo_Close = emit (O_ServoDuty SERVO_CLOSE_DUTY).
Proof. reflexivity. Qed.

(** [Security_Init]: the three one-shot inputs are consumed, the state is
    Armed and the lock is commanded closed. *)
Lemma Security_Init_effect w :
  let w' := exec Security_Init w in
  sec w' = set_stateEntryTime (g_systemTick w)
             (set_currentState STATE_ARMED (sec w)) /\
  g_pirDetected w' = false /\
  g_last_valid_result (rf w') = 0 /\
  g_pressed_key (kp w') = NUL /\
  trace w' = O_Uart "Security Manager Initialized. State: ARMED" []
               :: O_ServoDuty SERVO_CLOSE_DUTY :: trace w.
Proof.
  unfold exec. set (r := Security_Init w).
  assert (E : r = Security_Init w) by reflexivity. clearbody r.
  revert E. unfold Security_Init. rewrite Servo_Close_duty.
  fw_go; intros ->; fw_norm; repeat split; try assumption.
  all: apply Ascii.eqb_eq; assumption.
Qed.

Lemma main_startup_sec f c :
  currentState (sec (exec main_startup (reset_world f c))) = STATE_ARMED /\
  failedAttempts (sec (exec main_startup (reset_world f c))) = 0.
Proof.
  assert (E : exec main_startup (reset_world f c)
              = exec Security_Init (exec Storage_Init (reset_world f c))).
  { unfold exec, main_startup, bind.
    destruct (Storage_Init (reset_world f c)) as [[] w1]. reflexivity. }
  rewrite E.
  destruct (Security_Init_effect (exec Storage_Init (reset_world f c)))
    as (Hs & _).
  rewrite Hs, Storage_Init_sec. split; reflexivity.
Qed.

Lemma lock_inv_run l w : lock_inv (sec w) -> lock_inv (sec (run l w)).
Proof.
  revert w. induction l as [|a l IH]; intros w H; [exact H|].
  cbn. apply IH. destruct a; cbn; [exact H|apply lock_inv_cycle, H].
Qed.

Lemma reachable_lock_inv w : reachable w -> lock_inv (sec w).
Proof.
  intros (f & c & l & ->). apply lock_inv_run.
  destruct (main_startup_sec f c) as [Hs Hf]. right.
  rewrite Hs, Hf. unfold BRUTE_FORCE_LIMIT. split; [discriminate|lia].
Qed.

Lemma run_app l1 l2 w : run (l1 ++ l2) w = run l2 (run l1 w).
Proof. unfold run. apply fold_left_app. Qed.

(** From a state that is not Locked, a run without a valid attempt and with
    as many invalid attempts as the counter admits passes through Locked, at
    the invalid attempt that uses up the last one. *)
Lemma forced_lock l : forall w,
  lock_inv (sec w) -> currentState (sec w) <> STATE_LOCKED ->
  attempts AUTH_VALID l w = 0%nat ->
  (attempts_left (sec w) <= attempts AUTH_INVALID l w)%nat ->
  exists l1 l2,
    l = l1 ++ Cycle :: l2 /\
    attempt (run l1 w) = Some AUTH_INVALID /\
    currentState (sec (run (l1 ++ [Cycle]) w)) = STATE_LOCKED /\
    (attempts AUTH_INVALID l1 w < attempts_left (sec w))%nat.
Proof.
  unfold attempts_left, BRUTE_FORCE_LIMIT.
  induction l as [|a l IH]; intros w Hinv Hnl Hval Hinval.
  { destruct Hinv as [[Hl _]|[_ Hfa]]; [contradiction|].
    unfold BRUTE_FORCE_LIMIT in Hfa. cbn in Hinval. lia. }
  assert (Hfa : 0 <= failedAttempts (sec w) < 3).
  { destruct Hinv as [[Hl _]|[_ Hfa]]; [contradiction|exact Hfa]. }
  cbn [attempts] in Hval, Hinval.
  destruct a as [e|]; cbn [is_cycle andb] in Hval, Hinval.
  - (* the environment moves *)
    destruct (IH (act (Env e) w)) as (l1 & l2 & -> & Ha & Hs & Hn);
      try assumption.
    exists (Env e :: l1), l2. repeat split; try assumption.
  - (* a cycle *)
    pose proof (Security_Update_effect w) as Heff.
    pose proof (lock_inv_cycle w Hinv) as Hinv'.
    destruct (attempt w) as [v|] eqn:Ha.
    + unfold cycle_effect in Heff.
      destruct (decide (v = AUTH_VALID)) as [->|Hv1].
      { rewrite bool_decide_eq_true_2 in Hval by reflexivity. lia. }
      destruct (v =? AUTH_VALID) eqn:E1; zb; [contradiction|].
      rewrite wrap8_small in Heff by lia. unfold BRUTE_FORCE_LIMIT in Heff.
      destruct (decide (v = AUTH_INVALID)) as [->|Hv2].
      * rewrite Z.eqb_refl in Heff. destruct Heff as [Hf Hs].
        rewrite bool_decide_eq_true_2 in Hinval by reflexivity.
        rewrite bool_decide_eq_false_2 in Hval by congruence.
        destruct (3 <=? failedAttempts (sec w) + 1) eqn:E; zb.
        -- exists [], l. repeat split; [exact Ha|tauto|cbn; lia].
        -- destruct (IH (exec Security_Update w)) as (l1 & l2 & -> & Ha' & Hs' & Hn);
             try assumption; [tauto|cbn [act] in *; lia|].
           exists (Cycle :: l1), l2. repeat split; try assumption.
           cbn [attempts is_cycle andb].
           rewrite Ha, bool_decide_eq_true_2 by reflexivity.
           cbn [act] in *. lia.
      * destruct (v =? AUTH_INVALID) eqn:E2; zb; [contradiction|].
        destruct Heff as (Hf & Hs & _).
        rewrite bool_decide_eq_false_2 in Hinval by congruence.
        rewrite bool_decide_eq_false_2 in Hval by congruence.
        destruct (IH (exec Security_Update w)) as (l1 & l2 & -> & Ha' & Hs' & Hn);
          try assumption; [cbn [act] in *; rewrite Hf; lia|].
        exists (Cycle :: l1), l2. repeat split; try assumption.
        cbn [attempts is_cycle andb].
        rewrite Ha, bool_decide_eq_false_2 by congruence.
        cbn [act] in *. rewrite Hf in Hn. lia.
    + destruct Heff as [_ Hother]. destruct (Hother Hnl) as (Hf & Hs & _).
      rewrite bool_decide_eq_false_2 in Hinval by congruence.
      rewrite bool_decide_eq_false_2 in Hval by congruence.
      destruct (IH (exec Security_Update w)) as (l1 & l2 & -> & Ha' & Hs' & Hn);
        try assumption; [cbn [act] in *; rewrite Hf; lia|].
      exists (Cycle :: l1), l2. repeat split; try assumption.
      cbn [attempts is_cycle andb].
      rewrite Ha, bool_decide_eq_false_2 by congruence.
      cbn [act] in *. rewrite Hf in Hn. lia.
Qed.

Lemma booted_reachable : reachable booted.
Proof.
  exists flash_blank, chip_idle, []. unfold booted, run. cbn [fold_left].
  reflexivity.
Qed.

(** C1. In every reachable world the brute-force policy adds one to the
    failed-attempt counter and, once the counter has reached 3, sets the
    state to Locked and the alarm volume to 50; a cycle that acts on an
    invalid verdict does exactly that (the state is Locked afterwards exactly
    when the counter has reached 3); a cycle that acts on a valid verdict
    moves to Disarmed with the counter at zero, and no cycle enters Disarmed
    in another way; and a run from a reachable Armed world without a valid
    attempt and with three invalid attempts is Locked right after one of its
    first three invalid attempts. *)
Theorem brute_force_lockout :
  (forall w, reachable w ->
     let s := sec w in
     let s' := sec (exec Check_Brute_Force w) in
     failedAttempts s' = failedAttempts s + 1 /\
     (BRUTE_FORCE_LIMIT <= failedAttempts s' ->
      currentState s' = STATE_LOCKED /\ alarmVolume s' = 50)) /\
  (forall w, reachable w -> attempt w = Some AUTH_INVALID ->
     let s := sec w in
     let s' := sec (exec Security_Update w) in
     failedAttempts s' = failedAttempts s + 1 /\
     (failedAttempts s' = 3 <-> currentState s' = STATE_LOCKED) /\
     (currentState s' = STATE_LOCKED -> alarmVolume s' = 50)) /\
  (forall w, attempt w = Some AUTH_VALID ->
     let s' := sec (exec Security_Update w) in
     currentState s' = STATE_DISARMED /\ failedAttempts s' = 0) /\
  (forall w,
     let s' := sec (exec Security_Update w) in
     currentState (sec w) <> STATE_DISARMED ->
     currentState s' = STATE_DISARMED ->
     attempt w = Some AUTH_VALID /\ failedAttempts s' = 0) /\
  (forall w l, reachable w -> currentState (sec w) = STATE_ARMED ->
     attempts AUTH_VALID l w = 0%nat ->
     (3 <= attempts AUTH_INVALID l w)%nat ->
     exists l1 l2,
       l = l1 ++ Cycle :: l2 /\
       attempt (run l1 w) = Some AUTH_INVALID /\
       (attempts AUTH_INVALID l1 w <= 2)%nat /\
       currentState (sec (run (l1 ++ [Cycle]) w)) = STATE_LOCKED).
Proof.
  split; [|split; [|split; [|split]]].
  - intros w Hr. cbv zeta.
    apply reachable_lock_inv in Hr. unfold lock_inv, BRUTE_FORCE_LIMIT in Hr.
    destruct (Check_Brute_Force_effect w) as [Hf Hs]. cbv zeta in Hs.
    rewrite wrap8_small in Hf, Hs by lia. split; [exact Hf|].
    rewrite Hf. intros Hlim. apply Z.leb_le in Hlim. rewrite Hlim in Hs.
    destruct Hs as (H1 & H2 & _). split; [exact H1|exact H2].
  - intros w Hr Ha. cbv zeta.
    apply reachable_lock_inv in Hr. unfold lock_inv, BRUTE_FORCE_LIMIT in Hr.
    pose proof (Security_Update_effect w) as Heff. rewrite Ha in Heff.
    apply attempt_Some in Ha as (Hnl & _ & _).
    destruct Hr as [[Hl _]|[_ Hfa]]; [contradiction|].
    unfold cycle_effect in Heff.
    change (AUTH_INVALID =? AUTH_VALID) with false in Heff.
    change (AUTH_INVALID =? AUTH_INVALID) with true in Heff. cbv iota in Heff.
    rewrite wrap8_small in Heff by lia. destruct Heff as [Hf Hs].
    split; [exact Hf|]. rewrite Hf. unfold BRUTE_FORCE_LIMIT in Hs.
    destruct (3 <=? failedAttempts (sec w) + 1) eqn:E; zb.
    + destruct Hs as [H1 H2]. repeat split; auto. lia.
    + destruct Hs as [H1 H2]. repeat split; intros; try lia; contradiction.
  - intros w Ha. cbv zeta.
    pose proof (Security_Update_effect w) as Heff. rewrite Ha in Heff.
    exact Heff.
  - intros w s' Hnd Hd. subst s'.
    pose proof (Security_Update_effect w) as Heff.
    destruct (attempt w) as [v|] eqn:Ha.
    + unfold cycle_effect in Heff.
      destruct (v =? AUTH_VALID) eqn:E1; zb.
      * subst v. split; [reflexivity|tauto].
      * destruct (v =? AUTH_INVALID).
        -- destruct Heff as [_ Hs].
           destruct (BRUTE_FORCE_LIMIT <=? _); destruct Hs as [H1 H2];
             [rewrite H1 in Hd; discriminate|contradiction].
        -- destruct Heff as (_ & _ & H). contradiction.
    + destruct Heff as [Hlocked Hother].
      destruct (decide (currentState (sec w) = STATE_LOCKED)) as [Hl|Hnl].
      * destruct (Hlocked Hl) as [[Hs _]|[Hs _]]; rewrite Hs in Hd; discriminate.
      * destruct (Hother Hnl) as (_ & _ & H). apply H in Hnd. contradiction.
  - intros w l Hr Hst Hval Hinval.
    apply reachable_lock_inv in Hr as Hinv.
    assert (Hnl : currentState (sec w) <> STATE_LOCKED) by (rewrite Hst; discriminate).
    assert (Hleft : (attempts_left (sec w) <= 3)%nat).
    { unfold attempts_left, lock_inv, BRUTE_FORCE_LIMIT in *.
      destruct Hinv as [[Hl _]|[_ Hfa]]; [contradiction|lia]. }
    destruct (forced_lock l w Hinv Hnl Hval ltac:(lia))
      as (l1 & l2 & Hl & Ha & Hs & Hn).
    exists l1, l2. repeat split; try assumption. lia.
Qed.

(** Three unlisted cards after start-up: the run is Locked after the third
    cycle, and it is not Locked after the second. *)
Lemma brute_force_lockout_witness :
  (exists l1 l2,
     three_bad_cards = l1 ++ Cycle :: l2 /\
     attempt (run l1 booted) = Some AUTH_INVALID /\
     (attempts AUTH_INVALID l1 booted <= 2)%nat /\
     currentState (sec (run (l1 ++ [Cycle]) booted)) = STATE_LOCKED) /\
  currentState (sec (run three_bad_cards booted)) = STATE_LOCKED /\
  alarmVolume (sec (run three_bad_cards booted)) = 50 /\
  currentState (sec (run (take 4 three_bad_cards) booted)) = STATE_ARMED.
Proof.
  split.
  - destruct brute_force_lockout as (_ & _ & _ & _ & H).
    apply (H booted three_bad_cards).
    + exact booted_reachable.
    + reflexivity.
    + vm_compute. reflexivity.
    + vm_compute. lia.
  - vm_compute. repeat split.
Defined.

(* ---------------------------------------------------------------------- *)
(** ** The lockout *)
(* ---------------------------------------------------------------------- *)

(** The Locked case: both one-shot inputs are consumed, the entry buffer and
    the counter are not fed, nothing is reported. *)
Lemma case_STATE_LOCKED_drains w :
  let w' := exec case_STATE_LOCKED w in
  let expired :=
    LOCKOUT_TIME_MS <=? wrap32 (g_systemTick w - stateEntryTime (sec w)) in
  g_last_valid_result (rf w') = 0 /\
  g_pressed_key (kp w') = NUL /\
  kp_buffer (kp w') = kp_buffer (kp w) /\
  kp_index (kp w') = kp_index (kp w) /\
  g_cachedConfig w' = g_cachedConfig w /\
  (exists new, trace w' = new ++ trace w /\ existsb access_output new = false) /\
  currentState (sec w') =
    (if expired then STATE_TRIGGERED else currentState (sec w)) /\
  failedAttempts (sec w') = (if expired then 0 else failedAttempts (sec w)) /\
  stateEntryTime (sec w') = stateEntryTime (sec w).
Proof.
  unfold exec. set (r := case_STATE_LOCKED w).
  assert (E : r = case_STATE_LOCKED w) by reflexivity. clearbody r.
  revert E. unfold case_STATE_LOCKED. cbv zeta.
  fw_go; intros ->; fw_norm; fw_known;
    repeat match goal with
    | |- _ /\ _ => split
    | |- _ = _ => first [reflexivity | apply Ascii.eqb_eq; assumption]
    | |- exists new, ?l = new ++ ?t /\ _ =>
        first [ exists []; split; reflexivity
              | eexists [_]; split; reflexivity
              | eexists [_; _]; split; reflexivity
              | eexists [_; _; _]; split; reflexivity ]
    end.
Qed.

(** What the Locked case does.  While the state is Locked, no cycle
    evaluates a credential: the entry buffer, its index and the cached
    configuration stay as they are, no access line is written, the recorded
    entry time is kept, and the state after the cycle is Locked or
    Triggered.  A cycle that reaches the case (the start-up guard lets it
    through) consumes the card-scan flag and the pending key, and, once
    10000 ms have passed since the state was entered, sets the state to
    Triggered and the counter to zero; before that the state stays Locked
    and the counter is kept. *)
Theorem locked_cycle_drains w :
  currentState (sec w) = STATE_LOCKED ->
  let w' := exec Security_Update w in
  let expired :=
    LOCKOUT_TIME_MS <=? wrap32 (g_systemTick w - stateEntryTime (sec w)) in
  (kp_buffer (kp w') = kp_buffer (kp w) /\
   kp_index (kp w') = kp_index (kp w) /\
   g_cachedConfig w' = g_cachedConfig w /\
   (exists new, trace w' = new ++ trace w /\
                existsb access_output new = false) /\
   stateEntryTime (sec w') = stateEntryTime (sec w) /\
   (currentState (sec w') = STATE_LOCKED \/
    currentState (sec w') = STATE_TRIGGERED)) /\
  (STARTUP_DELAY_MS <= g_systemTick w ->
   g_last_valid_result (rf w') = 0 /\
   g_pressed_key (kp w') = NUL /\
   (expired = true ->
    currentState (sec w') = STATE_TRIGGERED /\ failedAttempts (sec w') = 0) /\
   (expired = false ->
    currentState (sec w') = STATE_LOCKED /\
    failedAttempts (sec w') = failedAttempts (sec w))).
Proof.
  intros Hst. cbv zeta.
  pose proof (case_STATE_LOCKED_drains w) as H. cbv zeta in H.
  destruct H as (H1 & H2 & H3 & H4 & H5 & H6 & H7 & H8 & H9).
  destruct (Z_lt_le_dec (g_systemTick w) STARTUP_DELAY_MS) as [G|G].
  - unfold exec. rewrite (Security_Update_guarded w G). cbn [snd].
    split; [|lia].
    repeat split; auto. exists []. split; reflexivity.
  - unfold exec. rewrite (Security_Update_dispatch w G), Hst.
    fold (exec case_STATE_LOCKED w).
    split.
    + repeat split; auto. rewrite H7, Hst.
      destruct (LOCKOUT_TIME_MS <=? _); auto.
    + intros _. split; [exact H1|]. split; [exact H2|].
      split; intros He; rewrite He in H7, H8; rewrite ?Hst in H7; auto.
Qed.

(* ---------------------------------------------------------------------- *)
(** ** Initialisation *)
(* ---------------------------------------------------------------------- *)

(** C10. At reset, and still after [Storage_Init], the state variable holds
    Triggered, not Armed.  After [Security_Init] the state is Armed, the last
    actuator command is the servo's close duty (followed only by the UART
    line), and the motion flag, the card-scan flag and the pending key are
    all cleared. *)
Theorem Security_Init_arms :
  (forall f c,
     currentState (sec (reset_world f c)) = STATE_TRIGGERED /\
     currentState (sec (exec Storage_Init (reset_world f c))) = STATE_TRIGGERED) /\
  (forall w,
     let w' := exec Security_Init w in
     currentState (sec w') = STATE_ARMED /\
     trace w' = O_Uart "Security Manager Initialized. State: ARMED" []
                  :: O_ServoDuty SERVO_CLOSE_DUTY :: trace w /\
     g_pirDetected w' = false /\
     g_last_valid_result (rf w') = 0 /\
     g_pressed_key (kp w') = NUL).
Proof.
  split.
  - intros f c. rewrite Storage_Init_sec. split; reflexivity.
  - intros w. cbv zeta.
    destruct (Security_Init_effect w) as (Hs & Hp & Hr & Hk & Ht).
    rewrite Hs. repeat split; assumption.
Qed.

(* ---------------------------------------------------------------------- *)
(** ** PIN entry *)
(* ---------------------------------------------------------------------- *)

Lemma entry_key_keys c :
  existsb (Ascii.eqb c) (concat key_map) && negb (Ascii.eqb c "#") = true ->
  entry_key c.
Proof.
  intros H. apply andb_true_iff in H as [Hin Hne]. split.
  - apply existsb_exists in Hin as (x & Hx & E).
    apply Ascii.eqb_eq in E. subst x. exact Hx.
  - apply negb_true_iff, Ascii.eqb_neq in Hne. exact Hne.
Qed.

Lemma entry_key_codes c :
  entry_key c -> Ascii.eqb c NUL = false /\ Ascii.eqb c "#" = false.
Proof.
  intros [Hin Hne]. split.
  - cbn in Hin. intuition (subst; reflexivity).
  - apply Ascii.eqb_neq. exact Hne.
Qed.

Lemma keystroke_entry k t w :
  Ascii.eqb k NUL = false -> Ascii.eqb k "#" = false ->
  0 <= kp_index (kp w) < 4 ->
  kp_index (kp w) = 0 \/ wrap32 (t - last_key_time_kp (kp w)) < TIMEOUT_MS ->
  let n := kp_index (kp w) in
  let buf := <[Z.to_nat n := k]> (kp_buffer (kp w)) in
  let w' := exec (keystroke k t) w in
  g_cachedConfig w' = g_cachedConfig w /\
  last_key_time_kp (kp w') = t /\
  (n < 3 ->
   eval (keystroke k t) w = 0 /\
   kp_index (kp w') = n + 1 /\ kp_buffer (kp w') = buf) /\
  (n = 3 ->
   eval (keystroke k t) w =
     (if streq (<[4%nat := NUL]> buf) (door_pin (g_cachedConfig w))
      then 1 else -1) /\
   kp_index (kp w') = 0).
Proof.
  intros Hk0 Hk1 Hn Hpace. cbv zeta. unfold exec, eval.
  set (r := keystroke k t w).
  assert (E : r = keystroke k t w) by reflexivity. clearbody r.
  revert E. unfold keystroke, Keypad_latch, Keypad_CheckPassword.
  autounfold with fw; fw_norm. rewrite ?Hk0, ?Hk1; cbn [negb].
  change (Z.to_nat PASS_LEN) with 4%nat.
  repeat (fw_case; fw_norm; rewrite ?Hk0, ?Hk1; cbn [negb];
          rewrite ?(wrap8_small (kp_index (kp w) + 1)) by lia; fw_norm);
    intros ->; fw_norm; unfold PASS_LEN, TIMEOUT_MS in *; zb;
    try lia; repeat split; intros; try lia; try reflexivity.
Qed.

Lemma submit_cons k t rest w :
  eval (submit ((k, t) :: rest)) w
    = eval (keystroke k t) w :: eval (submit rest) (exec (keystroke k t) w).
Proof.
  unfold eval, exec. cbn [submit]. unfold bind, ret.
  destruct (keystroke k t w) as [r w1]. cbn [fst snd].
  destruct (submit rest w1) as [rs w2]. reflexivity.
Qed.

Lemma Storage_UpdatePIN_effect newPin w :
  strlen newPin <= 4 ->
  let w' := exec (Storage_UpdatePIN newPin) w in
  door_pin (g_cachedConfig w')
    = <[4%nat := NUL]> (strncpy (door_pin (g_cachedConfig w)) newPin 4) /\
  kp w' = kp w.
Proof.
  intros Hlen. cbv zeta. unfold exec.
  set (r := Storage_UpdatePIN newPin w).
  assert (E : r = Storage_UpdatePIN newPin w) by reflexivity. clearbody r.
  revert E. unfold Storage_UpdatePIN.
  destruct (4 <? strlen newPin) eqn:E4; zb; [lia|].
  fw_go; intros ->; fw_norm; split; reflexivity.
Qed.

Lemma cstr_entry_keys (s : list ascii) rest :
  Forall entry_key s -> cstr (s ++ NUL :: rest) = s /\ cstr s = s.
Proof.
  induction 1 as [|c s Hc Hs [IH1 IH2]]; [split; reflexivity|].
  destruct (entry_key_codes c Hc) as [H0 _].
  cbn. rewrite H0, IH1, IH2. split; reflexivity.
Qed.

(** The abort key: the poll answers 2 and the entry starts over. *)
Lemma keystroke_abort t w :
  eval (keystroke "#" t) w = 2 /\ kp_index (kp (exec (keystroke "#" t) w)) = 0.
Proof.
  unfold exec, eval. set (r := keystroke "#" t w).
  assert (E : r = keystroke "#" t w) by reflexivity. clearbody r.
  revert E. unfold keystroke, Keypad_latch, Keypad_CheckPassword.
  autounfold with fw; fw_norm.
  repeat (fw_case; fw_norm); intros ->; split; reflexivity.
Qed.

(** Four entry keys typed at a pace into an empty entry buffer: three polls
    answer 0 and the fourth compares the keys with the stored PIN. *)
Lemma submit_four (q : list ascii) (ts : list Z) w :
  length q = 4%nat -> Forall entry_key q -> length ts = 4%nat -> paced ts ->
  kp_index (kp w) = 0 -> length (kp_buffer (kp w)) = 5%nat ->
  eval (submit (zip q ts)) w
    = [0; 0; 0; if streq (q ++ [NUL]) (door_pin (g_cachedConfig w))
                then 1 else -1].
Proof.
  intros Hq Hkeys Hts Hpace Hidx Hbuf.
  destruct q as [|q0 [|q1 [|q2 [|q3 [|]]]]]; try discriminate.
  destruct ts as [|t0 [|t1 [|t2 [|t3 [|]]]]]; try discriminate.
  destruct (kp_buffer (kp w)) as [|b0 [|b1 [|b2 [|b3 [|b4 [|]]]]]] eqn:Eb;
    try discriminate.
  inversion Hkeys as [|? ? K0 Hk1]; subst.
  inversion Hk1 as [|? ? K1 Hk2]; subst.
  inversion Hk2 as [|? ? K2 Hk3]; subst.
  inversion Hk3 as [|? ? K3 _]; subst.
  apply entry_key_codes in K0 as [K0 K0'], K1 as [K1 K1'],
    K2 as [K2 K2'], K3 as [K3 K3'].
  cbn [paced] in Hpace. destruct Hpace as (P1 & P2 & P3 & _).
  cbn [zip zip_with]. rewrite !submit_cons.
  (* first key *)
  destruct (keystroke_entry q0 t0 w K0 K0' ltac:(lia) ltac:(auto))
    as (C1 & L1 & S1 & _). cbv zeta in S1.
  destruct (S1 ltac:(lia)) as (R1 & I1 & B1). rewrite Hidx in I1.
  set (w1 := exec (keystroke q0 t0) w) in *.
  (* second key *)
  destruct (keystroke_entry q1 t1 w1 K1 K1' ltac:(lia)
              ltac:(right; rewrite L1; exact P1))
    as (C2 & L2 & S2 & _). cbv zeta in S2.
  destruct (S2 ltac:(lia)) as (R2 & I2 & B2). rewrite I1 in I2.
  set (w2 := exec (keystroke q1 t1) w1) in *.
  (* third key *)
  destruct (keystroke_entry q2 t2 w2 K2 K2' ltac:(lia)
              ltac:(right; rewrite L2; exact P2))
    as (C3 & L3 & S3 & _). cbv zeta in S3.
  destruct (S3 ltac:(lia)) as (R3 & I3 & B3). rewrite I2 in I3.
  set (w3 := exec (keystroke q2 t2) w2) in *.
  (* fourth key *)
  destruct (keystroke_entry q3 t3 w3 K3 K3' ltac:(lia)
              ltac:(right; rewrite L3; exact P3))
    as (C4 & _ & _ & S4). cbv zeta in S4.
  destruct (S4 ltac:(lia)) as (R4 & _).
  rewrite R1, R2, R3, R4. cbn [submit eval ret fst].
  rewrite C3, C2, C1, I3, B3, I2, B2, I1, B1, Hidx, Eb.
  repeat f_equal.
Qed.

(** C3 fails as stated: "12#4" is a 4-character string over the keypad
    charset, yet after [Storage_UpdatePIN "12#4"] typing 1, 2, #, 4 answers
    0, 0, 2 (abort), 0 and never the match result; and typing 1, #, 3, 4
    against the PIN "1234" does not answer the mismatch result either. *)
Lemma pin_with_abort_key_never_matches :
  Forall (fun c => In c (concat key_map)) (chars "12#4") /\
  eval (submit (zip (chars "12#4") [3000; 3100; 3200; 3300]))
       (exec (Storage_UpdatePIN (chars "12#4")) booted) = [0; 0; 2; 0] /\
  eval (submit (zip (chars "1#34") [3000; 3100; 3200; 3300]))
       (exec (Storage_UpdatePIN (chars "1234")) booted) = [0; 2; 0; 0].
Proof.
  split; [|split; vm_compute; reflexivity].
  repeat constructor; cbn; tauto.
Qed.

(** C3, amended. For every PIN [p] of four keys other than the abort key
    '#' (so over 0-9, A-D, '*'), after [Storage_UpdatePIN p] four such keys
    [q], typed at a pace (successive polls less than 5000 ms apart) into an
    empty entry buffer, answer 0, 0, 0 and then 1 when [q] is [p] and -1 when
    it is not.  The '#' key is never stored: its poll answers 2 and empties
    the entry buffer. *)
Theorem pin_roundtrip (p q : list ascii) (ts : list Z) w :
  length p = 4%nat -> Forall entry_key p ->
  length q = 4%nat -> Forall entry_key q ->
  length ts = 4%nat -> paced ts ->
  kp_index (kp w) = 0 -> length (kp_buffer (kp w)) = 5%nat ->
  length (door_pin (g_cachedConfig w)) = 5%nat ->
  eval (submit (zip q ts)) (exec (Storage_UpdatePIN p) w)
    = [0; 0; 0; if decide (q = p) then 1 else -1] /\
  (forall t w0,
     eval (keystroke "#" t) w0 = 2 /\
     kp_index (kp (exec (keystroke "#" t) w0)) = 0).
Proof.
  intros Hp Hpk Hq Hqk Hts Hpace Hidx Hbuf Hpin.
  split; [|exact keystroke_abort].
  destruct (cstr_entry_keys p [] Hpk) as [_ Hcp].
  destruct (Storage_UpdatePIN_effect p w) as [Hdoor Hkp].
  { unfold strlen. rewrite Hcp, Hp. lia. }
  rewrite submit_four; try assumption; try (rewrite Hkp; assumption).
  repeat f_equal. rewrite Hdoor. unfold streq, strncpy. rewrite Hcp.
  destruct (cstr_entry_keys q [] Hqk) as [Hcq _]. rewrite Hcq.
  assert (Hstored :
    cstr (<[4%nat:=NUL]>
            (take 4 p ++ replicate (4 - length (take 4 p)) NUL
               ++ drop 4 (door_pin (g_cachedConfig w)))) = p).
  { destruct p as [|p0 [|p1 [|p2 [|p3 [|]]]]]; try discriminate.
    destruct (door_pin (g_cachedConfig w)) as [|o0 [|o1 [|o2 [|o3 [|o4 [|]]]]]];
      try discriminate.
    cbn [take firstn length Nat.sub replicate drop skipn app insert list_insert].
    apply (cstr_entry_keys [p0; p1; p2; p3] [] Hpk). }
  rewrite Hstored.
  destruct (decide (q = p)) as [->|Hne].
  - rewrite bool_decide_eq_true_2; reflexivity.
  - rewrite bool_decide_eq_false_2; [reflexivity|exact Hne].
Qed.

(** On the booted world: the PIN "A1*7" is matched by A, 1, *, 7. *)
Lemma pin_roundtrip_witness :
  eval (submit (zip (chars "A1*7") [3000; 3100; 3200; 3300]))
       (exec (Storage_UpdatePIN (chars "A1*7")) booted) = [0; 0; 0; 1].
Proof.
  assert (Hk : Forall entry_key (chars "A1*7")).
  { repeat (apply List.Forall_cons; [apply entry_key_keys; reflexivity|]).
    apply List.Forall_nil. }
  assert (Hpace : paced [3000; 3100; 3200; 3300]).
  { cbn. unfold wrap32, TIMEOUT_MS. repeat split; reflexivity. }
  exact (proj1 (pin_roundtrip (chars "A1*7") (chars "A1*7")
                  [3000; 3100; 3200; 3300] booted
                  eq_refl Hk eq_refl Hk eq_refl Hpace
                  ltac:(vm_compute; reflexivity)
                  ltac:(vm_compute; reflexivity)
                  ltac:(vm_compute; reflexivity))).
Defined.

(* ---------------------------------------------------------------------- *)
(** ** The card reader's debounce *)
(* ---------------------------------------------------------------------- *)

(** C5 on the code: a card held in the field from reset on.  Its identifier
    is latched with one event within 300 ms; 650 ms after reset the latched
    identifier has been cleared although the card never left; by 705 ms a
    second event has been raised, and by 2000 ms a fourth. *)
Theorem held_card_raises_again :
  let w0 := reset_world flash_blank chip_idle in
  eval (held_card 300 card_DEADBEEF) w0 = 1 /\
  g_last_uid (rf (exec (held_card 300 card_DEADBEEF) w0))
    = card_DEADBEEF ++ [bcc card_DEADBEEF] /\
  g_last_uid (rf (exec (held_card 650 card_DEADBEEF) w0)) = [0; 0; 0; 0; 0] /\
  eval (held_card 705 card_DEADBEEF) w0 = 2 /\
  eval (held_card 2000 card_DEADBEEF) w0 = 4.
Proof. vm_compute. repeat split. Qed.

(* ---------------------------------------------------------------------- *)
(** ** The start-up guard after the tick counter has wrapped *)
(* ---------------------------------------------------------------------- *)

Lemma RFID_Tick_quiet uid0 w :
  quiet w ->
  let w' := exec (RFID_Tick uid0) w in
  quiet w' /\
  g_systemTick w' = g_systemTick w /\ g_pirDetected w' = g_pirDetected w /\
  kp w' = kp w /\ g_cachedConfig w' = g_cachedConfig w /\ sec w' = sec w.
Proof.
  intros [Hirq Hres]. unfold quiet, exec. set (r := RFID_Tick uid0 w).
  assert (E : r = RFID_Tick uid0 w) by reflexivity. clearbody r.
  revert E. unfold RFID_Tick, Start_Transceive.
  autounfold with fw; fw_norm.
  destruct (g_rfidState (rf w)); fw_norm; rewrite ?Hirq;
    repeat (fw_case; fw_norm; rewrite ?Hirq);
    intros ->; fw_norm; repeat split; assumption.
Qed.

Create HintDb fw_cases discriminated.

#[local] Hint Unfold
  Keypad_CheckPassword Check_Auth
  case_STATE_ARMED case_STATE_ENTRY_DELAY case_STATE_TRIGGERED
  case_STATE_LOCKED case_STATE_EXIT_DELAY case_STATE_DISARMED : fw_cases.

Lemma Security_Update_core w :
  quiet w ->
  quiet (exec Security_Update w) /\
  core (exec Security_Update w) = core (exec Security_Update (canon (core w))).
Proof.
  intros [Hirq Hres]. unfold quiet, core, exec.
  set (r := Security_Update w).
  assert (E : r = Security_Update w) by reflexivity. clearbody r.
  set (r' := Security_Update (canon _)).
  assert (E' : r' = Security_Update
                      (canon (g_systemTick w, g_pirDetected w, kp w,
                              g_cachedConfig w, sec w))) by reflexivity.
  clearbody r'. revert E E'.
  unfold Security_Update, canon. autounfold with fw; fw_norm.
  fw_case; fw_norm; [intros -> ->; fw_norm; auto|].
  destruct (currentState (sec w)) eqn:Hst;
    autounfold with fw_cases; autounfold with fw; fw_norm; rewrite ?Hres;
    repeat (fw_case; fw_norm; rewrite ?Hres);
    intros -> ->; fw_norm; repeat split; auto; congruence.
Qed.

Lemma ms_steps key w :
  exec (ms key) w
    = exec Security_Update (exec (RFID_Tick (replicate 5 0)) (ms_pre key w)).
Proof.
  unfold exec, ms, main_loop_body, ms_pre, bind, PIT_IRQHandler, modify.
  destruct key as [k|]; cbn [fst snd Keypad_latch setK modify ret];
    unfold Keypad_latch, setK, modify, ret;
    destruct (RFID_Tick _ _) as [[] w2]; reflexivity.
Qed.

Lemma ms_core key w :
  quiet w ->
  quiet (exec (ms key) w) /\
  core (exec (ms key) w) = core (exec (ms key) (canon (core w))).
Proof.
  intros Hq. rewrite !ms_steps.
  assert (Hq1 : quiet (ms_pre key w)) by (destruct key; exact Hq).
  assert (Hq1' : quiet (ms_pre key (canon (core w))))
    by (destruct key; split; reflexivity).
  assert (Hc1 : core (ms_pre key (canon (core w))) = core (ms_pre key w))
    by (destruct key; reflexivity).
  destruct (RFID_Tick_quiet (replicate 5 0) _ Hq1)
    as (Hq2 & T1 & T2 & T3 & T4 & T5).
  destruct (RFID_Tick_quiet (replicate 5 0) _ Hq1')
    as (Hq2' & T1' & T2' & T3' & T4' & T5').
  set (w2 := exec (RFID_Tick (replicate 5 0)) (ms_pre key w)) in *.
  set (w2' := exec (RFID_Tick (replicate 5 0)) (ms_pre key (canon (core w)))) in *.
  assert (Hc2 : core w2' = core w2).
  { unfold core in *. rewrite T1, T2, T3, T4, T5, T1', T2', T3', T4', T5'.
    exact Hc1. }
  destruct (Security_Update_core w2 Hq2) as [Hq3 Hc3].
  destruct (Security_Update_core w2' Hq2') as [_ Hc3'].
  split; [exact Hq3|]. rewrite Hc3, Hc3', Hc2. reflexivity.
Qed.

Lemma ms_seq_cons key rest w :
  exec (ms_seq (key :: rest)) w = exec (ms_seq rest) (exec (ms key) w).
Proof.
  unfold exec. cbn [ms_seq]. unfold bind.
  destruct (ms key w) as [[] w1]. reflexivity.
Qed.

Lemma core_canon c : core (canon c) = c.
Proof. destruct c as [[[[t p] k] cfg] s]. reflexivity. Qed.

Lemma quiet_canon c : quiet (canon c).
Proof. destruct c as [[[[t p] k] cfg] s]. split; reflexivity. Qed.

(** A quiet world's run of milliseconds is decided by its core. *)
Lemma ms_seq_core keys : forall w,
  quiet w ->
  quiet (exec (ms_seq keys) w) /\
  core (exec (ms_seq keys) w) = core (exec (ms_seq keys) (canon (core w))).
Proof.
  induction keys as [|key rest IH]; intros w Hq.
  - split; [exact Hq|].
    change (core w = core (canon (core w))). rewrite core_canon. reflexivity.
  - rewrite !ms_seq_cons.
    destruct (ms_core key w Hq) as [Hq1 Hc1].
    destruct (ms_core key (canon (core w)) (quiet_canon _)) as [Hq1' _].
    destruct (IH _ Hq1) as [Hq2 Hc2].
    destruct (IH _ Hq1') as [_ Hc2'].
    split; [exact Hq2|]. rewrite Hc2, Hc2', Hc1. reflexivity.
Qed.

Lemma booted_quiet : quiet booted.
Proof. split; vm_compute; reflexivity. Qed.

Lemma booted_rest : core booted = rest_core 0.
Proof. vm_compute. reflexivity. Qed.

(** At rest, a cycle changes nothing. *)
Lemma Security_Update_rest t :
  core (exec Security_Update (canon (rest_core t))) = rest_core t.
Proof.
  unfold rest_core, booted_core, canon, core, exec.
  set (r := Security_Update _).
  match goal with
  | r := ?m |- _ => assert (E : r = m) by reflexivity
  end.
  clearbody r. revert E.
  unfold Security_Update. autounfold with fw; fw_norm.
  fw_case; fw_norm; [intros ->; reflexivity|].
  autounfold with fw_cases; autounfold with fw; fw_norm.
  repeat (fw_case; fw_norm); intros ->; reflexivity.
Qed.

(** At rest, a millisecond only advances the tick counter. *)
Lemma ms_rest t w :
  quiet w -> core w = rest_core t ->
  quiet (exec (ms None) w) /\
  core (exec (ms None) w) = rest_core (wrap32 (t + 1)).
Proof.
  intros Hq Hc. rewrite ms_steps.
  assert (Hq1 : quiet (ms_pre None w)) by exact Hq.
  destruct (RFID_Tick_quiet (replicate 5 0) _ Hq1)
    as (Hq2 & T1 & T2 & T3 & T4 & T5).
  set (w2 := exec (RFID_Tick (replicate 5 0)) (ms_pre None w)) in *.
  assert (Hc2 : core w2 = rest_core (wrap32 (t + 1))).
  { unfold core in *. rewrite T1, T2, T3, T4, T5.
    cbn [ms_pre g_systemTick g_pirDetected kp g_cachedConfig sec upd_tick].
    unfold rest_core, booted_core in *. congruence. }
  destruct (Security_Update_core w2 Hq2) as [Hq3 Hc3].
  split; [exact Hq3|]. rewrite Hc3, Hc2. apply Security_Update_rest.
Qed.

Lemma rest_core_after n : forall t w,
  0 <= t < 2 ^ 32 ->
  quiet w -> core w = rest_core t ->
  quiet (rest n w) /\ core (rest n w) = rest_core (wrap32 (t + Z.of_N n)).
Proof.
  unfold rest. induction n as [|n IH] using N.peano_ind; intros t w Ht Hq Hc.
  - cbn [N.iter]. split; [exact Hq|].
    rewrite Hc, Z.add_0_r. unfold wrap32. rewrite Z.mod_small by exact Ht.
    reflexivity.
  - rewrite N.iter_succ. destruct (IH t w Ht Hq Hc) as [Hq' Hc'].
    destruct (ms_rest _ _ Hq' Hc') as [Hq'' Hc'']. split; [exact Hq''|].
    rewrite Hc''. f_equal. unfold wrap32.
    rewrite N2Z.inj_succ, Zplus_mod_idemp_l. f_equal. lia.
Qed.

Lemma after_wrap_has_core : core after_wrap = after_wrap_core.
Proof.
  unfold after_wrap.
  destruct (rest_core_after (2 ^ 32 - 2200) 0 booted ltac:(lia)
              booted_quiet booted_rest) as [Hq Hc].
  destruct (ms_seq_core (three_wrong_pins ++ replicate 1100 None
                           ++ [Some "1"%char]) _ Hq) as [_ H].
  rewrite H, Hc. vm_compute. reflexivity.
Qed.

Lemma guard_skips_locked_cycle w :
  core w = after_wrap_core ->
  currentState (sec w) = STATE_LOCKED /\
  g_systemTick w = 101 /\
  wrap32 (g_systemTick w - stateEntryTime (sec w)) = 1200 /\
  g_pressed_key (kp w) = "1"%char /\
  g_pressed_key (kp (exec Security_Update w)) = "1"%char.
Proof.
  intros H. unfold core, after_wrap_core in H.
  injection H as Ht Hp Hk Hc Hs.
  assert (Hsame : exec Security_Update w = w).
  { unfold exec. rewrite Security_Update_guarded; [reflexivity|].
    rewrite Ht. unfold STARTUP_DELAY_MS. lia. }
  rewrite Hsame, Hs, Ht, Hk. repeat split.
Qed.

(** C2. A defect of the code: the start-up guard of [Security_Update]
    compares the raw tick counter with [STARTUP_DELAY_MS], so it holds again
    for 2000 ms each time the 32-bit counter wraps, and a cycle it stops
    does nothing at all: in Locked the events are not drained and an elapsed
    lockout is not ended.  Such a cycle is reached from the start-up: in the
    run [after_wrap] the state is Locked (entered 1200 ms earlier), the tick
    counter has wrapped and reads 101, and a key is pending; the cycle
    returns at the guard and leaves the key pending. *)
Lemma locked_cycle_skipped_after_wrap :
  (forall w, g_systemTick w < STARTUP_DELAY_MS -> exec Security_Update w = w) /\
  currentState (sec after_wrap) = STATE_LOCKED /\
  g_systemTick after_wrap = 101 /\
  wrap32 (g_systemTick after_wrap - stateEntryTime (sec after_wrap)) = 1200 /\
  g_pressed_key (kp after_wrap) = "1"%char /\
  g_pressed_key (kp (exec Security_Update after_wrap)) = "1"%char.
Proof.
  split; [|exact (guard_skips_locked_cycle after_wrap after_wrap_has_core)].
  intros w G. unfold exec. rewrite (Security_Update_guarded w G). reflexivity.
Qed.

(** In [locked_with_inputs] the cycle consumes both inputs, and the state
    stays Locked, the lockout having run for 0 ms. *)
Lemma locked_cycle_drains_witness :
  g_last_valid_result (rf (exec Security_Update locked_with_inputs)) = 0 /\
  g_pressed_key (kp (exec Security_Update locked_with_inputs)) = NUL /\
  currentState (sec (exec Security_Update locked_with_inputs)) = STATE_LOCKED.
Proof.
  destruct (locked_cycle_drains locked_with_inputs) as [_ H].
  - vm_compute. reflexivity.
  - destruct H as (H1 & H2 & _ & H4).
    + vm_compute. discriminate.
    + destruct H4 as [H4 _]; [vm_compute; reflexivity|].
      split; [exact H1|]. split; [exact H2|exact H4].
Defined.

(* ====================================================================== *)
(** * The store, the running system and the drivers

    Properties of the code beside the coordination core: the store's
    operations and what survives a restart, the orchestrator over time,
    the card reader, the keypad scan, the beep timer and the admin
    console. *)
(* ====================================================================== *)

(* ---------------------------------------------------------------------- *)
(** ** The store's operations *)
(* ---------------------------------------------------------------------- *)

Lemma eval_eq {A} (m : M A) w : eval m w = fst (m w).
Proof. reflexivity. Qed.

Lemma exec_eq {A} (m : M A) w : exec m w = snd (m w).
Proof. reflexivity. Qed.

(** *** C strings *)

Lemma cstr_no_NUL s : Forall (fun c => Ascii.eqb c NUL = false) (cstr s).
Proof.
  induction s as [|c s IH]; cbn; [constructor|].
  destruct (Ascii.eqb c NUL) eqn:E; constructor; assumption.
Qed.

Lemma cstr_app_NUL (s r : list ascii) :
  Forall (fun c => Ascii.eqb c NUL = false) s -> cstr (s ++ NUL :: r) = s.
Proof.
  induction 1 as [|c s Hc Hs IH]; [reflexivity|].
  cbn. rewrite Hc, IH. reflexivity.
Qed.

Lemma cstr_plain (s : list ascii) :
  Forall (fun c => Ascii.eqb c NUL = false) s -> cstr s = s.
Proof.
  induction 1 as [|c s Hc Hs IH]; [reflexivity|].
  cbn. rewrite Hc, IH. reflexivity.
Qed.

Lemma cstr_idem s : cstr (cstr s) = cstr s.
Proof. apply cstr_plain, cstr_no_NUL. Qed.

Lemma streq_cstr a b : streq a (cstr b) = streq a b.
Proof. unfold streq. rewrite cstr_idem. reflexivity. Qed.

(** What [strncpy] followed by the terminator leaves in a field of [n + 1]
    bytes, for a source of at most [n] characters. *)
Lemma cstr_strncpy_terminated dst src n :
  (length (cstr src) <= n)%nat ->
  cstr (<[n := NUL]> (strncpy dst src n)) = cstr src.
Proof.
  intros Hlen. unfold strncpy. rewrite take_ge by exact Hlen.
  pose proof (cstr_no_NUL src) as Hs.
  destruct (decide (length (cstr src) = n)) as [E|E].
  - rewrite E, Nat.sub_diag. cbn [replicate app].
    destruct (drop n dst) as [|d r] eqn:Ed.
    + rewrite app_nil_r.
      rewrite list_insert_ge by lia. apply cstr_plain, Hs.
    + rewrite insert_app_r_alt by lia. rewrite E, Nat.sub_diag. cbn.
      apply cstr_app_NUL, Hs.
  - rewrite insert_app_r_alt by lia.
    destruct (n - length (cstr src))%nat as [|k] eqn:Ek; [lia|].
    cbn. apply cstr_app_NUL, Hs.
Qed.

(** *** The table *)

Lemma uid_listed_true tbl u :
  uid_listed tbl u = true <->
  u <> 0 /\ exists j, (j < MAX_STORED_IDS)%nat /\ default 0 (tbl !! j) = u.
Proof.
  unfold uid_listed.
  destruct (find_slot _ tbl 0 MAX_STORED_IDS) as [i|] eqn:E.
  - apply find_slot_Some in E as (Hi & Ht & _).
    apply andb_true_iff in Ht as [Hnz Heq]. apply negb_true_iff in Hnz. zb.
    split; [intros _|reflexivity]. split; [congruence|].
    exists i. split; [lia|exact Heq].
  - split; [discriminate|]. intros (Hnz & j & Hj & Hu).
    rewrite find_slot_None in E. specialize (E j ltac:(lia)).
    rewrite Hu in E. apply andb_false_iff in E as [E|E].
    + apply negb_false_iff in E. zb. contradiction.
    + rewrite Z.eqb_refl in E. discriminate.
Qed.

Lemma uid_listed_zero tbl : uid_listed tbl 0 = false.
Proof.
  destruct (uid_listed tbl 0) eqn:E; [|reflexivity].
  apply uid_listed_true in E as [H _]. contradiction.
Qed.

Lemma uid_listed_ext tbl tbl' u :
  (u <> 0 -> forall j, (j < MAX_STORED_IDS)%nat ->
     default 0 (tbl' !! j) = u <-> default 0 (tbl !! j) = u) ->
  uid_listed tbl' u = uid_listed tbl u.
Proof.
  intros H. apply eq_true_iff_eq. rewrite !uid_listed_true.
  split; intros (Hnz & j & Hj & Hu); (split; [exact Hnz|]);
    exists j; (split; [exact Hj|]); apply (H Hnz j Hj); exact Hu.
Qed.

Lemma default_insert_eq (tbl : list Z) i :
  default 0 (<[i := 0]> tbl !! i) = 0.
Proof.
  destruct (decide (i < length tbl)%nat).
  - rewrite list_lookup_insert_eq by assumption. reflexivity.
  - rewrite list_insert_ge by lia. rewrite lookup_ge_None_2 by lia. reflexivity.
Qed.

Lemma clear_matching_lookup uid : forall n tbl from j,
  default 0 (fst (clear_matching uid tbl from n) !! j) =
    if bool_decide (from <= j < from + n)%nat && (default 0 (tbl !! j) =? uid)
    then 0 else default 0 (tbl !! j).
Proof.
  induction n as [|n IH]; intros tbl from j; cbn [clear_matching].
  - rewrite bool_decide_eq_false_2 by lia. reflexivity.
  - destruct (default 0 (tbl !! from) =? uid) eqn:E.
    + specialize (IH (<[from := 0]> tbl) (S from) j).
      destruct (clear_matching uid (<[from:=0]> tbl) (S from) n) as [tbl' b].
      cbn [fst] in *. rewrite IH. clear IH.
      destruct (decide (j = from)) as [->|Hne].
      * rewrite default_insert_eq.
        rewrite (bool_decide_eq_false_2 (S from <= from < _)%nat) by lia.
        rewrite (bool_decide_eq_true_2 (from <= from < _)%nat) by lia.
        rewrite E. reflexivity.
      * rewrite list_lookup_insert_ne by congruence.
        destruct (default 0 (tbl !! j) =? uid); rewrite ?andb_false_r, ?andb_true_r;
          [|reflexivity].
        destruct (decide (from <= j < from + S n)%nat).
        -- rewrite !bool_decide_eq_true_2 by lia. reflexivity.
        -- rewrite !bool_decide_eq_false_2 by lia. reflexivity.
    + rewrite IH.
      destruct (decide (j = from)) as [->|Hne].
      * rewrite E, !andb_false_r. reflexivity.
      * destruct (default 0 (tbl !! j) =? uid); rewrite ?andb_false_r, ?andb_true_r;
          [|reflexivity].
        destruct (decide (from <= j < from + S n)%nat).
        -- rewrite !bool_decide_eq_true_2 by lia. reflexivity.
        -- rewrite !bool_decide_eq_false_2 by lia. reflexivity.
Qed.

Lemma clear_matching_found uid : forall n tbl from,
  snd (clear_matching uid tbl from n) = true <->
  exists j, (from <= j < from + n)%nat /\ default 0 (tbl !! j) = uid.
Proof.
  induction n as [|n IH]; intros tbl from; cbn [clear_matching].
  - split; [discriminate|]. intros (j & Hj & _). lia.
  - destruct (default 0 (tbl !! from) =? uid) eqn:E; zb.
    + destruct (clear_matching uid (<[from:=0]> tbl) (S from) n) as [tbl' b].
      cbn [snd]. split; [intros _|reflexivity]. exists from. split; [lia|exact E].
    + rewrite IH. split; intros (j & Hj & Hu); exists j; (split; [|exact Hu]);
        [lia|]. destruct (decide (j = from)) as [->|]; [contradiction|lia].
Qed.

Lemma clear_matching_absent uid : forall n tbl from,
  snd (clear_matching uid tbl from n) = false ->
  fst (clear_matching uid tbl from n) = tbl.
Proof.
  induction n as [|n IH]; intros tbl from; cbn [clear_matching]; [reflexivity|].
  destruct (default 0 (tbl !! from) =? uid).
  - destruct (clear_matching uid (<[from:=0]> tbl) (S from) n). discriminate.
  - apply IH.
Qed.

Lemma clear_matching_length uid : forall n tbl from,
  length (fst (clear_matching uid tbl from n)) = length tbl.
Proof.
  induction n as [|n IH]; intros tbl from; cbn [clear_matching]; [reflexivity|].
  destruct (default 0 (tbl !! from) =? uid).
  - specialize (IH (<[from := 0]> tbl) (S from)).
    destruct (clear_matching uid (<[from:=0]> tbl) (S from) n).
    cbn [fst] in *. rewrite IH. apply length_insert.
  - apply IH.
Qed.

(** *** Saving *)

(** [Storage_SaveConfig]: what it leaves and what its result says. *)
Lemma Storage_SaveConfig_run cfg w :
  let w' := exec (Storage_SaveConfig cfg) w in
  g_cachedConfig w' = cfg /\
  (eval (Storage_SaveConfig cfg) w = true <->
   erase_status (flash w) = kStatus_FLASH_Success /\
   program_status (flash w) = kStatus_FLASH_Success) /\
  (eval (Storage_SaveConfig cfg) w = true -> sector (flash w') = cfg) /\
  init_status (flash w') = init_status (flash w) /\
  erase_status (flash w') = erase_status (flash w) /\
  program_status (flash w') = program_status (flash w) /\
  g_systemTick w' = g_systemTick w /\ g_pirDetected w' = g_pirDetected w /\
  kp w' = kp w /\ rf w' = rf w /\ chip w' = chip w /\ sec w' = sec w.
Proof.
  cbv zeta. unfold exec, eval. set (r := Storage_SaveConfig cfg w).
  assert (E : r = Storage_SaveConfig cfg w) by reflexivity. clearbody r.
  revert E. fw_go; intros ->; fw_norm; zb; repeat split;
    try reflexivity; try discriminate; try tauto; try congruence.
Qed.

Lemma set_authorized_uids_same c :
  set_authorized_uids (authorized_uids c) c = c.
Proof. destruct c. reflexivity. Qed.

Lemma Storage_RemoveRFID_run uid w :
  let r := clear_matching uid (authorized_uids (g_cachedConfig w)) 0 MAX_STORED_IDS in
  let w0 := upd_config (set_authorized_uids (fst r)) w in
  Storage_RemoveRFID uid w =
    if snd r
    then Storage_SaveConfig (g_cachedConfig w0)
           (exec (UART_Printf "[STORAGE] UID %x removed." [uid]) w0)
    else (false, exec (UART_Printf "[STORAGE] UID %x not found." [uid]) w0).
Proof.
  cbv zeta. unfold Storage_RemoveRFID, bind at 1, gets at 1.
  destruct (clear_matching uid _ 0 MAX_STORED_IDS) as [tbl' found].
  destruct found; reflexivity.
Qed.

Lemma Storage_RemoveRFID_table uid w :
  authorized_uids (g_cachedConfig (exec (Storage_RemoveRFID uid) w))
    = fst (clear_matching uid (authorized_uids (g_cachedConfig w)) 0 MAX_STORED_IDS) /\
  door_pin (g_cachedConfig (exec (Storage_RemoveRFID uid) w))
    = door_pin (g_cachedConfig w) /\
  admin_password (g_cachedConfig (exec (Storage_RemoveRFID uid) w))
    = admin_password (g_cachedConfig w) /\
  magic_header (g_cachedConfig (exec (Storage_RemoveRFID uid) w))
    = magic_header (g_cachedConfig w).
Proof.
  unfold exec at 1 2 3 4. rewrite Storage_RemoveRFID_run. cbv zeta.
  destruct (snd (clear_matching uid _ 0 MAX_STORED_IDS)).
  - fold (exec (Storage_SaveConfig
                  (g_cachedConfig
                     (upd_config (set_authorized_uids
                        (fst (clear_matching uid (authorized_uids (g_cachedConfig w))
                                0 MAX_STORED_IDS))) w)))
               (exec (UART_Printf "[STORAGE] UID %x removed." [uid])
                  (upd_config (set_authorized_uids
                     (fst (clear_matching uid (authorized_uids (g_cachedConfig w))
                             0 MAX_STORED_IDS))) w))).
    rewrite Storage_SaveConfig_cache. repeat split.
  - repeat split.
Qed.

(** X1. [Storage_RemoveRFID] takes the identifier off the list and leaves
    every other identifier as listed as it was, the PIN, the admin password
    and the marker untouched.  It answers true exactly when some slot held
    the identifier and both flash calls succeeded, and then the sector holds
    the cached record.  For an identifier that is not listed (and is not 0)
    it answers false and touches neither the cache nor the flash. *)
Theorem Storage_RemoveRFID_unlists uid w :
  let tbl := authorized_uids (g_cachedConfig w) in
  let w' := exec (Storage_RemoveRFID uid) w in
  let tbl' := authorized_uids (g_cachedConfig w') in
  uid_listed tbl' uid = false /\
  (forall u, u <> uid -> uid_listed tbl' u = uid_listed tbl u) /\
  length tbl' = length tbl /\
  door_pin (g_cachedConfig w') = door_pin (g_cachedConfig w) /\
  admin_password (g_cachedConfig w') = admin_password (g_cachedConfig w) /\
  magic_header (g_cachedConfig w') = magic_header (g_cachedConfig w) /\
  (eval (Storage_RemoveRFID uid) w = true <->
   (exists j, (j < MAX_STORED_IDS)%nat /\ default 0 (tbl !! j) = uid) /\
   erase_status (flash w) = kStatus_FLASH_Success /\
   program_status (flash w) = kStatus_FLASH_Success) /\
  (eval (Storage_RemoveRFID uid) w = true ->
   sector (flash w') = g_cachedConfig w') /\
  (uid <> 0 -> uid_listed tbl uid = false ->
   eval (Storage_RemoveRFID uid) w = false /\
   g_cachedConfig w' = g_cachedConfig w /\ flash w' = flash w).
Proof.
  cbv zeta. destruct (Storage_RemoveRFID_table uid w) as (Ht & Hp & Ha & Hm).
  set (tbl := authorized_uids (g_cachedConfig w)) in *.
  set (r := clear_matching uid tbl 0 MAX_STORED_IDS) in *.
  assert (Hlook : forall j, (j < MAX_STORED_IDS)%nat ->
            default 0 (fst r !! j)
              = if default 0 (tbl !! j) =? uid then 0 else default 0 (tbl !! j)).
  { intros j Hj. subst r. rewrite clear_matching_lookup.
    rewrite bool_decide_eq_true_2 by lia. reflexivity. }
  pose proof (Storage_RemoveRFID_run uid w) as Hrun. cbv zeta in Hrun.
  fold tbl in Hrun. fold r in Hrun.
  pose proof (clear_matching_found uid MAX_STORED_IDS tbl 0) as Hfound.
  fold r in Hfound.
  rewrite Ht. split; [|split; [|split; [|split; [|split; [|split; [|split; [|split]]]]]]];
    try assumption.
  - destruct (uid_listed (fst r) uid) eqn:E; [|reflexivity].
    apply uid_listed_true in E as (Hnz & j & Hj & Hu).
    rewrite (Hlook j Hj) in Hu. destruct (default 0 (tbl !! j) =? uid) eqn:E; zb;
      congruence.
  - intros u Hne. apply uid_listed_ext. intros Hnz j Hj. rewrite (Hlook j Hj).
    destruct (default 0 (tbl !! j) =? uid) eqn:E; zb; [|tauto].
    split; congruence.
  - apply clear_matching_length.
  - unfold eval. rewrite Hrun. destruct (snd r) eqn:Es.
    + destruct (Storage_SaveConfig_run
                  (g_cachedConfig (upd_config (set_authorized_uids (fst r)) w))
                  (exec (UART_Printf "[STORAGE] UID %x removed." [uid])
                        (upd_config (set_authorized_uids (fst r)) w)))
        as (_ & Hres & _).
      unfold eval in Hres. rewrite Hres.
      destruct Hfound as [Hf _]. destruct (Hf eq_refl) as (j & Hj & Hu).
      split; [intros [H1 H2]|intros (_ & H1 & H2); split; assumption].
      split; [exists j; split; [lia|exact Hu]|]. split; assumption.
    + cbn [fst]. split; [discriminate|]. intros ((j & Hj & Hu) & _).
      assert (false = true) by (apply Hfound; exists j; split; [lia|exact Hu]).
      discriminate.
  - set (w0 := upd_config (set_authorized_uids (fst r)) w) in *.
    set (w1 := exec (UART_Printf "[STORAGE] UID %x removed." [uid]) w0) in *.
    destruct (snd r) eqn:Es; [|unfold eval; rewrite Hrun; discriminate].
    assert (Hev : eval (Storage_RemoveRFID uid) w
                  = eval (Storage_SaveConfig (g_cachedConfig w0)) w1)
      by (unfold eval; rewrite Hrun; reflexivity).
    assert (Hex : exec (Storage_RemoveRFID uid) w
                  = exec (Storage_SaveConfig (g_cachedConfig w0)) w1)
      by (unfold exec; rewrite Hrun; reflexivity).
    rewrite Hev, Hex.
    destruct (Storage_SaveConfig_run (g_cachedConfig w0) w1) as (Hc & _ & Hs & _).
    intros Hok. rewrite (Hs Hok), Hc. reflexivity.
  - intros Hnz Hnl. assert (Es : snd r = false).
    { destruct (snd r) eqn:Es; [|reflexivity].
      destruct Hfound as [Hf _]. destruct (Hf eq_refl) as (j & Hj & Hu).
      assert (uid_listed tbl uid = true)
        by (apply uid_listed_true; split; [exact Hnz|exists j; split; [lia|exact Hu]]).
      congruence. }
    unfold eval, exec. rewrite Hrun, Es. cbn [fst snd].
    subst r. rewrite (clear_matching_absent _ _ _ _ Es).
    repeat split. cbn. subst tbl. rewrite set_authorized_uids_same. reflexivity.
Qed.

Lemma Storage_AddRFID_run uid w :
  uid <> 0 ->
  let tbl := authorized_uids (g_cachedConfig w) in
  Storage_AddRFID uid w =
    match find_slot (fun x => x =? uid) tbl 0 MAX_STORED_IDS with
    | Some _ =>
      (false, exec (UART_Printf "[STORAGE] UID %X already exists." [uid]) w)
    | None =>
      match find_slot (fun x => x =? 0) tbl 0 MAX_STORED_IDS with
      | Some i =>
        let w0 := exec (UART_Printf "[STORAGE] UID %x added at slot %d."
                          [uid; Z.of_nat i])
                       (upd_config (set_authorized_uids (<[i := uid]> tbl)) w) in
        Storage_SaveConfig (g_cachedConfig w0) w0
      | None =>
        (false,
         exec (UART_Printf "[STORAGE] Memory Full! Delete an old ID first." []) w)
      end
    end.
Proof.
  intros Hnz. cbv zeta. unfold Storage_AddRFID.
  apply Z.eqb_neq in Hnz. rewrite Hnz. unfold bind at 1, gets at 1.
  destruct (find_slot (fun x => x =? uid) _ 0 _); [reflexivity|].
  destruct (find_slot (fun x => x =? 0) _ 0 _); reflexivity.
Qed.

(** The slot a new identifier goes to: the first one that holds 0. *)
Lemma Storage_AddRFID_cache uid w :
  uid <> 0 ->
  let tbl := authorized_uids (g_cachedConfig w) in
  let w' := exec (Storage_AddRFID uid) w in
  match find_slot (fun x => x =? uid) tbl 0 MAX_STORED_IDS,
        find_slot (fun x => x =? 0) tbl 0 MAX_STORED_IDS with
  | None, Some i =>
    g_cachedConfig w' = set_authorized_uids (<[i := uid]> tbl) (g_cachedConfig w) /\
    (eval (Storage_AddRFID uid) w = true <->
     erase_status (flash w) = kStatus_FLASH_Success /\
     program_status (flash w) = kStatus_FLASH_Success) /\
    (eval (Storage_AddRFID uid) w = true -> sector (flash w') = g_cachedConfig w')
  | _, _ =>
    g_cachedConfig w' = g_cachedConfig w /\ flash w' = flash w /\
    eval (Storage_AddRFID uid) w = false
  end.
Proof.
  intros Hnz. cbv zeta. unfold exec, eval. rewrite (Storage_AddRFID_run uid w Hnz).
  cbv zeta.
  destruct (find_slot (fun x => x =? uid) _ 0 _); [repeat split|].
  destruct (find_slot (fun x => x =? 0) _ 0 _) as [i|]; [|repeat split].
  set (w0 := exec (UART_Printf _ _) _).
  destruct (Storage_SaveConfig_run (g_cachedConfig w0) w0) as (Hc & Hres & Hs & _).
  unfold exec, eval in Hc, Hres, Hs. rewrite Hc. split; [reflexivity|].
  split; [exact Hres|exact Hs].
Qed.

Lemma lookup_default_Some (tbl : list Z) j :
  (j < length tbl)%nat -> tbl !! j = Some (default 0 (tbl !! j)).
Proof.
  intros H. destruct (lookup_lt_is_Some_2 tbl j H) as [x ->]. reflexivity.
Qed.

(** X2. [Storage_AddRFID] of a non-zero identifier leaves every other
    identifier as listed as it was; when the table holds it already or has a
    free slot, the identifier is listed afterwards, also when the call
    answers false because the flash write failed.  It answers true exactly
    when the identifier was not listed, a slot was free and both flash calls
    succeeded, and then the sector holds the cached record. *)
Theorem Storage_AddRFID_lists uid w :
  uid <> 0 ->
  length (authorized_uids (g_cachedConfig w)) = MAX_STORED_IDS ->
  let tbl := authorized_uids (g_cachedConfig w) in
  let w' := exec (Storage_AddRFID uid) w in
  let tbl' := authorized_uids (g_cachedConfig w') in
  (forall u, u <> uid -> uid_listed tbl' u = uid_listed tbl u) /\
  ((exists j, (j < MAX_STORED_IDS)%nat /\
              (tbl !! j = Some uid \/ tbl !! j = Some 0)) ->
   uid_listed tbl' uid = true) /\
  (eval (Storage_AddRFID uid) w = true <->
   uid_listed tbl uid = false /\
   (exists j, (j < MAX_STORED_IDS)%nat /\ tbl !! j = Some 0) /\
   erase_status (flash w) = kStatus_FLASH_Success /\
   program_status (flash w) = kStatus_FLASH_Success) /\
  (eval (Storage_AddRFID uid) w = true -> sector (flash w') = g_cachedConfig w').
Proof.
  intros Hnz Hlen. cbv zeta.
  pose proof (Storage_AddRFID_cache uid w Hnz) as H. cbv zeta in H.
  set (tbl := authorized_uids (g_cachedConfig w)) in *.
  destruct (find_slot (fun x => x =? uid) tbl 0 MAX_STORED_IDS) as [i0|] eqn:E1.
  - (* already in the table *)
    destruct H as (Hc & Hf & Hr). rewrite Hc. fold tbl.
    apply find_slot_Some in E1 as (Hi0 & Ht & _). zb.
    assert (Hl : uid_listed tbl uid = true).
    { apply uid_listed_true. split; [exact Hnz|]. exists i0. split; [lia|exact Ht]. }
    split; [reflexivity|]. split; [intros _; exact Hl|].
    rewrite Hr. split; [|discriminate].
    split; [discriminate|]. intros (Hnl & _). congruence.
  - assert (Hnl : uid_listed tbl uid = false).
    { destruct (uid_listed tbl uid) eqn:E; [|reflexivity].
      apply uid_listed_true in E as (_ & j & Hj & Hu).
      rewrite find_slot_None in E1. specialize (E1 j ltac:(lia)).
      cbv beta in E1. zb. contradiction. }
    destruct (find_slot (fun x => x =? 0) tbl 0 MAX_STORED_IDS) as [i|] eqn:E2.
    + (* a free slot *)
      destruct H as (Hc & Hres & Hs). rewrite Hc.
      cbn [authorized_uids set_authorized_uids].
      apply find_slot_Some in E2 as (Hi & Ht & _). zb.
      assert (Hfree : tbl !! i = Some 0).
      { rewrite lookup_default_Some by lia. rewrite Ht. reflexivity. }
      split; [|split; [|split]].
      * intros u Hne. apply uid_listed_ext. intros Hunz j Hj.
        destruct (decide (j = i)) as [->|Hji].
        -- rewrite list_lookup_insert_eq by lia. rewrite Ht. cbn. split; congruence.
        -- rewrite list_lookup_insert_ne by congruence. tauto.
      * intros _. apply uid_listed_true. split; [exact Hnz|]. exists i.
        split; [lia|]. rewrite list_lookup_insert_eq by lia. reflexivity.
      * rewrite Hres. split; [intros [H1 H2]|tauto].
        split; [exact Hnl|]. split; [|tauto]. exists i. split; [lia|exact Hfree].
      * rewrite <- Hc. exact Hs.
    + (* the table is full *)
      destruct H as (Hc & Hf & Hr). rewrite Hc. fold tbl.
      rewrite find_slot_None in E1, E2.
      split; [reflexivity|]. split; [|split].
      * intros (j & Hj & [Hu|Hz]).
        -- specialize (E1 j ltac:(lia)). rewrite Hu in E1. cbn in E1.
           rewrite Z.eqb_refl in E1. discriminate.
        -- specialize (E2 j ltac:(lia)). rewrite Hz in E2. discriminate.
      * rewrite Hr. split; [discriminate|]. intros (_ & (j & Hj & Hz) & _).
        specialize (E2 j ltac:(lia)). rewrite Hz in E2. discriminate.
      * rewrite Hr. discriminate.
Qed.

Lemma Storage_AddRFID_lists_witness :
  uid_listed (authorized_uids (g_cachedConfig (exec (Storage_AddRFID 0xCAFE) booted)))
             0xCAFE = true /\
  uid_listed (authorized_uids
                (g_cachedConfig (exec (Storage_AddRFID 0xCAFE) booted_bad_flash)))
             0xCAFE = true /\
  eval (Storage_AddRFID 0xCAFE) booted_bad_flash = false.
Proof.
  assert (Hroom : forall w,
            authorized_uids (g_cachedConfig w) !! 0%nat = Some 0 ->
            exists j, (j < MAX_STORED_IDS)%nat /\
              (authorized_uids (g_cachedConfig w) !! j = Some 0xCAFE \/
               authorized_uids (g_cachedConfig w) !! j = Some 0)).
  { intros w H. exists 0%nat. split; [unfold MAX_STORED_IDS; lia|right; exact H]. }
  destruct (Storage_AddRFID_lists 0xCAFE booted
              ltac:(lia) ltac:(vm_compute; reflexivity)) as (_ & H1 & _).
  destruct (Storage_AddRFID_lists 0xCAFE booted_bad_flash
              ltac:(lia) ltac:(vm_compute; reflexivity)) as (_ & H2 & _).
  split; [|split].
  - apply H1, Hroom. vm_compute. reflexivity.
  - apply H2, Hroom. vm_compute. reflexivity.
  - vm_compute. reflexivity.
Defined.

Lemma list_eq_default (l1 l2 : list Z) :
  length l1 = length l2 ->
  (forall j, (j < length l1)%nat -> default 0 (l1 !! j) = default 0 (l2 !! j)) ->
  l1 = l2.
Proof.
  intros Hlen H. apply list_eq. intros j.
  destruct (decide (j < length l1)%nat) as [Hj|Hj].
  - rewrite (lookup_default_Some l1 j Hj), (lookup_default_Some l2 j) by lia.
    rewrite (H j Hj). reflexivity.
  - rewrite !lookup_ge_None_2 by lia. reflexivity.
Qed.

Lemma config_eq (c1 c2 : SecurityConfig_t) :
  door_pin c1 = door_pin c2 -> admin_password c1 = admin_password c2 ->
  authorized_uids c1 = authorized_uids c2 -> magic_header c1 = magic_header c2 ->
  c1 = c2.
Proof. destruct c1, c2. cbn. intros -> -> -> ->. reflexivity. Qed.

(** X3. Removing an identifier right after it was added (it was not listed
    and a slot was free) gives back the cached configuration as it was. *)
Theorem Storage_AddRFID_then_Remove uid w :
  uid <> 0 ->
  length (authorized_uids (g_cachedConfig w)) = MAX_STORED_IDS ->
  uid_listed (authorized_uids (g_cachedConfig w)) uid = false ->
  (exists j, (j < MAX_STORED_IDS)%nat /\
             authorized_uids (g_cachedConfig w) !! j = Some 0) ->
  g_cachedConfig (exec (Storage_RemoveRFID uid) (exec (Storage_AddRFID uid) w))
    = g_cachedConfig w.
Proof.
  intros Hnz Hlen Hnl (j0 & Hj0 & Hz0).
  pose proof (Storage_AddRFID_cache uid w Hnz) as H. cbv zeta in H.
  set (tbl := authorized_uids (g_cachedConfig w)) in *.
  assert (Hno : forall j, (j < MAX_STORED_IDS)%nat -> default 0 (tbl !! j) <> uid).
  { intros j Hj Hu.
    assert (uid_listed tbl uid = true)
      by (apply uid_listed_true; split; [exact Hnz|exists j; split; assumption]).
    congruence. }
  destruct (find_slot (fun x => x =? uid) tbl 0 MAX_STORED_IDS) as [i0|] eqn:E1.
  { apply find_slot_Some in E1 as (Hi0 & Ht & _). zb.
    exfalso. apply (Hno i0); [lia|exact Ht]. }
  destruct (find_slot (fun x => x =? 0) tbl 0 MAX_STORED_IDS) as [i|] eqn:E2.
  2:{ rewrite find_slot_None in E2. specialize (E2 j0 ltac:(lia)).
      rewrite Hz0 in E2. discriminate. }
  destruct H as (Hc & _). apply find_slot_Some in E2 as (Hi & Ht & _). zb.
  set (w1 := exec (Storage_AddRFID uid) w) in *.
  destruct (Storage_RemoveRFID_table uid w1) as (Rt & Rp & Ra & Rm).
  assert (Htbl : authorized_uids (g_cachedConfig (exec (Storage_RemoveRFID uid) w1))
                 = tbl).
  { rewrite Rt, Hc. cbn [authorized_uids set_authorized_uids].
    apply list_eq_default.
    - rewrite clear_matching_length, length_insert. reflexivity.
    - intros j Hj. rewrite clear_matching_length, length_insert, Hlen in Hj.
      rewrite clear_matching_lookup, bool_decide_eq_true_2 by lia. cbn [andb].
      destruct (decide (j = i)) as [->|Hji].
      + rewrite list_lookup_insert_eq by lia. cbn. rewrite Z.eqb_refl.
        symmetry. exact Ht.
      + rewrite list_lookup_insert_ne by congruence.
        destruct (default 0 (tbl !! j) =? uid) eqn:E; zb; [|reflexivity].
        exfalso. apply (Hno j Hj E). }
  rewrite Hc in Rp, Ra, Rm.
  apply config_eq; [exact Rp | exact Ra | exact Htbl | exact Rm].
Qed.

Lemma Storage_AddRFID_then_Remove_witness :
  g_cachedConfig (exec (Storage_RemoveRFID 0xCAFE)
                       (exec (Storage_AddRFID 0xCAFE) booted))
    = g_cachedConfig booted.
Proof.
  apply (Storage_AddRFID_then_Remove 0xCAFE booted);
    [lia | vm_compute; reflexivity | vm_compute; reflexivity |].
  exists 0%nat. split; [unfold MAX_STORED_IDS; lia|vm_compute; reflexivity].
Defined.

(** *** Restart *)

Lemma main_startup_exec W :
  exec main_startup W = exec Security_Init (exec Storage_Init W).
Proof.
  unfold exec, main_startup, bind. destruct (Storage_Init W) as [[] w1]. reflexivity.
Qed.

Lemma Security_Init_store w :
  g_cachedConfig (exec Security_Init w) = g_cachedConfig w /\
  flash (exec Security_Init w) = flash w.
Proof.
  unfold exec. set (r := Security_Init w).
  assert (E : r = Security_Init w) by reflexivity. clearbody r.
  revert E. unfold Security_Init. rewrite Servo_Close_duty.
  fw_go; intros ->; fw_norm; split; reflexivity.
Qed.

Lemma Storage_Init_loads W :
  init_status (flash W) = kStatus_FLASH_Success ->
  magic_header (sector (flash W)) = STORAGE_MAGIC ->
  g_cachedConfig (exec Storage_Init W) = sector (flash W) /\
  flash (exec Storage_Init W) = flash W.
Proof.
  intros Hi Hm. apply Z.eqb_eq in Hi, Hm.
  unfold exec, Storage_Init, Storage_LoadConfig.
  autounfold with fw; fw_norm. rewrite Hi. cbn [negb]. fw_norm. rewrite Hm.
  fw_norm. split; reflexivity.
Qed.

Lemma Storage_Init_fails W :
  init_status (flash W) <> kStatus_FLASH_Success ->
  exec Storage_Init W = exec (UART_Printf "[STORAGE] Driver Init Failed!" []) W.
Proof.
  intros Hi. apply Z.eqb_neq in Hi.
  unfold exec, Storage_Init. unfold bind at 1, gets at 1. rewrite Hi. reflexivity.
Qed.

(** A restart on a sector that holds a record with the marker loads that
    record. *)
Lemma restart_loads c w :
  init_status (flash w) = kStatus_FLASH_Success ->
  magic_header (sector (flash w)) = STORAGE_MAGIC ->
  g_cachedConfig (restart c w) = sector (flash w).
Proof.
  intros Hi Hm. unfold restart. rewrite main_startup_exec.
  destruct (Security_Init_store (exec Storage_Init (reset_world (flash w) c)))
    as [-> _].
  apply (Storage_Init_loads (reset_world (flash w) c)); assumption.
Qed.

Lemma saves_restart m w c :
  saves m ->
  init_status (flash w) = kStatus_FLASH_Success ->
  magic_header (g_cachedConfig w) = STORAGE_MAGIC ->
  eval m w = true ->
  g_cachedConfig (restart c (exec m w)) = g_cachedConfig (exec m w).
Proof.
  intros Hs Hi Hm Hok. destruct (Hs w Hok) as (w0 & Hrun & Hf & Hmag).
  assert (Hex : exec m w = exec (Storage_SaveConfig (g_cachedConfig w0)) w0)
    by (unfold exec; rewrite Hrun; reflexivity).
  assert (Hok' : eval (Storage_SaveConfig (g_cachedConfig w0)) w0 = true)
    by (unfold eval in *; rewrite <- Hrun; exact Hok).
  rewrite Hex.
  destruct (Storage_SaveConfig_run (g_cachedConfig w0) w0)
    as (Hc & _ & Hsec & Hinit & _).
  rewrite restart_loads.
  - rewrite (Hsec Hok'), Hc. reflexivity.
  - rewrite Hinit, Hf. exact Hi.
  - rewrite (Hsec Hok'), Hmag. exact Hm.
Qed.

Lemma Storage_UpdatePIN_run newPin w :
  strlen newPin <= 4 ->
  let cfg := set_door_pin (<[4%nat := NUL]> (strncpy (door_pin (g_cachedConfig w))
                                                      newPin 4))
                          (g_cachedConfig w) in
  Storage_UpdatePIN newPin w = Storage_SaveConfig cfg (upd_config (fun _ => cfg) w).
Proof.
  intros Hlen. cbv zeta. unfold Storage_UpdatePIN.
  destruct (4 <? strlen newPin) eqn:E; zb; [lia|]. reflexivity.
Qed.

Lemma Storage_UpdateAdminPass_run newPass w :
  strlen newPass <= 9 ->
  let cfg := set_admin_password
               (<[9%nat := NUL]> (strncpy (admin_password (g_cachedConfig w))
                                          newPass 9))
               (g_cachedConfig w) in
  Storage_UpdateAdminPass newPass w
    = Storage_SaveConfig cfg (upd_config (fun _ => cfg) w).
Proof.
  intros Hlen. cbv zeta. unfold Storage_UpdateAdminPass.
  destruct (9 <? strlen newPass) eqn:E; zb; [lia|]. reflexivity.
Qed.

Lemma Storage_UpdatePIN_saves p : saves (Storage_UpdatePIN p).
Proof.
  intros w Hok. destruct (Z_le_gt_dec (strlen p) 4) as [Hlen|Hlen].
  - rewrite (Storage_UpdatePIN_run p w Hlen). cbv zeta.
    set (cfg := set_door_pin _ _).
    exists (upd_config (fun _ => cfg) w). repeat split.
  - rewrite eval_eq in Hok. unfold Storage_UpdatePIN in Hok.
    apply Z.gt_lt, Z.ltb_lt in Hlen. rewrite Hlen in Hok. discriminate.
Qed.

Lemma Storage_UpdateAdminPass_saves p : saves (Storage_UpdateAdminPass p).
Proof.
  intros w Hok. destruct (Z_le_gt_dec (strlen p) 9) as [Hlen|Hlen].
  - rewrite (Storage_UpdateAdminPass_run p w Hlen). cbv zeta.
    set (cfg := set_admin_password _ _).
    exists (upd_config (fun _ => cfg) w). repeat split.
  - rewrite eval_eq in Hok. unfold Storage_UpdateAdminPass in Hok.
    apply Z.gt_lt, Z.ltb_lt in Hlen. rewrite Hlen in Hok. discriminate.
Qed.

Lemma Storage_AddRFID_saves u : saves (Storage_AddRFID u).
Proof.
  intros w Hok. destruct (decide (u = 0)) as [->|Hnz]; [discriminate|].
  rewrite eval_eq in Hok. rewrite (Storage_AddRFID_run u w Hnz) in *. cbv zeta in *.
  destruct (find_slot (fun x => x =? u) _ 0 _); [discriminate|].
  destruct (find_slot (fun x => x =? 0) _ 0 _) as [i|]; [|discriminate].
  set (w0 := exec (UART_Printf _ _) _).
  exists w0. repeat split.
Qed.

Lemma Storage_RemoveRFID_saves u : saves (Storage_RemoveRFID u).
Proof.
  intros w Hok. rewrite eval_eq in Hok.
  pose proof (Storage_RemoveRFID_run u w) as Hrun. cbv zeta in Hrun.
  rewrite Hrun in Hok.
  destruct (snd (clear_matching u _ 0 MAX_STORED_IDS)); [|discriminate].
  set (W := upd_config _ w) in *.
  exists (exec (UART_Printf "[STORAGE] UID %x removed." [u]) W).
  split; [exact Hrun|]. split; reflexivity.
Qed.

(** A start-up on a device whose driver initialises leaves a record with
    the marker in the cache, loaded or default, and the driver as it was. *)
Lemma Storage_Init_marker W :
  init_status (flash W) = kStatus_FLASH_Success ->
  magic_header (g_cachedConfig (exec Storage_Init W)) = STORAGE_MAGIC /\
  init_status (flash (exec Storage_Init W)) = kStatus_FLASH_Success.
Proof.
  intros Hi. pose proof Hi as Hi'. apply Z.eqb_eq in Hi.
  unfold exec, Storage_Init, Storage_LoadConfig.
  autounfold with fw; fw_norm. rewrite Hi. cbn [negb]. fw_norm.
  destruct (magic_header (sector (flash W)) =? STORAGE_MAGIC) eqn:Hm; fw_norm.
  - apply Z.eqb_eq in Hm. split; assumption.
  - repeat (fw_case; fw_norm); split; reflexivity || assumption.
Qed.

Lemma restart_marker c w :
  init_status (flash w) = kStatus_FLASH_Success ->
  magic_header (g_cachedConfig (restart c w)) = STORAGE_MAGIC /\
  init_status (flash (restart c w)) = kStatus_FLASH_Success.
Proof.
  intros Hi. unfold restart. rewrite main_startup_exec.
  destruct (Security_Init_store (exec Storage_Init (reset_world (flash w) c)))
    as [-> ->].
  apply Storage_Init_marker. exact Hi.
Qed.

(** X4. On a device whose flash driver initialises and with a cached record
    that carries the marker, both of which hold after every start-up on
    such a device, a change that the store reports as saved survives a
    restart: after an update of the PIN or the admin password, an added or
    a removed identifier that answered true, the start-up on the same flash
    loads the configuration the cache held after the call. *)
Theorem saved_changes_survive_restart w c :
  init_status (flash w) = kStatus_FLASH_Success ->
  magic_header (g_cachedConfig w) = STORAGE_MAGIC ->
  (forall p, eval (Storage_UpdatePIN p) w = true ->
     g_cachedConfig (restart c (exec (Storage_UpdatePIN p) w))
       = g_cachedConfig (exec (Storage_UpdatePIN p) w)) /\
  (forall p, eval (Storage_UpdateAdminPass p) w = true ->
     g_cachedConfig (restart c (exec (Storage_UpdateAdminPass p) w))
       = g_cachedConfig (exec (Storage_UpdateAdminPass p) w)) /\
  (forall u, eval (Storage_AddRFID u) w = true ->
     g_cachedConfig (restart c (exec (Storage_AddRFID u) w))
       = g_cachedConfig (exec (Storage_AddRFID u) w)) /\
  (forall u, eval (Storage_RemoveRFID u) w = true ->
     g_cachedConfig (restart c (exec (Storage_RemoveRFID u) w))
       = g_cachedConfig (exec (Storage_RemoveRFID u) w)) /\
  (forall c', magic_header (g_cachedConfig (restart c' w)) = STORAGE_MAGIC /\
              init_status (flash (restart c' w)) = kStatus_FLASH_Success).
Proof.
  intros Hi Hm.
  split; [|split; [|split; [|split]]];
    try (intros x Hok; apply saves_restart;
         auto using Storage_UpdatePIN_saves, Storage_UpdateAdminPass_saves,
                    Storage_AddRFID_saves, Storage_RemoveRFID_saves).
  intros c'. apply restart_marker. exact Hi.
Qed.

(** After the PIN was changed to "4321" on the booted world, a restart holds
    "4321". *)
Lemma saved_changes_survive_restart_witness :
  cstr (door_pin (g_cachedConfig
         (restart chip_idle (exec (Storage_UpdatePIN (chars "4321")) booted))))
    = chars "4321".
Proof.
  destruct (saved_changes_survive_restart booted chip_idle
              ltac:(vm_compute; reflexivity) ltac:(vm_compute; reflexivity))
    as (H & _).
  rewrite (H (chars "4321")) by (vm_compute; reflexivity).
  vm_compute. reflexivity.
Defined.

(** *** Password checks *)

Lemma Security_CheckPassword_eval q w :
  eval (Security_CheckPassword q) w = streq q (door_pin (g_cachedConfig w)).
Proof.
  unfold eval, Security_CheckPassword, bind, Storage_GetConfig, gets.
  destruct (streq q (door_pin (g_cachedConfig w))); reflexivity.
Qed.

Lemma Security_CheckAdminPassword_eval q w :
  eval (Security_CheckAdminPassword q) w
    = streq q (admin_password (g_cachedConfig w)).
Proof. reflexivity. Qed.

Lemma streq_to a b s : cstr b = cstr s -> streq a b = streq a s.
Proof. unfold streq. intros ->. reflexivity. Qed.

Lemma uid_listed_empty u : uid_listed (replicate MAX_STORED_IDS 0) u = false.
Proof.
  destruct (uid_listed _ u) eqn:E; [|reflexivity].
  apply uid_listed_true in E as (Hnz & j & Hj & Hu).
  rewrite lookup_replicate_2 in Hu by exact Hj. cbn in Hu. congruence.
Qed.

Lemma cstr_strcpy dst src : cstr (strcpy dst src) = cstr src.
Proof. unfold strcpy. apply cstr_app_NUL, cstr_no_NUL. Qed.

(** X5. [Storage_FactoryReset]: whatever the flash answers, afterwards the
    cache holds the defaults, so the PIN check accepts exactly "1234", the
    admin check exactly "123456", and no identifier is listed; when the
    flash calls succeed, a restart loads the same record. *)
Theorem Storage_FactoryReset_defaults def0 w :
  let w' := exec (Storage_FactoryReset def0) w in
  let cfg := g_cachedConfig w' in
  cstr (door_pin cfg) = chars "1234" /\
  cstr (admin_password cfg) = chars "123456" /\
  authorized_uids cfg = replicate MAX_STORED_IDS 0 /\
  magic_header cfg = STORAGE_MAGIC /\
  (forall q, eval (Security_CheckPassword q) w' = streq q (chars "1234")) /\
  (forall q, eval (Security_CheckAdminPassword q) w' = streq q (chars "123456")) /\
  (forall u, uid_listed (authorized_uids cfg) u = false) /\
  (init_status (flash w) = kStatus_FLASH_Success ->
   erase_status (flash w) = kStatus_FLASH_Success ->
   program_status (flash w) = kStatus_FLASH_Success ->
   forall c, g_cachedConfig (restart c w') = cfg).
Proof.
  cbv zeta.
  set (def := set_magic_header STORAGE_MAGIC
                (set_authorized_uids (replicate MAX_STORED_IDS 0)
                   (set_admin_password
                      (strcpy (admin_password
                                 (set_door_pin (strcpy (door_pin def0) (chars "1234"))
                                               def0))
                              (chars "123456"))
                      (set_door_pin (strcpy (door_pin def0) (chars "1234")) def0)))).
  assert (Hex : exec (Storage_FactoryReset def0) w
                = exec (UART_Printf "[STORAGE] Factory Reset Complete." [])
                       (exec (Storage_SaveConfig def) w)).
  { unfold exec at 1 3, Storage_FactoryReset, bind. fold def.
    destruct (Storage_SaveConfig def w). reflexivity. }
  destruct (Storage_SaveConfig_run def w) as (Hc & Hres & Hsec & Hinit & _).
  assert (Hcfg : g_cachedConfig (exec (Storage_FactoryReset def0) w) = def).
  { rewrite Hex. exact Hc. }
  rewrite Hcfg.
  assert (Hp : cstr (door_pin def) = chars "1234") by apply cstr_strcpy.
  assert (Ha : cstr (admin_password def) = chars "123456") by apply cstr_strcpy.
  split; [exact Hp|]. split; [exact Ha|]. split; [reflexivity|].
  split; [reflexivity|].
  split; [|split; [|split]].
  - intros q. rewrite Security_CheckPassword_eval, Hcfg. apply streq_to, Hp.
  - intros q. rewrite Security_CheckAdminPassword_eval, Hcfg. apply streq_to, Ha.
  - intros u. apply uid_listed_empty.
  - intros Hi He Hpg c. rewrite Hex.
    assert (Hok : eval (Storage_SaveConfig def) w = true) by (apply Hres; auto).
    rewrite restart_loads.
    + exact (Hsec Hok).
    + change (init_status (flash (exec (Storage_SaveConfig def) w))
              = kStatus_FLASH_Success).
      rewrite Hinit. exact Hi.
    + change (magic_header (sector (flash (exec (Storage_SaveConfig def) w)))
              = STORAGE_MAGIC).
      rewrite (Hsec Hok). reflexivity.
Qed.

(** *** The flash write's bracket *)

(** Cut a trace [o1 :: ... :: on :: t] into its new part and [t]. *)
Ltac trace_new :=
  match goal with
  | |- exists new, ?l = new ++ ?t /\ _ =>
      first [ exists (@nil Output); split; [reflexivity|]
            | eexists [_]; split; [reflexivity|]
            | eexists [_; _]; split; [reflexivity|]
            | eexists [_; _; _]; split; [reflexivity|]
            | eexists [_; _; _; _]; split; [reflexivity|]
            | eexists [_; _; _; _; _]; split; [reflexivity|]
            | eexists [_; _; _; _; _; _]; split; [reflexivity|]
            | eexists [_; _; _; _; _; _; _]; split; [reflexivity|]
            | eexists [_; _; _; _; _; _; _; _]; split; [reflexivity|] ]
  end.

(** X6. On every path of [Storage_SaveConfig], the failed erase included, the
    interrupts are masked once and unmasked once after that, inside an LED
    on/off pair: the call never returns with interrupts masked or the LED
    lit. *)
Theorem Storage_SaveConfig_bracket cfg w :
  exists new,
    trace (exec (Storage_SaveConfig cfg) w) = new ++ trace w /\
    List.filter bracket new = [O_LedOff; O_IrqOn; O_IrqOff; O_LedOn].
Proof.
  unfold exec. set (r := Storage_SaveConfig cfg w).
  assert (E : r = Storage_SaveConfig cfg w) by reflexivity. clearbody r.
  revert E. fw_go; intros ->; fw_norm; trace_new; reflexivity.
Qed.

(** *** The listing *)





(** *** Start-up without the flash driver *)

(** X8. When [FLASH_Init] fails, [Storage_Init] loads nothing, not even the
    defaults: the system arms with the all-zero configuration of the reset.
    Its PIN is the empty string, which no entry of four keys matches, and no
    identifier is listed: no credential disarms it. *)
Theorem startup_without_flash f c :
  init_status f <> kStatus_FLASH_Success ->
  let w := exec main_startup (reset_world f c) in
  currentState (sec w) = STATE_ARMED /\
  g_cachedConfig w = Config_reset /\
  flash w = f /\
  (forall q ts,
     length q = 4%nat -> Forall entry_key q -> length ts = 4%nat -> paced ts ->
     eval (submit (zip q ts)) w = [0; 0; 0; -1]) /\
  (forall u, uid_listed (authorized_uids (g_cachedConfig w)) u = false).
Proof.
  intros Hi. cbv zeta. rewrite main_startup_exec.
  rewrite (Storage_Init_fails (reset_world f c) Hi).
  set (w := exec Security_Init _).
  assert (Hs : currentState (sec w) = STATE_ARMED) by reflexivity.
  assert (Hc : g_cachedConfig w = Config_reset) by reflexivity.
  assert (Hf : flash w = f) by reflexivity.
  assert (Hk : kp w = Keypad_reset) by reflexivity.
  rewrite Hc. split; [exact Hs|]. split; [reflexivity|]. split; [exact Hf|].
  split.
  - intros q ts Hq Hkeys Hts Hpace.
    rewrite (submit_four q ts w Hq Hkeys Hts Hpace)
      by (rewrite Hk; reflexivity).
    rewrite Hc. repeat f_equal.
    unfold streq. rewrite bool_decide_eq_false_2; [reflexivity|].
    destruct (cstr_entry_keys q [] Hkeys) as [-> _].
    destruct q; [discriminate Hq|]. discriminate.
  - intros u. apply uid_listed_empty.
Qed.

Lemma startup_without_flash_witness :
  eval (submit (zip (chars "1234") [3000; 3100; 3200; 3300]))
       (exec main_startup
          (reset_world {| sector := erased_sector; init_status := 1;
                          erase_status := 0; program_status := 0 |} chip_idle))
    = [0; 0; 0; -1].
Proof.
  assert (Hk : Forall entry_key (chars "1234")).
  { repeat (apply List.Forall_cons; [apply entry_key_keys; reflexivity|]).
    apply List.Forall_nil. }
  assert (Hpace : paced [3000; 3100; 3200; 3300]).
  { cbn. unfold wrap32, TIMEOUT_MS. repeat split; reflexivity. }
  destruct (startup_without_flash
              {| sector := erased_sector; init_status := 1;
                 erase_status := 0; program_status := 0 |} chip_idle
              ltac:(discriminate)) as (_ & _ & _ & H & _).
  exact (H (chars "1234") [3000; 3100; 3200; 3300] eq_refl Hk eq_refl Hpace).
Defined.

(** *** Changing the passwords *)

Lemma Security_SetPassword_accepted p w :
  strlen p = 4 -> forallb pin_char_ok (cstr p) = true ->
  g_cachedConfig (exec (Security_SetPassword (Some p)) w)
    = set_door_pin (<[4%nat := NUL]> (strncpy (door_pin (g_cachedConfig w)) p 4))
                   (g_cachedConfig w).
Proof.
  intros Hlen Hcs.
  assert (E : g_cachedConfig (exec (Security_SetPassword (Some p)) w)
              = g_cachedConfig (exec (Storage_UpdatePIN p) w)).
  { unfold exec, Security_SetPassword. apply Z.eqb_eq in Hlen.
    rewrite Hlen, Hcs. cbn [negb]. unfold bind.
    destruct (Storage_UpdatePIN p w) as [[] w1]; reflexivity. }
  rewrite E, exec_eq, (Storage_UpdatePIN_run p w) by lia.
  cbv zeta. rewrite <- exec_eq. apply Storage_SaveConfig_cache.
Qed.

(** X9. [Security_SetPassword] with a string of four keypad characters makes
    it the door PIN (the other fields of the record stay), also when the
    flash write fails, and [Security_CheckPassword] then accepts exactly
    that string.  A string with a character outside 0-9, A-D, '*', '#'
    changes neither the cache nor the flash, and a null pointer changes
    nothing at all. *)
Theorem Security_SetPassword_changes p w :
  let w' := exec (Security_SetPassword (Some p)) w in
  (strlen p = 4 -> forallb pin_char_ok (cstr p) = true ->
   cstr (door_pin (g_cachedConfig w')) = cstr p /\
   admin_password (g_cachedConfig w') = admin_password (g_cachedConfig w) /\
   authorized_uids (g_cachedConfig w') = authorized_uids (g_cachedConfig w) /\
   magic_header (g_cachedConfig w') = magic_header (g_cachedConfig w) /\
   (forall q, eval (Security_CheckPassword q) w' = streq q p)) /\
  (forallb pin_char_ok (cstr p) = false ->
   g_cachedConfig w' = g_cachedConfig w /\ flash w' = flash w) /\
  Security_SetPassword None w = (tt, w).
Proof.
  cbv zeta. split; [|split; [|reflexivity]].
  - intros Hlen Hcs. rewrite (Security_SetPassword_accepted p w Hlen Hcs).
    assert (Hp : cstr (<[4%nat:=NUL]> (strncpy (door_pin (g_cachedConfig w)) p 4))
                 = cstr p).
    { apply cstr_strncpy_terminated. unfold strlen in Hlen. lia. }
    repeat split; try exact Hp.
    intros q. rewrite Security_CheckPassword_eval.
    rewrite (Security_SetPassword_accepted p w Hlen Hcs). apply streq_to, Hp.
  - intros Hcs. unfold exec, Security_SetPassword. rewrite Hcs.
    destruct (negb (strlen p =? 4)); split; reflexivity.
Qed.

Lemma Security_SetAdminPassword_accepted p w :
  1 <= strlen p <= 9 ->
  g_cachedConfig (exec (Security_SetAdminPassword (Some p)) w)
    = set_admin_password
        (<[9%nat := NUL]> (strncpy (admin_password (g_cachedConfig w)) p 9))
        (g_cachedConfig w).
Proof.
  intros Hlen.
  assert (E : g_cachedConfig (exec (Security_SetAdminPassword (Some p)) w)
              = g_cachedConfig (exec (Storage_UpdateAdminPass p) w)).
  { unfold exec, Security_SetAdminPassword.
    assert (H : (strlen p <? 1) || (9 <? strlen p) = false).
    { apply orb_false_iff. split; apply Z.ltb_ge; lia. }
    rewrite H. unfold bind.
    destruct (Storage_UpdateAdminPass p w) as [[] w1]; reflexivity. }
  rewrite E, exec_eq, (Storage_UpdateAdminPass_run p w) by lia.
  cbv zeta. rewrite <- exec_eq. apply Storage_SaveConfig_cache.
Qed.

(** X10. [Security_SetAdminPassword] with a string of 1 to 9 characters makes
    it the admin password (the other fields of the record stay), also when
    the flash write fails, and [Security_CheckAdminPassword] then accepts
    exactly that string; a null pointer changes nothing. *)
Theorem Security_SetAdminPassword_changes p w :
  let w' := exec (Security_SetAdminPassword (Some p)) w in
  (1 <= strlen p <= 9 ->
   cstr (admin_password (g_cachedConfig w')) = cstr p /\
   door_pin (g_cachedConfig w') = door_pin (g_cachedConfig w) /\
   authorized_uids (g_cachedConfig w') = authorized_uids (g_cachedConfig w) /\
   magic_header (g_cachedConfig w') = magic_header (g_cachedConfig w) /\
   (forall q, eval (Security_CheckAdminPassword q) w' = streq q p)) /\
  Security_SetAdminPassword None w = (tt, w).
Proof.
  cbv zeta. split; [|reflexivity].
  intros Hlen. rewrite (Security_SetAdminPassword_accepted p w Hlen).
  assert (Hp : cstr (<[9%nat:=NUL]> (strncpy (admin_password (g_cachedConfig w)) p 9))
               = cstr p).
  { apply cstr_strncpy_terminated. unfold strlen in Hlen. lia. }
  repeat split; try exact Hp.
  intros q. rewrite Security_CheckAdminPassword_eval.
  rewrite (Security_SetAdminPassword_accepted p w Hlen). apply streq_to, Hp.
Qed.

(* ---------------------------------------------------------------------- *)
(** ** What a computation may put on the trace *)
(* ---------------------------------------------------------------------- *)

Section Emits.

Context (P : Output -> Prop).

Lemma emits_ret {A} (a : A) : emits P (ret a).
Proof. intros w. exists []. split; [reflexivity|constructor]. Qed.

Lemma emits_gets {A} (f : World -> A) : emits P (gets f).
Proof. intros w. exists []. split; [reflexivity|constructor]. Qed.

Lemma emits_modify (f : World -> World) :
  (forall w, trace (f w) = trace w) -> emits P (modify f).
Proof.
  intros Hf w. exists []. split; [apply Hf|constructor].
Qed.

Lemma emits_emit o : P o -> emits P (emit o).
Proof.
  intros Ho w. exists [o]. split; [reflexivity|]. constructor; [exact Ho|constructor].
Qed.

Lemma emits_bind {A B} (m : M A) (k : A -> M B) :
  emits P m -> (forall a, emits P (k a)) -> emits P (bind m k).
Proof.
  intros Hm Hk w. destruct (Hm w) as (n1 & E1 & F1).
  destruct (Hk (eval m w) (exec m w)) as (n2 & E2 & F2).
  exists (n2 ++ n1). split.
  - unfold exec, eval, bind in *. destruct (m w) as [a w1]. cbn [fst snd] in *.
    rewrite E2, E1. apply List.app_assoc.
  - apply Forall_app. split; assumption.
Qed.

Lemma emits_when b (m : M unit) : emits P m -> emits P (when b m).
Proof. intros Hm. destruct b; [exact Hm|apply emits_ret]. Qed.

End Emits.

(** Take a computation apart along its binds and branches. *)
Ltac emits_go :=
  repeat first
    [ apply emits_ret
    | apply emits_gets
    | apply emits_modify; intros ?; reflexivity
    | apply emits_emit;
      solve [unfold keeps_door_shut; discriminate | intros ?; discriminate]
    | assumption
    | apply emits_when
    | apply emits_bind; [|intros ?]
    | match goal with
      | |- emits _ (if ?b then _ else _) => destruct b
      | |- emits _ (match ?x with _ => _ end) => destruct x
      end ].

Section Door.

Let shut {A} (m : M A) : Prop := emits keeps_door_shut m.

Lemma shut_UART_Printf fmt args : shut (UART_Printf fmt args).
Proof. unfold UART_Printf. emits_go. Qed.

Lemma shut_Buzzer_On p v : shut (Buzzer_On p v).
Proof. unfold Buzzer_On. emits_go. Qed.

Lemma shut_Buzzer_Beep d : shut (Buzzer_Beep d).
Proof. pose proof shut_Buzzer_On. unfold Buzzer_Beep. emits_go. Qed.

Lemma shut_IsTimeout s d : shut (IsTimeout s d).
Proof. unfold IsTimeout. emits_go. Qed.

Lemma shut_Servo_Close : shut Servo_Close.
Proof. rewrite Servo_Close_duty. emits_go. Qed.

Lemma shut_PIR_CheckTriggered : shut PIR_CheckTriggered.
Proof. unfold PIR_CheckTriggered. emits_go. Qed.

Lemma shut_RFID_GetLastScanResult : shut RFID_GetLastScanResult.
Proof. unfold RFID_GetLastScanResult, setR. emits_go. Qed.

Lemma shut_Keypad_GetKeyNonBlocking : shut Keypad_GetKeyNonBlocking.
Proof. unfold Keypad_GetKeyNonBlocking, setK. emits_go. Qed.

Lemma shut_Security_CheckPassword q : shut (Security_CheckPassword q).
Proof.
  pose proof shut_UART_Printf.
  unfold Security_CheckPassword, Storage_GetConfig. emits_go.
Qed.

Lemma shut_Keypad_CheckPassword : shut Keypad_CheckPassword.
Proof.
  pose proof shut_UART_Printf. pose proof shut_Buzzer_Beep.
  pose proof shut_IsTimeout. pose proof shut_Keypad_GetKeyNonBlocking.
  pose proof shut_Security_CheckPassword.
  unfold Keypad_CheckPassword, setK, GetTick. emits_go.
Qed.

Lemma shut_Check_Auth : shut Check_Auth.
Proof.
  pose proof shut_UART_Printf. pose proof shut_Keypad_CheckPassword.
  pose proof shut_RFID_GetLastScanResult.
  unfold Check_Auth, RFID_CheckScan, RFID_GetLastUID, Storage_GetConfig. emits_go.
Qed.

Lemma shut_Check_Brute_Force : shut Check_Brute_Force.
Proof.
  pose proof shut_UART_Printf. pose proof shut_Buzzer_On.
  unfold Check_Brute_Force, setS, GetTick, LED_Alarm_On. emits_go.
Qed.

Lemma shut_enter_disarmed : shut enter_disarmed.
Proof. unfold enter_disarmed, setS, GetTick. emits_go. Qed.

Lemma shut_case_STATE_ARMED : shut case_STATE_ARMED.
Proof.
  pose proof shut_UART_Printf. pose proof shut_Keypad_CheckPassword.
  pose proof shut_RFID_GetLastScanResult. pose proof shut_Buzzer_Beep.
  pose proof shut_enter_disarmed. pose proof shut_Check_Brute_Force.
  pose proof shut_PIR_CheckTriggered. pose proof shut_Servo_Close.
  unfold case_STATE_ARMED, RFID_CheckScan, RFID_GetLastUID, Storage_GetConfig,
    setS, GetTick.
  emits_go.
Qed.

Lemma shut_case_STATE_ENTRY_DELAY : shut case_STATE_ENTRY_DELAY.
Proof.
  pose proof shut_UART_Printf. pose proof shut_Check_Auth.
  pose proof shut_Buzzer_Beep. pose proof shut_IsTimeout.
  pose proof shut_enter_disarmed. pose proof shut_Check_Brute_Force.
  unfold case_STATE_ENTRY_DELAY, setS, GetTick. emits_go.
Qed.

Lemma shut_case_STATE_TRIGGERED : shut case_STATE_TRIGGERED.
Proof.
  pose proof shut_UART_Printf. pose proof shut_Check_Auth.
  pose proof shut_Buzzer_Beep. pose proof shut_Buzzer_On. pose proof shut_IsTimeout.
  pose proof shut_enter_disarmed. pose proof shut_Check_Brute_Force.
  unfold case_STATE_TRIGGERED, setS, GetTick, LED_Alarm_On, LED_Alarm_Off,
    Buzzer_Off.
  emits_go.
Qed.

Lemma shut_case_STATE_LOCKED : shut case_STATE_LOCKED.
Proof.
  pose proof shut_UART_Printf. pose proof shut_Buzzer_On. pose proof shut_IsTimeout.
  pose proof shut_RFID_GetLastScanResult. pose proof shut_Keypad_GetKeyNonBlocking.
  unfold case_STATE_LOCKED, setS, GetTick, LED_Alarm_On, LED_Alarm_Off. emits_go.
Qed.

Lemma shut_case_STATE_EXIT_DELAY : shut case_STATE_EXIT_DELAY.
Proof.
  pose proof shut_UART_Printf. pose proof shut_IsTimeout.
  pose proof shut_RFID_GetLastScanResult. pose proof shut_Keypad_GetKeyNonBlocking.
  pose proof shut_PIR_CheckTriggered.
  unfold case_STATE_EXIT_DELAY, setS, GetTick, LED_Alarm_On, LED_Alarm_Off.
  emits_go.
Qed.

End Door.

(** X11. A cycle that does not start in Disarmed never commands the servo to
    the open position: whatever the inputs, in Armed, EntryDelay, Triggered,
    Locked and ExitDelay the outputs of [Security_Update] hold no open duty. *)
Theorem door_opens_only_in_disarmed w :
  currentState (sec w) <> STATE_DISARMED ->
  exists new,
    trace (exec Security_Update w) = new ++ trace w /\
    Forall keeps_door_shut new.
Proof.
  intros Hst. destruct (Z_lt_le_dec (g_systemTick w) STARTUP_DELAY_MS) as [G|G].
  - rewrite exec_eq, (Security_Update_guarded w G). exists [].
    split; [reflexivity|constructor].
  - rewrite exec_eq, (Security_Update_dispatch w G), <- exec_eq.
    destruct (currentState (sec w)); try contradiction.
    + apply shut_case_STATE_ARMED.
    + apply shut_case_STATE_ENTRY_DELAY.
    + apply shut_case_STATE_EXIT_DELAY.
    + apply shut_case_STATE_TRIGGERED.
    + apply shut_case_STATE_LOCKED.
Qed.

Lemma door_opens_only_in_disarmed_witness :
  exists new,
    trace (exec Security_Update locked_with_inputs)
      = new ++ trace locked_with_inputs /\
    Forall keeps_door_shut new.
Proof.
  apply door_opens_only_in_disarmed. vm_compute. discriminate.
Defined.

(* ---------------------------------------------------------------------- *)
(** ** The alarm volume *)
(* ---------------------------------------------------------------------- *)

Lemma Check_Brute_Force_volume w :
  volume_inv (sec w) -> volume_inv (sec (exec Check_Brute_Force w)).
Proof.
  unfold volume_inv, INITIAL_VOLUME, MAX_VOLUME. intros H.
  destruct (Check_Brute_Force_effect w) as [_ Hs]. cbv zeta in Hs.
  destruct (BRUTE_FORCE_LIMIT <=? _).
  - destruct Hs as (_ & -> & _). unfold MAX_VOLUME. lia.
  - destruct Hs as (_ & ->). exact H.
Qed.

Ltac volume_close :=
  unfold volume_inv, INITIAL_VOLUME, MAX_VOLUME in *; fw_norm;
  repeat match goal with H : sec _ = sec _ |- _ => rewrite H end;
  zb; lia.

Lemma case_STATE_ARMED_volume w :
  volume_inv (sec w) -> volume_inv (sec (exec case_STATE_ARMED w)).
Proof.
  intros Hv. unfold exec.
  assert (E2 : exists r2, r2 = case_STATE_ARMED w) by eauto.
  destruct E2 as [r2 E2]. rewrite <- E2.
  unfold case_STATE_ARMED, bind at 1 in E2.
  pose proof (Keypad_CheckPassword_frame w) as F. cbv zeta in F. unfold exec in F.
  destruct (Keypad_CheckPassword w) as [k w1]. cbn [snd] in F.
  destruct F as (_ & _ & _ & _ & _ & _ & Fs).
  revert E2. autounfold with fw; fw_norm; rewrite ?Fs.
  repeat (fw_case; fw_norm; rewrite ?Fs); intros ->; volume_close.
Qed.

Lemma case_STATE_ENTRY_DELAY_volume w :
  volume_inv (sec w) -> volume_inv (sec (exec case_STATE_ENTRY_DELAY w)).
Proof.
  intros Hv. set (v := eval Check_Auth (base w)).
  unfold exec, case_STATE_ENTRY_DELAY. autounfold with fw; fw_norm.
  repeat (fw_case; fw_norm); auth_run v; clearbody v;
    repeat (fw_case; fw_norm; rewrite ?Fs, ?Ft; fw_norm); volume_close.
Qed.

Lemma case_STATE_TRIGGERED_volume w :
  volume_inv (sec w) -> volume_inv (sec (exec case_STATE_TRIGGERED w)).
Proof.
  intros Hv. set (v := eval Check_Auth (base w)).
  unfold exec, case_STATE_TRIGGERED. autounfold with fw; fw_norm.
  repeat (fw_case; fw_norm); auth_run v; clearbody v;
    repeat (fw_case; fw_norm; rewrite ?Fs, ?Ft; fw_norm); volume_close.
Qed.

Lemma case_STATE_LOCKED_volume w :
  alarmVolume (sec (exec case_STATE_LOCKED w)) = alarmVolume (sec w).
Proof. unfold exec, case_STATE_LOCKED. fw_go; reflexivity. Qed.

Lemma case_STATE_EXIT_DELAY_volume w :
  alarmVolume (sec (exec case_STATE_EXIT_DELAY w)) = alarmVolume (sec w).
Proof. unfold exec, case_STATE_EXIT_DELAY. fw_go; reflexivity. Qed.

Lemma case_STATE_DISARMED_volume w :
  alarmVolume (sec (exec case_STATE_DISARMED w)) = alarmVolume (sec w).
Proof. unfold exec, case_STATE_DISARMED. fw_go; reflexivity. Qed.

Lemma Security_Update_volume w :
  volume_inv (sec w) -> volume_inv (sec (exec Security_Update w)).
Proof.
  intros Hv. destruct (Z_lt_le_dec (g_systemTick w) STARTUP_DELAY_MS) as [G|G].
  - rewrite exec_eq, (Security_Update_guarded w G). exact Hv.
  - rewrite exec_eq, (Security_Update_dispatch w G), <- exec_eq.
    destruct (currentState (sec w)).
    + apply case_STATE_ARMED_volume, Hv.
    + apply case_STATE_ENTRY_DELAY_volume, Hv.
    + unfold volume_inv. rewrite case_STATE_EXIT_DELAY_volume. exact Hv.
    + apply case_STATE_TRIGGERED_volume, Hv.
    + unfold volume_inv. rewrite case_STATE_DISARMED_volume. exact Hv.
    + unfold volume_inv. rewrite case_STATE_LOCKED_volume. exact Hv.
Qed.

(** X12. In every world a run reaches from the start-up, the alarm volume lies
    between 10 and 50; a cycle keeps it there from any world where it is;
    and within these bounds [Buzzer_On] passes the volume on as it is (its
    clamps and the conversion to [uint8_t] change nothing). *)
Theorem alarm_volume_bounded :
  (forall w, reachable w -> INITIAL_VOLUME <= alarmVolume (sec w) <= MAX_VOLUME) /\
  (forall w, volume_inv (sec w) -> volume_inv (sec (exec Security_Update w))) /\
  (forall w pitch, volume_inv (sec w) ->
     Buzzer_On pitch (alarmVolume (sec w))
       = emit (O_BuzzerOn pitch (alarmVolume (sec w)))).
Proof.
  split; [|split].
  - intros w (f & c & l & ->).
    assert (H0 : volume_inv (sec (exec main_startup (reset_world f c)))).
    { rewrite main_startup_exec.
      destruct (Security_Init_effect (exec Storage_Init (reset_world f c)))
        as (Hs & _).
      unfold volume_inv. rewrite Hs, Storage_Init_sec. cbn.
      unfold INITIAL_VOLUME, MAX_VOLUME. lia. }
    revert H0. generalize (exec main_startup (reset_world f c)).
    induction l as [|a l IH]; intros w0 H0; [exact H0|].
    cbn [run fold_left]. apply IH. destruct a; cbn [act].
    + exact H0.
    + apply Security_Update_volume, H0.
  - exact Security_Update_volume.
  - intros w pitch Hv. unfold volume_inv, INITIAL_VOLUME, MAX_VOLUME in Hv.
    unfold Buzzer_On. rewrite wrap8_small by lia.
    destruct (50 <? alarmVolume (sec w)) eqn:E1; zb; [lia|].
    destruct (alarmVolume (sec w) <? 1) eqn:E2; zb; [lia|]. reflexivity.
Qed.

(* ---------------------------------------------------------------------- *)
(** ** From Disarmed back to Armed *)
(* ---------------------------------------------------------------------- *)

Lemma wrap32_zero t : wrap32 (t - t) = 0.
Proof. rewrite Z.sub_diag. reflexivity. Qed.

(** One Disarmed cycle, phase by phase. *)
Lemma case_STATE_DISARMED_run w :
  currentState (sec w) = STATE_DISARMED ->
  let w' := exec case_STATE_DISARMED w in
  let elapsed := wrap32 (g_systemTick w - stateEntryTime (sec w)) in
  g_systemTick w' = g_systemTick w /\
  kp w' = kp w /\ rf w' = rf w /\ chip w' = chip w /\
  g_pirDetected w' = g_pirDetected w /\
  g_cachedConfig w' = g_cachedConfig w /\ flash w' = flash w /\
  failedAttempts (sec w') = failedAttempts (sec w) /\
  (elapsed < DISARM_WINDOW_MS ->
   currentState (sec w') = STATE_DISARMED /\
   stateEntryTime (sec w') = stateEntryTime (sec w) /\
   doorUnlockedMsg (sec w') = true /\
   waitingForAutoLock (sec w') = waitingForAutoLock (sec w) /\
   trace w' =
     if doorUnlockedMsg (sec w) then trace w
     else O_Uart "[SYSTEM] Door UNLOCKED. Closing in 5s..." []
            :: O_ServoDuty SERVO_OPEN_DUTY :: trace w) /\
  (DISARM_WINDOW_MS <= elapsed -> waitingForAutoLock (sec w) = false ->
   currentState (sec w') = STATE_DISARMED /\
   stateEntryTime (sec w') = g_systemTick w /\
   doorUnlockedMsg (sec w') = doorUnlockedMsg (sec w) /\
   waitingForAutoLock (sec w') = true /\
   trace w' = O_ServoDuty SERVO_CLOSE_DUTY
                :: O_Uart "[SYSTEM] Auto-Locking..." [] :: trace w) /\
  (DISARM_WINDOW_MS <= elapsed -> waitingForAutoLock (sec w) = true ->
   currentState (sec w') = STATE_EXIT_DELAY /\
   stateEntryTime (sec w') = g_systemTick w /\
   waitingForAutoLock (sec w') = false /\
   trace w' = O_Uart "[SYSTEM] Exit Delay Started (10s). Leaving..." []
                :: trace w).
Proof.
  intros Hst. cbv zeta. unfold exec.
  set (r := case_STATE_DISARMED w).
  assert (E : r = case_STATE_DISARMED w) by reflexivity. clearbody r.
  revert E. unfold case_STATE_DISARMED. autounfold with fw; fw_norm.
  rewrite ?wrap32_zero.
  repeat (fw_case; fw_norm; rewrite ?wrap32_zero); intros ->; fw_norm;
    unfold DISARM_WINDOW_MS, AUTO_LOCK_DELAY_MS in *; zb;
    repeat split; intros; try lia; try congruence; try reflexivity;
    fw_known; try reflexivity; try congruence.
Qed.

(** One ExitDelay cycle: nothing is read before the delay has run out, and
    everything pending is dropped when it has. *)
Lemma case_STATE_EXIT_DELAY_run w :
  let w' := exec case_STATE_EXIT_DELAY w in
  let expired :=
    EXIT_DELAY_MS <=? wrap32 (g_systemTick w - stateEntryTime (sec w)) in
  g_systemTick w' = g_systemTick w /\
  chip w' = chip w /\ g_cachedConfig w' = g_cachedConfig w /\ flash w' = flash w /\
  failedAttempts (sec w') = failedAttempts (sec w) /\
  stateEntryTime (sec w') = stateEntryTime (sec w) /\
  kp_buffer (kp w') = kp_buffer (kp w) /\ kp_index (kp w') = kp_index (kp w) /\
  (exists new, trace w' = new ++ trace w /\
               Forall no_servo new) /\
  (expired = false ->
   currentState (sec w') = currentState (sec w) /\
   kp w' = kp w /\ rf w' = rf w /\ g_pirDetected w' = g_pirDetected w) /\
  (expired = true ->
   currentState (sec w') = STATE_ARMED /\
   g_pirDetected w' = false /\
   g_last_valid_result (rf w') = 0 /\
   g_pressed_key (kp w') = NUL).
Proof.
  cbv zeta. unfold exec. set (r := case_STATE_EXIT_DELAY w).
  assert (E : r = case_STATE_EXIT_DELAY w) by reflexivity. clearbody r.
  revert E. unfold case_STATE_EXIT_DELAY. autounfold with fw; fw_norm.
  repeat (fw_case; fw_norm); intros ->; fw_norm;
    repeat match goal with
    | |- _ /\ _ => split
    | |- _ -> _ => intros ?
    | |- exists new, _ = new ++ _ /\ _ =>
        trace_new; repeat constructor; intros ?; discriminate
    | |- _ = _ => first [reflexivity | discriminate | congruence
                        | apply Ascii.eqb_eq; assumption]
    end.
Qed.





(* ---------------------------------------------------------------------- *)
(** ** What a computation leaves alone *)
(* ---------------------------------------------------------------------- *)

Section Keeps.

Context {X : Type} (part : World -> X).

Lemma keeps_ret {A} (a : A) : keeps part (ret a).
Proof. intros w. reflexivity. Qed.

Lemma keeps_gets {A} (f : World -> A) : keeps part (gets f).
Proof. intros w. reflexivity. Qed.

Lemma keeps_modify (f : World -> World) :
  (forall w, part (f w) = part w) -> keeps part (modify f).
Proof. intros Hf w. apply Hf. Qed.

Lemma keeps_bind {A B} (m : M A) (k : A -> M B) :
  keeps part m -> (forall a, keeps part (k a)) -> keeps part (bind m k).
Proof.
  intros Hm Hk w. specialize (Hm w). specialize (Hk (eval m w) (exec m w)).
  unfold exec, eval, bind in *. destruct (m w) as [a w1]. cbn [fst snd] in *.
  congruence.
Qed.

Lemma keeps_when b (m : M unit) : keeps part m -> keeps part (when b m).
Proof. intros Hm. destruct b; [exact Hm|apply keeps_ret]. Qed.

End Keeps.

Ltac keeps_go :=
  repeat first
    [ apply keeps_ret
    | apply keeps_gets
    | apply keeps_modify; intros ?; reflexivity
    | assumption
    | apply keeps_when
    | apply keeps_bind; [|intros ?]
    | match goal with
      | |- keeps _ (if ?b then _ else _) => destruct b
      | |- keeps _ (match ?x with _ => _ end) => destruct x
      end ].

Lemma read_uid_keeps n : forall uid from, keeps beside_reader (read_uid uid from n).
Proof.
  induction n as [|n IH]; intros uid from; cbn [read_uid]; [apply keeps_ret|].
  unfold Read_FIFOData. keeps_go. apply IH.
Qed.

Lemma RFID_Tick_keeps uid0 : keeps beside_reader (RFID_Tick uid0).
Proof.
  unfold RFID_Tick, GetTick, IsTimeout, setR, Start_Transceive, UART_Printf, emit.
  keeps_go; cbv zeta; keeps_go; try apply read_uid_keeps.
Qed.

Lemma read_uid_no_servo n : forall uid from, emits no_servo (read_uid uid from n).
Proof.
  induction n as [|n IH]; intros uid from; cbn [read_uid]; [apply emits_ret|].
  unfold Read_FIFOData. emits_go. apply IH.
Qed.

Lemma RFID_Tick_no_servo uid0 : emits no_servo (RFID_Tick uid0).
Proof.
  unfold RFID_Tick, GetTick, IsTimeout, setR, Start_Transceive, UART_Printf.
  emits_go; cbv zeta; emits_go; try apply read_uid_no_servo.
Qed.

(* ---------------------------------------------------------------------- *)
(** ** The way back to Armed, millisecond by millisecond *)
(* ---------------------------------------------------------------------- *)

Lemma ms_with_steps i w :
  exec (ms_with i) w
    = exec Security_Update (exec (RFID_Tick (in_stack i)) (ms_with_pre i w)).
Proof.
  unfold exec, ms_with, main_loop_body, ms_with_pre, bind, PIT_IRQHandler,
    PORTA_IRQHandler, Keypad_latch, setK, when, modify, ret.
  destruct i as [[k|] [|] [c|] st]; cbn [in_key in_motion in_chip in_stack fst snd];
    destruct (RFID_Tick _ _) as [[] w2]; reflexivity.
Qed.

Lemma ms_run_snoc ins i w :
  exec (ms_run (ins ++ [i])) w = exec (ms_with i) (exec (ms_run ins) w).
Proof.
  revert w. induction ins as [|j ins IH]; intros w.
  - unfold exec. cbn [app ms_run]. unfold bind, ret. cbn [snd].
    destruct (ms_with i w) as [[] w1]. reflexivity.
  - cbn [app ms_run]. rewrite !exec_eq. unfold bind at 1 2.
    destruct (ms_with j w) as [[] w1]. rewrite <- !exec_eq. apply IH.
Qed.

Lemma servo_duties_app t1 t2 :
  servo_duties (t1 ++ t2) = servo_duties t1 ++ servo_duties t2.
Proof. apply omap_app. Qed.

Lemma servo_duties_none new : Forall no_servo new -> servo_duties new = [].
Proof.
  induction 1 as [|o new Ho _ IH]; [reflexivity|].
  unfold servo_duties in *. cbn [omap list_omap]. rewrite IH.
  destruct o; try reflexivity. exfalso. apply (Ho dutyCyclePercent). reflexivity.
Qed.

Lemma wrap32_small z : 0 <= z < 2 ^ 32 -> wrap32 z = z.
Proof. intros H. unfold wrap32. apply Z.mod_small. exact H. Qed.

(** The part of [ms_with] before the orchestrator's cycle. *)
Lemma ms_with_before i w :
  let w2 := exec (RFID_Tick (in_stack i)) (ms_with_pre i w) in
  g_systemTick w2 = wrap32 (g_systemTick w + 1) /\
  sec w2 = sec w /\ g_cachedConfig w2 = g_cachedConfig w /\
  servo_duties (trace w2) = servo_duties (trace w).
Proof.
  cbv zeta. pose proof (RFID_Tick_keeps (in_stack i) (ms_with_pre i w)) as K.
  unfold beside_reader in K. injection K as K1 _ _ K4 _ K6.
  destruct (RFID_Tick_no_servo (in_stack i) (ms_with_pre i w)) as (new & Ht & Hn).
  rewrite K1, K4, K6, Ht, servo_duties_app, (servo_duties_none new Hn).
  destruct i as [[k|] [|] [c|] st]; repeat split.
Qed.

Lemma ms_with_rearm t0 n i w :
  STARTUP_DELAY_MS <= t0 -> t0 + 20000 < 2 ^ 32 -> 0 <= n < 20000 ->
  g_systemTick w = t0 + n -> rearm_phase t0 n (sec w) ->
  let w' := exec (ms_with i) w in
  g_systemTick w' = t0 + (n + 1) /\
  rearm_phase t0 (n + 1) (sec w') /\
  (exists added,
     servo_duties (trace w') = added ++ servo_duties (trace w) /\
     rearm_duties (n + 1) = added ++ rearm_duties n) /\
  failedAttempts (sec w') = failedAttempts (sec w) /\
  g_cachedConfig w' = g_cachedConfig w /\
  (n + 1 = 20000 ->
   g_pirDetected w' = false /\ g_last_valid_result (rf w') = 0 /\
   g_pressed_key (kp w') = NUL).
Proof.
  intros Ht0 Hmax Hn Htick Hph. cbv zeta. rewrite ms_with_steps.
  destruct (ms_with_before i w) as (B1 & B2 & B3 & B4). cbv zeta in *.
  set (w2 := exec (RFID_Tick (in_stack i)) (ms_with_pre i w)) in *.
  unfold STARTUP_DELAY_MS in *.
  assert (T2 : g_systemTick w2 = t0 + (n + 1)).
  { rewrite B1, Htick, wrap32_small by lia. lia. }
  assert (G : STARTUP_DELAY_MS <= g_systemTick w2)
    by (unfold STARTUP_DELAY_MS; lia).
  rewrite exec_eq, (Security_Update_dispatch w2 G), <- exec_eq.
  rewrite <- B2 in Hph |- *. rewrite <- B3, <- B4. clear B1 B2 B3 B4.
  unfold rearm_phase, rearm_duties in *.
  destruct (n =? 0) eqn:E0; zb.
  { (* the first cycle opens the lock *)
    destruct Hph as (Hs & He & Hm & Hw). rewrite Hs.
    pose proof (case_STATE_DISARMED_run w2 Hs) as H. cbv zeta in H.
    destruct H as (Tk & _ & _ & _ & _ & Hc & _ & Hf & H1 & _).
    destruct H1 as (A1 & A2 & A3 & A4 & A5).
    { rewrite T2, He. subst n. replace (t0 + (0 + 1) - t0) with 1 by lia.
      reflexivity. }
    subst n. cbn. rewrite Tk, T2, A5, Hm.
    repeat split; try assumption; try congruence; try lia.
    exists [SERVO_OPEN_DUTY]. split; reflexivity. }
  destruct (n <? 5000) eqn:E1; zb.
  { destruct Hph as (Hs & He & Hm & Hw). rewrite Hs.
    pose proof (case_STATE_DISARMED_run w2 Hs) as H. cbv zeta in H.
    destruct H as (Tk & _ & _ & _ & _ & Hc & _ & Hf & H1 & H2 & _).
    assert (El : wrap32 (g_systemTick w2 - stateEntryTime (sec w2)) = n + 1).
    { rewrite T2, He. replace (t0 + (n + 1) - t0) with (n + 1) by lia.
      apply wrap32_small. lia. }
    rewrite El in H1, H2. unfold DISARM_WINDOW_MS in *.
    destruct (n + 1 =? 0) eqn:F0; zb; [lia|].
    destruct (n + 1 <? 5000) eqn:F1; zb.
    - destruct (H1 F1) as (A1 & A2 & A3 & A4 & A5).
      rewrite Tk, T2, A5, Hm.
      repeat split; try assumption; try congruence; try lia.
      exists []. split; reflexivity.
    - destruct (H2 F1 Hw) as (A1 & A2 & A3 & A4 & A5).
      destruct (n + 1 <? 10000) eqn:F2; zb; [|lia].
      rewrite Tk, T2, A5.
      repeat split; try assumption; try congruence; try lia.
      exists [SERVO_CLOSE_DUTY]. split; reflexivity. }
  destruct (n <? 10000) eqn:E2; zb.
  { destruct Hph as (Hs & He & Hm & Hw). rewrite Hs.
    pose proof (case_STATE_DISARMED_run w2 Hs) as H. cbv zeta in H.
    destruct H as (Tk & _ & _ & _ & _ & Hc & _ & Hf & H1 & _ & H3).
    assert (El : wrap32 (g_systemTick w2 - stateEntryTime (sec w2)) = n + 1 - 5000).
    { rewrite T2, He.
      replace (t0 + (n + 1) - (t0 + 5000)) with (n + 1 - 5000) by lia.
      apply wrap32_small. lia. }
    rewrite El in H1, H3. unfold DISARM_WINDOW_MS in *.
    destruct (n + 1 =? 0) eqn:F0; zb; [lia|].
    destruct (n + 1 <? 5000) eqn:F1; zb; [lia|].
    destruct (n + 1 <? 10000) eqn:F2; zb.
    - destruct H1 as (A1 & A2 & A3 & A4 & A5); [lia|].
      rewrite Tk, T2, A5, Hm.
      repeat split; try assumption; try congruence; try lia.
      exists []. split; reflexivity.
    - destruct H3 as (A1 & A2 & A3 & A5); [lia|exact Hw|].
      destruct (n + 1 <? 20000) eqn:F3; zb; [|lia].
      rewrite Tk, T2, A5.
      repeat split; try assumption; try congruence; try lia.
      exists []. split; reflexivity. }
  destruct (n <? 20000) eqn:E3; zb; [|lia].
  destruct Hph as (Hs & He). rewrite Hs.
  pose proof (case_STATE_EXIT_DELAY_run w2) as H. cbv zeta in H.
  destruct H as (Tk & _ & Hc & _ & Hf & Het & _ & _ & (new & Htr & Hns) & H1 & H2).
  assert (El : wrap32 (g_systemTick w2 - stateEntryTime (sec w2)) = n + 1 - 10000).
  { rewrite T2, He.
    replace (t0 + (n + 1) - (t0 + 10000)) with (n + 1 - 10000) by lia.
    apply wrap32_small. lia. }
  rewrite El in H1, H2. unfold EXIT_DELAY_MS in *.
  rewrite Htr, servo_duties_app, (servo_duties_none new Hns).
  destruct (n + 1 =? 0) eqn:F0; zb; [lia|].
  destruct (n + 1 <? 5000) eqn:F1; zb; [lia|].
  destruct (n + 1 <? 10000) eqn:F2; zb; [lia|].
  destruct (n + 1 <? 20000) eqn:F3; zb.
  - destruct H1 as (A1 & _); [apply Z.leb_gt; lia|].
    rewrite Tk, T2, A1, Het.
    repeat split; try assumption; try congruence; try lia.
    exists []. split; reflexivity.
  - destruct H2 as (A1 & A2 & A3 & A4); [apply Z.leb_le; lia|].
    rewrite Tk, T2.
    repeat split; try assumption; try congruence; try lia.
    exists []. split; reflexivity.
Qed.

Lemma rearm_run t0 w :
  g_systemTick w = t0 -> rearm_phase t0 0 (sec w) ->
  STARTUP_DELAY_MS <= t0 -> t0 + 20000 < 2 ^ 32 ->
  forall ins,
    let n := Z.of_nat (length ins) in
    let w' := exec (ms_run ins) w in
    n <= 20000 ->
    g_systemTick w' = t0 + n /\
    rearm_phase t0 n (sec w') /\
    servo_duties (trace w') = rearm_duties n ++ servo_duties (trace w) /\
    failedAttempts (sec w') = failedAttempts (sec w) /\
    g_cachedConfig w' = g_cachedConfig w /\
    (n = 20000 ->
     g_pirDetected w' = false /\ g_last_valid_result (rf w') = 0 /\
     g_pressed_key (kp w') = NUL).
Proof.
  intros Htick Hph Ht0 Hmax ins. cbv zeta.
  induction ins as [|i ins IH] using rev_ind; intros Hn.
  - cbn [length Z.of_nat]. rewrite Z.add_0_r.
    change (exec (ms_run []) w) with w.
    split; [exact Htick|]. split; [exact Hph|]. repeat split; discriminate.
  - rewrite length_app in *. cbn [length] in *.
    replace (Z.of_nat (length ins + 1)) with (Z.of_nat (length ins) + 1) in * by lia.
    destruct IH as (I1 & I2 & I3 & I4 & I5 & _); [lia|].
    rewrite ms_run_snoc.
    pose proof (ms_with_rearm t0 (Z.of_nat (length ins)) i
                  (exec (ms_run ins) w) Ht0 Hmax ltac:(lia) I1 I2) as H.
    cbv zeta in H. destruct H as (S1 & S2 & (added & S3 & S3') & S4 & S5 & S6).
    repeat split; try assumption; try congruence; try (apply S6; assumption).
    rewrite S3, I3, S3'. apply List.app_assoc.
Qed.

(** X15. Counted in passes of the super loop, in a run with one pass per
    tick interrupt and the tick at rest within a pass: when the orchestrator
    has just entered Disarmed (entry time equal to the tick counter, the
    unlock message not yet printed, no auto-lock pending), the tick counter
    is past the start-up delay (at least 2000) and does not wrap within the
    next 20000 ticks, the system is back in Armed after exactly 20000
    passes, whatever keys, motion and cards arrive meanwhile.  The lock is
    commanded open in the first pass and closed in the 5000th; the state is
    Disarmed after fewer than 10000 passes, ExitDelay after 10000 to 19999
    and Armed after the 20000th.  Over the whole run the failed-attempt
    counter and the configuration are untouched, and after the 20000th pass
    the motion flag, the card event and the pending key have been
    dropped. *)
Theorem rearms_after_disarm w ins :
  currentState (sec w) = STATE_DISARMED ->
  stateEntryTime (sec w) = g_systemTick w ->
  doorUnlockedMsg (sec w) = false ->
  waitingForAutoLock (sec w) = false ->
  STARTUP_DELAY_MS <= g_systemTick w ->
  g_systemTick w + 20000 < 2 ^ 32 ->
  let n := Z.of_nat (length ins) in
  let w' := exec (ms_run ins) w in
  n <= 20000 ->
  currentState (sec w') =
    (if n <? 10000 then STATE_DISARMED
     else if n <? 20000 then STATE_EXIT_DELAY else STATE_ARMED) /\
  servo_duties (trace w') = rearm_duties n ++ servo_duties (trace w) /\
  failedAttempts (sec w') = failedAttempts (sec w) /\
  g_cachedConfig w' = g_cachedConfig w /\
  (n = 20000 ->
   g_pirDetected w' = false /\ g_last_valid_result (rf w') = 0 /\
   g_pressed_key (kp w') = NUL).
Proof.
  intros Hs He Hm Hw Ht0 Hmax. cbv zeta. intros Hn.
  assert (Hph : rearm_phase (g_systemTick w) 0 (sec w)).
  { unfold rearm_phase. cbn. auto. }
  pose proof (rearm_run (g_systemTick w) w eq_refl Hph Ht0 Hmax ins) as H.
  cbv zeta in H. destruct (H Hn) as (_ & R2 & R3 & R4 & R5 & R6).
  split; [|repeat split; try assumption; apply R6; assumption].
  unfold rearm_phase in R2.
  destruct (Z.of_nat (length ins) =? 0) eqn:E0; zb.
  - rewrite E0. cbn. tauto.
  - destruct (Z.of_nat (length ins) <? 5000) eqn:E1; zb.
    + destruct (Z.of_nat (length ins) <? 10000) eqn:E2; zb; [tauto|lia].
    + destruct (Z.of_nat (length ins) <? 10000) eqn:E2; zb; [tauto|].
      destruct (Z.of_nat (length ins) <? 20000) eqn:E3; zb; tauto.
Qed.

Lemma rearms_after_disarm_witness :
  currentState (sec (exec (ms_run (replicate (Z.to_nat 20000) busy_ms)) just_disarmed))
    = STATE_ARMED /\
  g_pressed_key (kp (exec (ms_run (replicate (Z.to_nat 20000) busy_ms)) just_disarmed))
    = NUL /\
  failedAttempts (sec (exec (ms_run (replicate (Z.to_nat 20000) busy_ms)) just_disarmed)) = 0.
Proof.
  assert (Hn : Z.of_nat (length (replicate (Z.to_nat 20000) busy_ms)) = 20000)
    by (rewrite length_replicate; reflexivity).
  pose proof (rearms_after_disarm just_disarmed (replicate (Z.to_nat 20000) busy_ms)
                ltac:(vm_compute; reflexivity) ltac:(vm_compute; reflexivity)
                ltac:(vm_compute; reflexivity) ltac:(vm_compute; reflexivity)
                ltac:(vm_compute; discriminate) ltac:(vm_compute; reflexivity)) as H.
  cbv zeta in H. rewrite Hn in H.
  destruct (H ltac:(lia)) as (H1 & _ & H3 & _ & H5).
  destruct (H5 eq_refl) as (_ & _ & H6).
  split; [exact H1|]. split; [exact H6|]. rewrite H3. vm_compute. reflexivity.
Defined.

(* ---------------------------------------------------------------------- *)
(** ** From motion to the alarm *)
(* ---------------------------------------------------------------------- *)

(** With nothing presented, [Check_Auth] answers "none". *)
Lemma Check_Auth_silent W :
  g_pressed_key (kp W) = NUL -> g_last_valid_result (rf W) = 0 ->
  exists w2,
    Check_Auth W = (AUTH_NONE, w2) /\
    sec w2 = sec W /\ g_systemTick w2 = g_systemTick W /\
    g_pressed_key (kp w2) = NUL /\ g_last_valid_result (rf w2) = 0 /\
    chip w2 = chip W /\ g_cachedConfig w2 = g_cachedConfig W /\
    g_pirDetected w2 = g_pirDetected W /\
    servo_duties (trace w2) = servo_duties (trace W).
Proof.
  intros Hk Hr. set (r := Check_Auth W).
  assert (E : r = Check_Auth W) by reflexivity. clearbody r.
  revert E. unfold Check_Auth, Keypad_CheckPassword.
  autounfold with fw; fw_norm. rewrite ?Hk, ?Hr. cbn [Ascii.eqb negb].
  change (Ascii.eqb NUL NUL) with true. cbv iota. fw_norm. rewrite ?Hk, ?Hr.
  repeat (fw_case; fw_norm; rewrite ?Hk, ?Hr);
    intros ->; eexists; (split; [reflexivity|]); fw_norm;
    repeat split; assumption.
Qed.

(** Run the [Check_Auth] call the goal is stuck on, nothing being presented. *)
Ltac silent_run :=
  match goal with
  | |- context [Check_Auth ?W] =>
    let w2 := fresh "w2" in
    let E := fresh "E" in
    destruct (Check_Auth_silent W)
      as (w2 & E & Fs & Ft & Fk & Fr & Fc & Fg & Fp & Fd);
    [fw_norm; assumption | fw_norm; assumption |];
    rewrite E; clear E;
    revert Fs Ft Fc Fg Fp Fd; fw_norm; intros Fs Ft Fc Fg Fp Fd;
    rewrite ?Fs, ?Ft; fw_consts; fw_norm
  end.

Ltac silent_close :=
  fw_norm;
  repeat match goal with
  | H : sec ?x = _ |- context [sec ?x] => rewrite H
  | H : g_systemTick ?x = _ |- context [g_systemTick ?x] => rewrite H
  | H : chip ?x = _ |- context [chip ?x] => rewrite H
  | H : g_cachedConfig ?x = _ |- context [g_cachedConfig ?x] => rewrite H
  | H : servo_duties (trace ?x) = _ |- context [servo_duties (trace ?x)] =>
      rewrite H
  end;
  fw_norm; fw_known;
  repeat split; try assumption; try reflexivity.

Lemma case_STATE_ENTRY_DELAY_silent w :
  g_pressed_key (kp w) = NUL -> g_last_valid_result (rf w) = 0 ->
  let w' := exec case_STATE_ENTRY_DELAY w in
  let expired :=
    ENTRY_DELAY_MS <=? wrap32 (g_systemTick w - stateEntryTime (sec w)) in
  currentState (sec w') =
    (if expired then STATE_TRIGGERED else currentState (sec w)) /\
  alarmVolume (sec w') =
    (if expired then INITIAL_VOLUME else alarmVolume (sec w)) /\
  stateEntryTime (sec w') = stateEntryTime (sec w) /\
  failedAttempts (sec w') = failedAttempts (sec w) /\
  g_systemTick w' = g_systemTick w /\
  g_pressed_key (kp w') = NUL /\ g_last_valid_result (rf w') = 0 /\
  chip w' = chip w /\ g_cachedConfig w' = g_cachedConfig w /\
  servo_duties (trace w') = servo_duties (trace w).
Proof.
  intros Hk Hr. cbv zeta.
  unfold exec, case_STATE_ENTRY_DELAY. autounfold with fw; fw_norm.
  repeat (fw_case; fw_norm); silent_run; silent_close.
Qed.

Lemma case_STATE_TRIGGERED_silent w :
  g_pressed_key (kp w) = NUL -> g_last_valid_result (rf w) = 0 ->
  let w' := exec case_STATE_TRIGGERED w in
  currentState (sec w') = currentState (sec w) /\
  alarmVolume (sec w') = alarmVolume (sec w) /\
  failedAttempts (sec w') = failedAttempts (sec w) /\
  g_systemTick w' = g_systemTick w /\
  g_pressed_key (kp w') = NUL /\ g_last_valid_result (rf w') = 0 /\
  chip w' = chip w /\ g_cachedConfig w' = g_cachedConfig w /\
  servo_duties (trace w') = servo_duties (trace w).
Proof.
  intros Hk Hr. cbv zeta.
  unfold exec, case_STATE_TRIGGERED. autounfold with fw; fw_norm.
  repeat (fw_case; fw_norm); silent_run; silent_close.
Qed.

Lemma case_STATE_ARMED_silent w :
  g_pressed_key (kp w) = NUL -> g_last_valid_result (rf w) = 0 ->
  let w' := exec case_STATE_ARMED w in
  currentState (sec w') =
    (if g_pirDetected w then STATE_ENTRY_DELAY else currentState (sec w)) /\
  stateEntryTime (sec w') =
    (if g_pirDetected w then g_systemTick w else stateEntryTime (sec w)) /\
  alarmVolume (sec w') = alarmVolume (sec w) /\
  failedAttempts (sec w') = failedAttempts (sec w) /\
  g_pirDetected w' = false /\
  g_systemTick w' = g_systemTick w /\
  g_pressed_key (kp w') = NUL /\ g_last_valid_result (rf w') = 0 /\
  chip w' = chip w /\ g_cachedConfig w' = g_cachedConfig w /\
  servo_duties (trace w') =
    (if g_pirDetected w then [SERVO_CLOSE_DUTY] else []) ++ servo_duties (trace w).
Proof.
  intros Hk Hr. cbv zeta. unfold exec.
  set (r := case_STATE_ARMED w).
  assert (E : r = case_STATE_ARMED w) by reflexivity. clearbody r.
  revert E. unfold case_STATE_ARMED, Keypad_CheckPassword.
  autounfold with fw; fw_norm. rewrite ?Hk, ?Hr.
  change (Ascii.eqb NUL NUL) with true. cbn [negb]. cbv iota. fw_norm.
  rewrite ?Hk, ?Hr.
  repeat (fw_case; fw_norm; rewrite ?Hk, ?Hr); intros ->; fw_norm;
    repeat split; try assumption; try reflexivity.
Qed.

Lemma ms_with_before_silent i w :
  silent i -> no_credential w ->
  let w2 := exec (RFID_Tick (in_stack i)) (ms_with_pre i w) in
  no_credential w2 /\
  g_systemTick w2 = wrap32 (g_systemTick w + 1) /\
  sec w2 = sec w /\
  (g_pirDetected w = true -> g_pirDetected w2 = true) /\
  servo_duties (trace w2) = servo_duties (trace w).
Proof.
  intros [Hik Hic] [Hk Hq]. cbv zeta.
  assert (Hpre : quiet (ms_with_pre i w) /\ kp (ms_with_pre i w) = kp w /\
                 sec (ms_with_pre i w) = sec w /\
                 g_systemTick (ms_with_pre i w) = wrap32 (g_systemTick w + 1) /\
                 trace (ms_with_pre i w) = trace w /\
                 (g_pirDetected w = true -> g_pirDetected (ms_with_pre i w) = true)).
  { unfold ms_with_pre. rewrite Hik, Hic.
    destruct (in_motion i); repeat split; try apply Hq; auto. }
  destruct Hpre as (Q & K & S & T & Tr & P).
  destruct (RFID_Tick_quiet (in_stack i) _ Q) as (Q2 & T2 & P2 & K2 & _ & S2).
  destruct (RFID_Tick_no_servo (in_stack i) (ms_with_pre i w)) as (new & Ht & Hn).
  unfold no_credential. rewrite K2, K, T2, T, S2, S, P2, Ht, servo_duties_app,
    (servo_duties_none new Hn), Tr.
  repeat split; try assumption; apply Q2.
Qed.

Lemma ms_with_alarm t0 n i w :
  silent i ->
  STARTUP_DELAY_MS <= t0 + 1 -> t0 + (n + 1) < 2 ^ 32 -> 0 <= n ->
  g_systemTick w = t0 + n -> no_credential w -> alarm_phase t0 n w ->
  let w' := exec (ms_with i) w in
  g_systemTick w' = t0 + (n + 1) /\ no_credential w' /\
  alarm_phase t0 (n + 1) w' /\
  failedAttempts (sec w') = failedAttempts (sec w) /\
  servo_duties (trace w') =
    (if n =? 0 then [SERVO_CLOSE_DUTY] else []) ++ servo_duties (trace w).
Proof.
  intros Hi Ht0 Hmax Hn Htick Hnc Hph. cbv zeta. rewrite ms_with_steps.
  destruct (ms_with_before_silent i w Hi Hnc) as ([Hk [Hq Hr]] & B1 & B2 & B3 & B4).
  cbv zeta in *.
  set (w2 := exec (RFID_Tick (in_stack i)) (ms_with_pre i w)) in *.
  unfold STARTUP_DELAY_MS in *.
  assert (T2 : g_systemTick w2 = t0 + (n + 1)).
  { rewrite B1, Htick, wrap32_small by lia. lia. }
  assert (G : STARTUP_DELAY_MS <= g_systemTick w2)
    by (unfold STARTUP_DELAY_MS; lia).
  rewrite exec_eq, (Security_Update_dispatch w2 G), <- exec_eq.
  rewrite <- B2, <- B4. unfold alarm_phase in *. rewrite <- B2 in Hph.
  unfold no_credential, quiet.
  destruct (n =? 0) eqn:E0; zb.
  { destruct Hph as (Hs & Hp). rewrite Hs.
    pose proof (case_STATE_ARMED_silent w2 Hk Hr) as H. cbv zeta in H.
    rewrite (B3 Hp) in H.
    destruct H as (A1 & A2 & A3 & A4 & A5 & A6 & A7 & A8 & A9 & A10 & A11).
    subst n. cbn. rewrite A6, A9, T2, A2, T2.
    repeat split; try assumption; try lia. }
  destruct (n + 1 =? 0) eqn:F0; zb; [lia|].
  destruct (n <=? 5000) eqn:E1; zb.
  { destruct Hph as (Hs & He). rewrite Hs.
    pose proof (case_STATE_ENTRY_DELAY_silent w2 Hk Hr) as H. cbv zeta in H.
    assert (El : wrap32 (g_systemTick w2 - stateEntryTime (sec w2)) = n).
    { rewrite T2, He. replace (t0 + (n + 1) - (t0 + 1)) with n by lia.
      apply wrap32_small. lia. }
    rewrite El, Hs in H. unfold ENTRY_DELAY_MS in H.
    destruct H as (A1 & A2 & A3 & A4 & A5 & A6 & A7 & A8 & A9 & A10).
    rewrite A5, A8, T2.
    destruct (n + 1 <=? 5000) eqn:F1; zb.
    - destruct (5000 <=? n) eqn:F2; zb; [lia|].
      repeat split; try assumption; congruence.
    - destruct (5000 <=? n) eqn:F2; zb; [|lia].
      repeat split; try assumption; congruence. }
  destruct Hph as (Hs & Hv). rewrite Hs.
  pose proof (case_STATE_TRIGGERED_silent w2 Hk Hr) as H. cbv zeta in H.
  destruct H as (A1 & A2 & A3 & A4 & A5 & A6 & A7 & A8 & A9).
  rewrite A4, A7, T2.
  destruct (n + 1 <=? 5000) eqn:F1; zb; [lia|].
  repeat split; try assumption; congruence.
Qed.

Lemma alarm_run t0 w :
  g_systemTick w = t0 -> no_credential w -> alarm_phase t0 0 w ->
  STARTUP_DELAY_MS <= t0 + 1 ->
  forall ins,
    Forall silent ins ->
    let n := Z.of_nat (length ins) in
    let w' := exec (ms_run ins) w in
    t0 + n < 2 ^ 32 ->
    g_systemTick w' = t0 + n /\ no_credential w' /\
    alarm_phase t0 n w' /\
    failedAttempts (sec w') = failedAttempts (sec w) /\
    servo_duties (trace w') =
      (if n =? 0 then [] else [SERVO_CLOSE_DUTY]) ++ servo_duties (trace w).
Proof.
  intros Htick Hnc Hph Ht0 ins. cbv zeta.
  induction ins as [|i ins IH] using rev_ind; intros Hsil Hmax.
  - cbn [length Z.of_nat]. rewrite Z.add_0_r.
    change (exec (ms_run []) w) with w.
    split; [exact Htick|]. split; [exact Hnc|]. split; [exact Hph|].
    split; reflexivity.
  - apply Forall_app in Hsil as [Hsil Hi]. apply Forall_inv in Hi.
    rewrite length_app in *. cbn [length] in *.
    replace (Z.of_nat (length ins + 1)) with (Z.of_nat (length ins) + 1) in * by lia.
    destruct (IH Hsil) as (I1 & I2 & I3 & I4 & I5); [lia|].
    rewrite ms_run_snoc.
    pose proof (ms_with_alarm t0 (Z.of_nat (length ins)) i
                  (exec (ms_run ins) w) Hi Ht0 Hmax ltac:(lia) I1 I2 I3) as H.
    cbv zeta in H. destruct H as (S1 & S2 & S3 & S4 & S5).
    split; [exact S1|]. split; [exact S2|]. split; [exact S3|].
    split; [congruence|]. rewrite S5, I5.
    destruct (Z.of_nat (length ins) =? 0) eqn:E0; zb.
    + destruct (Z.of_nat (length ins) + 1 =? 0) eqn:E1; zb; [lia|]. reflexivity.
    + destruct (Z.of_nat (length ins) + 1 =? 0) eqn:E1; zb; [lia|]. reflexivity.
Qed.

(** X16. Counted in passes of the super loop, in a run with one pass per
    tick interrupt and the tick at rest within a pass: motion is flagged
    while Armed; no key is pending, no card event is pending and no answer
    waits in the reader; no key arrives and the reader's registers do not
    change during the run; the tick counter is past the start-up delay at
    the first pass and does not wrap during the run.  Then the first pass
    commands the lock closed and starts the entry delay, the state is
    EntryDelay after each of the first 5000 passes and Triggered after
    every later one, with the alarm volume at its initial value: the alarm
    does not end by itself.  The failed-attempt counter stays and the servo
    gets no other command. *)
Theorem alarm_after_motion w ins :
  currentState (sec w) = STATE_ARMED ->
  g_pirDetected w = true ->
  no_credential w ->
  Forall silent ins ->
  STARTUP_DELAY_MS <= g_systemTick w + 1 ->
  let n := Z.of_nat (length ins) in
  let w' := exec (ms_run ins) w in
  1 <= n -> g_systemTick w + n < 2 ^ 32 ->
  currentState (sec w') =
    (if n <=? 5000 then STATE_ENTRY_DELAY else STATE_TRIGGERED) /\
  (5000 < n -> alarmVolume (sec w') = INITIAL_VOLUME) /\
  failedAttempts (sec w') = failedAttempts (sec w) /\
  servo_duties (trace w') = SERVO_CLOSE_DUTY :: servo_duties (trace w).
Proof.
  intros Hs Hp Hnc Hsil Ht0. cbv zeta. intros Hn Hmax.
  assert (Hph : alarm_phase (g_systemTick w) 0 w) by (split; assumption).
  pose proof (alarm_run (g_systemTick w) w eq_refl Hnc Hph Ht0 ins Hsil) as H.
  cbv zeta in H. destruct (H Hmax) as (_ & _ & R3 & R4 & R5).
  unfold alarm_phase in R3.
  destruct (Z.of_nat (length ins) =? 0) eqn:E0; zb; [lia|].
  rewrite R5. split; [|split; [|split; [exact R4|reflexivity]]].
  - destruct (Z.of_nat (length ins) <=? 5000); tauto.
  - intros Hlate. destruct (Z.of_nat (length ins) <=? 5000) eqn:E1; zb; [lia|].
    tauto.
Qed.

Lemma alarm_after_motion_witness :
  currentState (sec (exec (ms_run (replicate (Z.to_nat 5000) still_moving))
                          motion_seen)) = STATE_ENTRY_DELAY /\
  currentState (sec (exec (ms_run (replicate (Z.to_nat 5001) still_moving))
                          motion_seen)) = STATE_TRIGGERED.
Proof.
  assert (Hsil : forall k, Forall silent (replicate k still_moving)).
  { intros k. apply Forall_replicate. split; reflexivity. }
  assert (Hnc : no_credential motion_seen).
  { split; [|split]; vm_compute; reflexivity. }
  split.
  - pose proof (alarm_after_motion motion_seen
                  (replicate (Z.to_nat 5000) still_moving)
                  ltac:(vm_compute; reflexivity) ltac:(vm_compute; reflexivity)
                  Hnc (Hsil _) ltac:(vm_compute; discriminate)) as H.
    cbv zeta in H. rewrite length_replicate, Z2Nat.id in H by lia.
    destruct H as (H1 & _); [lia | vm_compute; reflexivity | exact H1].
  - pose proof (alarm_after_motion motion_seen
                  (replicate (Z.to_nat 5001) still_moving)
                  ltac:(vm_compute; reflexivity) ltac:(vm_compute; reflexivity)
                  Hnc (Hsil _) ltac:(vm_compute; discriminate)) as H.
    cbv zeta in H. rewrite length_replicate, Z2Nat.id in H by lia.
    destruct H as (H1 & _); [lia | vm_compute; reflexivity | exact H1].
Defined.

(* ---------------------------------------------------------------------- *)
(** ** The card reader *)
(* ---------------------------------------------------------------------- *)

Lemma lor_disjoint x y k :
  0 <= k -> 0 <= y < 2 ^ k -> x mod 2 ^ k = 0 -> Z.lor x y = x + y.
Proof.
  intros Hk Hy Hx.
  assert (Hl : Z.land x y = 0).
  { apply Z.bits_inj'. intros m Hm. rewrite Z.land_spec, Z.bits_0.
    destruct (Z_lt_le_dec m k) as [Hlt|Hge].
    - rewrite <- (Z.mod_pow2_bits_low x k m Hlt), Hx, Z.bits_0. reflexivity.
    - rewrite <- (Z.mod_small y (2 ^ k)) by exact Hy.
      rewrite Z.mod_pow2_bits_high by lia. apply andb_false_r. }
  pose proof (Z.add_lor_land x y) as H. rewrite Hl in H. lia.
Qed.

Lemma RFID_GetLastUID_number w :
  uid_bytes (g_last_uid (rf w)) ->
  eval RFID_GetLastUID w = uid_number (g_last_uid (rf w)).
Proof.
  intros Hb. unfold eval, RFID_GetLastUID, bind, gets, ret. cbn [fst].
  set (u := g_last_uid (rf w)) in *. unfold uid_number.
  pose proof (Hb 0%nat ltac:(lia)) as H0. pose proof (Hb 1%nat ltac:(lia)) as H1.
  pose proof (Hb 2%nat ltac:(lia)) as H2. pose proof (Hb 3%nat ltac:(lia)) as H3.
  rewrite !Z.shiftl_mul_pow2 by lia.
  rewrite (lor_disjoint (at_ u 0 * 2 ^ 24) (at_ u 1 * 2 ^ 16) 24);
    [|lia|lia|apply Z.mod_mul; lia].
  rewrite (lor_disjoint _ (at_ u 2 * 2 ^ 8) 16); [|lia|lia|].
  2:{ replace (at_ u 0 * 2 ^ 24 + at_ u 1 * 2 ^ 16)
        with ((at_ u 0 * 2 ^ 8 + at_ u 1) * 2 ^ 16) by lia.
      apply Z.mod_mul. lia. }
  rewrite (lor_disjoint _ (at_ u 3) 8); [|lia|lia|].
  2:{ replace (at_ u 0 * 2 ^ 24 + at_ u 1 * 2 ^ 16 + at_ u 2 * 2 ^ 8)
        with ((at_ u 0 * 2 ^ 16 + at_ u 1 * 2 ^ 8 + at_ u 2) * 2 ^ 8) by lia.
      apply Z.mod_mul. lia. }
  apply wrap32_small. lia.
Qed.

(** X17. [RFID_GetLastUID] packs the four latched bytes most significant
    first; two latched identifiers give the same number only when their four
    bytes agree; and the number is 0, the value the table uses for a free
    slot, only for the all-zero identifier. *)
Theorem RFID_GetLastUID_packs w :
  uid_bytes (g_last_uid (rf w)) ->
  let u := g_last_uid (rf w) in
  eval RFID_GetLastUID w
    = at_ u 0 * 2 ^ 24 + at_ u 1 * 2 ^ 16 + at_ u 2 * 2 ^ 8 + at_ u 3 /\
  0 <= eval RFID_GetLastUID w < 2 ^ 32 /\
  (forall w',
     uid_bytes (g_last_uid (rf w')) ->
     eval RFID_GetLastUID w' = eval RFID_GetLastUID w ->
     forall i, (i < 4)%nat -> at_ (g_last_uid (rf w')) i = at_ u i) /\
  (eval RFID_GetLastUID w = 0 <-> forall i, (i < 4)%nat -> at_ u i = 0).
Proof.
  intros Hb. cbv zeta. rewrite (RFID_GetLastUID_number w Hb).
  set (u := g_last_uid (rf w)) in *.
  pose proof (Hb 0%nat ltac:(lia)) as H0. pose proof (Hb 1%nat ltac:(lia)) as H1.
  pose proof (Hb 2%nat ltac:(lia)) as H2. pose proof (Hb 3%nat ltac:(lia)) as H3.
  unfold uid_number. split; [reflexivity|]. split; [lia|]. split.
  - intros w' Hb' E. rewrite (RFID_GetLastUID_number w' Hb') in E.
    set (v := g_last_uid (rf w')) in *. unfold uid_number in E.
    pose proof (Hb' 0%nat ltac:(lia)) as G0. pose proof (Hb' 1%nat ltac:(lia)) as G1.
    pose proof (Hb' 2%nat ltac:(lia)) as G2. pose proof (Hb' 3%nat ltac:(lia)) as G3.
    intros i Hi.
    destruct i as [|[|[|[|]]]]; try lia.
  - split.
    + intros E i Hi. destruct i as [|[|[|[|]]]]; try lia.
    + intros Hz. rewrite (Hz 0%nat), (Hz 1%nat), (Hz 2%nat), (Hz 3%nat) by lia.
      reflexivity.
Qed.

Lemma RFID_GetLastUID_packs_witness :
  eval RFID_GetLastUID (unlisted_card booted) = 0xDEADBEEF.
Proof.
  assert (Hb : uid_bytes (g_last_uid (rf (unlisted_card booted)))).
  { intros i Hi. destruct i as [|[|[|[|]]]]; try lia; vm_compute; split; congruence. }
  destruct (RFID_GetLastUID_packs (unlisted_card booted) Hb) as (H & _).
  rewrite H. vm_compute. reflexivity.
Defined.

#[local] Hint Unfold Read_FIFOData Start_Transceive : fw.

Lemma RFID_Tick_answer uid0 w b0 b1 b2 b3 c more :
  answer_ready w b0 b1 b2 b3 c more ->
  length uid0 = 5%nat ->
  let w' := exec (RFID_Tick uid0) w in
  let last := g_last_uid (rf w) in
  let same := (b0 =? at_ last 0) && ((b1 =? at_ last 1) &&
              ((b2 =? at_ last 2) && ((b3 =? at_ last 3) && true))) in
  let ok := Z.lxor (Z.lxor (Z.lxor (Z.lxor 0 b0) b1) b2) b3 =? c in
  g_rfidState (rf w') = RFID_IDLE /\
  g_rfid_timer (rf w') = g_rfid_timer (rf w) /\
  g_next_scan_time (rf w') = g_next_scan_time (rf w) /\
  g_last_valid_result (rf w') =
    (if ok && negb same then 1 else g_last_valid_result (rf w)) /\
  g_last_uid (rf w') =
    (if ok && negb same then [b0; b1; b2; b3; c] ++ drop 5 last else last) /\
  g_last_uid_time (rf w') =
    (if ok && negb same then g_systemTick w else g_last_uid_time (rf w)) /\
  trace w' =
    (if ok then
       O_Transceive [PCD_HALT; 0]
         :: (if same then []
             else [O_Uart "[ACCESS] Card Scanned: [%02X %02X %02X %02X]"
                          [b0; b1; b2; b3]])
     else []) ++ trace w.
Proof.
  intros (Hst & Hfresh & Hirq & Herr & Hfifo & Hmore) Hstack. cbv zeta.
  destruct uid0 as [|x0 [|x1 [|x2 [|x3 [|x4 [|]]]]]]; try discriminate.
  apply Z.ltb_lt in Hfresh. apply Z.eqb_neq in Hirq. apply Z.eqb_eq in Herr.
  assert (Hlate : (25 <=? wrap32 (g_systemTick w - g_rfid_timer (rf w))) = false).
  { zb. apply Z.leb_gt. exact Hfresh. }
  assert (Hnn : (if 5 <? wrap8 (Z.of_nat (length (fifo (chip w))))
                 then 5 else wrap8 (Z.of_nat (length (fifo (chip w))))) = 5).
  { rewrite Hfifo. cbn [length]. rewrite wrap8_small by lia.
    destruct (5 <? _) eqn:E; zb; lia. }
  unfold exec. set (r := RFID_Tick _ w).
  assert (E : r = RFID_Tick [x0; x1; x2; x3; x4] w) by reflexivity. clearbody r.
  revert E. unfold RFID_Tick. autounfold with fw; fw_norm.
  rewrite Hst, Hlate. fw_norm. rewrite Hirq. cbn [negb]. fw_norm.
  rewrite Herr. fw_norm. rewrite Hnn.
  change (Z.to_nat 5) with 5%nat. cbn [read_uid].
  autounfold with fw; fw_norm. rewrite Hfifo.
  cbn [head tail default from_option id insert list_insert at_ lookup
       list_lookup forallb take firstn].
  repeat (fw_case; fw_norm); intros ->; fw_norm;
    cbn [andb negb app]; repeat split; reflexivity.
Qed.

(** X18. What [RFID_Tick] does with an answer to the anticollision command.
    A bad checksum drops it: no event, the latched identifier stays, no halt
    is sent.  A good one whose four bytes equal the latched ones raises no
    event; any other is latched with the current tick, raises the event and
    is reported.  In each case the state machine is idle again. *)
Theorem RFID_Tick_latches uid0 w b0 b1 b2 b3 c more :
  answer_ready w b0 b1 b2 b3 c more ->
  length uid0 = 5%nat ->
  let w' := exec (RFID_Tick uid0) w in
  let last := g_last_uid (rf w) in
  let check := Z.lxor (Z.lxor (Z.lxor b0 b1) b2) b3 in
  let same := b0 = at_ last 0 /\ b1 = at_ last 1 /\
              b2 = at_ last 2 /\ b3 = at_ last 3 in
  g_rfidState (rf w') = RFID_IDLE /\
  (check <> c ->
   g_last_valid_result (rf w') = g_last_valid_result (rf w) /\
   g_last_uid (rf w') = last /\ trace w' = trace w) /\
  (check = c -> same ->
   g_last_valid_result (rf w') = g_last_valid_result (rf w) /\
   g_last_uid (rf w') = last /\
   g_last_uid_time (rf w') = g_last_uid_time (rf w) /\
   trace w' = O_Transceive [PCD_HALT; 0] :: trace w) /\
  (check = c -> ~ same ->
   g_last_valid_result (rf w') = 1 /\
   g_last_uid (rf w') = [b0; b1; b2; b3; c] ++ drop 5 last /\
   g_last_uid_time (rf w') = g_systemTick w /\
   trace w' = O_Transceive [PCD_HALT; 0]
                :: O_Uart "[ACCESS] Card Scanned: [%02X %02X %02X %02X]"
                          [b0; b1; b2; b3]
                :: trace w).
Proof.
  intros Hready Hstack. cbv zeta.
  pose proof (RFID_Tick_answer uid0 w b0 b1 b2 b3 c more Hready Hstack) as H.
  cbv zeta in H. destruct H as (H1 & _ & _ & H4 & H5 & H6 & H7).
  replace (Z.lxor 0 b0) with b0 in * by (symmetry; apply Z.lxor_0_l).
  split; [exact H1|]. split; [|split].
  - intros Hc. apply Z.eqb_neq in Hc. rewrite Hc in *. cbn [andb] in *.
    repeat split; assumption.
  - intros Hc (S0 & S1 & S2 & S3). apply Z.eqb_eq in Hc. rewrite Hc in *.
    apply Z.eqb_eq in S0, S1, S2, S3. rewrite S0, S1, S2, S3 in *.
    cbn [andb negb] in *. repeat split; assumption.
  - intros Hc Hns. apply Z.eqb_eq in Hc. rewrite Hc in *.
    destruct ((b0 =? _) && _) eqn:Es.
    + exfalso. apply Hns. rewrite !andb_true_iff in Es.
      destruct Es as (S0 & S1 & S2 & S3 & _). zb. auto.
    + cbn [andb negb] in *. repeat split; assumption.
Qed.

(** The identifier DE AD BE EF with its checksum 22 is latched; with the
    checksum 23 it is dropped. *)
Lemma RFID_Tick_latches_witness :
  g_last_valid_result (rf (exec (RFID_Tick (replicate 5 0)) (answering 0x22))) = 1 /\
  g_last_valid_result (rf (exec (RFID_Tick (replicate 5 0)) (answering 0x23))) = 0.
Proof.
  assert (Hr : forall c, answer_ready (answering c) 0xDE 0xAD 0xBE 0xEF c []).
  { intros c. repeat split; try reflexivity; [discriminate | cbn; lia]. }
  split.
  - destruct (RFID_Tick_latches (replicate 5 0) (answering 0x22) _ _ _ _ _ _
                (Hr 0x22) eq_refl) as (_ & _ & _ & H).
    destruct H as (H & _); [reflexivity | vm_compute; intuition discriminate |].
    exact H.
  - destruct (RFID_Tick_latches (replicate 5 0) (answering 0x23) _ _ _ _ _ _
                (Hr 0x23) eq_refl) as (_ & H & _).
    destruct H as (H & _); [discriminate|]. rewrite H. reflexivity.
Defined.

(* ---------------------------------------------------------------------- *)
(** ** The reader's state machine cannot hang *)
(* ---------------------------------------------------------------------- *)

Lemma finally_idle (X : unit * World) :
  g_rfidState (rf (snd (let '(_, w') := X in
                        (tt, upd_rf (set_g_rfidState RFID_IDLE) w')))) = RFID_IDLE.
Proof. destruct X as [[] w']. reflexivity. Qed.

Lemma RFID_Tick_waiting stack w :
  let w' := exec (RFID_Tick stack) w in
  let fresh := wrap32 (g_systemTick w - g_rfid_timer (rf w)) < 25 in
  match g_rfidState (rf w) with
  | RFID_IDLE => True
  | RFID_HALT_SENT => g_rfidState (rf w') = RFID_IDLE
  | RFID_ANTICOLL_SENT =>
    g_rfidState (rf w') = RFID_IDLE \/ (rf w' = rf w /\ fresh)
  | RFID_REQ_SENT =>
    g_rfidState (rf w') = RFID_IDLE \/ (rf w' = rf w /\ fresh) \/
    (g_rfidState (rf w') = RFID_ANTICOLL_SENT /\
     g_rfid_timer (rf w') = g_systemTick w)
  end.
Proof.
  cbv zeta. unfold exec. set (r := RFID_Tick _ w).
  assert (E : r = RFID_Tick stack w) by reflexivity. clearbody r.
  revert E. unfold RFID_Tick. autounfold with fw; fw_norm.
  destruct (g_rfidState (rf w)) eqn:Hst; [trivial| | |intros ->; reflexivity].
  - fw_case; fw_norm; [intros ->; left; reflexivity|].
    fw_case; fw_norm; [intros ->; right; left; split; [reflexivity|zb; lia]|].
    fw_case; fw_norm; intros ->; [right; right; split|left]; reflexivity.
  - fw_case; fw_norm; [intros ->; left; reflexivity|].
    fw_case; fw_norm; [intros ->; right; split; [reflexivity|zb; lia]|].
    fw_case; fw_norm; intros ->; left; [apply finally_idle|reflexivity].
Qed.

Lemma wrap32_succ t s :
  wrap32 (wrap32 (t + 1) - s) = wrap32 (wrap32 (t - s) + 1).
Proof.
  unfold wrap32. rewrite Zminus_mod_idemp_l, Zplus_mod_idemp_l. f_equal. lia.
Qed.

Lemma wrap32_range z : 0 <= wrap32 z < 2 ^ 32.
Proof. unfold wrap32. apply Z.mod_pos_bound. lia. Qed.

Lemma reader_patience_range w :
  0 <= reader_patience w <= 52 /\
  (reader_patience w = 0 -> g_rfidState (rf w) = RFID_IDLE).
Proof.
  unfold reader_patience.
  pose proof (wrap32_range (g_systemTick w - g_rfid_timer (rf w))).
  destruct (g_rfidState (rf w)); split; try lia; auto; intros; lia.
Qed.

Lemma reader_ms_exec e w :
  exec (reader_ms e) w
    = upd_tick (fun t => wrap32 (t + 1))
        (exec (RFID_Tick (snd e)) (upd_chip (fun _ => fst e) w)).
Proof.
  unfold exec, reader_ms, bind, modify, PIT_IRQHandler. cbn [fst snd].
  destruct (RFID_Tick _ _) as [[] w1]. reflexivity.
Qed.

(** Away from idle, every millisecond uses up patience. *)
Lemma reader_ms_patience e w :
  g_rfidState (rf w) <> RFID_IDLE ->
  reader_patience (exec (reader_ms e) w) < reader_patience w.
Proof.
  intros Hst. rewrite reader_ms_exec.
  set (w0 := upd_chip (fun _ => fst e) w).
  pose proof (RFID_Tick_waiting (snd e) w0) as H. cbv zeta in H.
  pose proof (RFID_Tick_keeps (snd e) w0) as K. unfold beside_reader in K.
  injection K as K1 _ _ _ _ _.
  change (rf w0) with (rf w) in H. change (g_systemTick w0) with (g_systemTick w) in *.
  set (w1 := exec (RFID_Tick (snd e)) w0) in *.
  unfold reader_patience. fw_norm. rewrite K1.
  pose proof (wrap32_range (g_systemTick w - g_rfid_timer (rf w))) as R.
  pose proof (wrap32_range (wrap32 (g_systemTick w + 1) - g_rfid_timer (rf w1))) as R1.
  destruct (g_rfidState (rf w)) eqn:Hs; [contradiction| | |].
  - (* a request in flight *)
    destruct H as [H|[[H F]|[H T]]].
    + rewrite H. lia.
    + rewrite H, Hs, wrap32_succ.
      rewrite (wrap32_small (wrap32 _ + 1)) by lia. lia.
    + rewrite H, T, wrap32_succ, Z.sub_diag.
      change (wrap32 (wrap32 0 + 1)) with 1. lia.
  - (* an anticollision in flight *)
    destruct H as [H|[H F]].
    + rewrite H. lia.
    + rewrite H, Hs, wrap32_succ.
      rewrite (wrap32_small (wrap32 _ + 1)) by lia. lia.
  - rewrite H. lia.
Qed.

Lemma reader_run_cons e es w :
  exec (reader_run (e :: es)) w = exec (reader_run es) (exec (reader_ms e) w).
Proof.
  rewrite !exec_eq. cbn [reader_run]. unfold bind.
  destruct (reader_ms e w) as [[] w1]. reflexivity.
Qed.

Lemma reader_idle_within n : forall w es,
  reader_patience w <= Z.of_nat n -> (n <= length es)%nat ->
  exists k, (k <= n)%nat /\
    g_rfidState (rf (exec (reader_run (take k es)) w)) = RFID_IDLE.
Proof.
  induction n as [|n IH]; intros w es Hp Hlen.
  - exists 0%nat. split; [lia|]. apply reader_patience_range.
    change (reader_patience w = 0).
    pose proof (reader_patience_range w). lia.
  - assert (g_rfidState (rf w) = RFID_IDLE \/ g_rfidState (rf w) <> RFID_IDLE)
      as [Hi|Hni] by (destruct (g_rfidState (rf w)); auto; right; discriminate).
    + exists 0%nat. split; [lia|exact Hi].
    + destruct es as [|e es]; [cbn in Hlen; lia|].
      pose proof (reader_ms_patience e w Hni) as Hlt.
      destruct (IH (exec (reader_ms e) w) es) as (k & Hk & Hidle);
        [lia | cbn in Hlen; lia |].
      exists (S k). split; [lia|]. cbn [take]. rewrite reader_run_cons. exact Hidle.
Qed.

(** X19. The reader's state machine cannot hang: from any state, whatever the
    reader answers or fails to answer, within 52 ms of [RFID_Tick] calls
    with the tick counter running the state is idle again. *)
Theorem RFID_Tick_returns_to_idle w es :
  (52 <= length es)%nat ->
  exists k, (k <= 52)%nat /\
    g_rfidState (rf (exec (reader_run (take k es)) w)) = RFID_IDLE.
Proof.
  intros Hlen. apply reader_idle_within; [|exact Hlen].
  pose proof (reader_patience_range w). lia.
Qed.

Lemma RFID_Tick_returns_to_idle_witness :
  g_rfidState (rf (answering 0x22)) = RFID_ANTICOLL_SENT /\
  exists k, (k <= 52)%nat /\
    g_rfidState (rf (exec (reader_run (take k (replicate 52 (chip_idle, []))))
                       (answering 0x22))) = RFID_IDLE.
Proof.
  split; [reflexivity|].
  apply (RFID_Tick_returns_to_idle (answering 0x22) (replicate 52 (chip_idle, []))).
  rewrite length_replicate. lia.
Defined.

(* ---------------------------------------------------------------------- *)
(** ** From the reader's answer to the verdict *)
(* ---------------------------------------------------------------------- *)

Lemma Keypad_CheckPassword_no_key w :
  g_pressed_key (kp w) = NUL ->
  eval Keypad_CheckPassword w = 0.
Proof.
  intros Hk. unfold eval, Keypad_CheckPassword.
  autounfold with fw; fw_norm.
  destruct ((0 <? kp_index (kp w)) && _); fw_norm; rewrite Hk;
    cbn [Ascii.eqb Bool.eqb NUL Ascii.zero negb]; fw_norm;
    cbn [Ascii.eqb Bool.eqb]; fw_norm; reflexivity.
Qed.

Lemma Check_Auth_card w :
  g_pressed_key (kp w) = NUL ->
  0 < g_last_valid_result (rf w) ->
  eval Check_Auth w =
    (if uid_listed (authorized_uids (g_cachedConfig w)) (eval RFID_GetLastUID w)
     then AUTH_VALID else AUTH_INVALID).
Proof.
  intros Hk Hres. rewrite eval_eq.
  set (r := Check_Auth w).
  assert (E : r = Check_Auth w) by reflexivity. clearbody r.
  unfold Check_Auth, bind at 1 in E.
  pose proof (Keypad_CheckPassword_frame w) as F. cbv zeta in F.
  pose proof (Keypad_CheckPassword_no_key w Hk) as K.
  rewrite exec_eq in F. rewrite eval_eq in K.
  destruct (Keypad_CheckPassword w) as [k w1]. cbn [fst snd] in F, K. subst k.
  destruct F as (_ & _ & Fr & _ & Fc & _).
  apply Z.ltb_lt in Hres.
  revert E. unfold RFID_CheckScan, RFID_GetLastScanResult, RFID_GetLastUID,
    Storage_GetConfig, UART_Printf, emit, setR, bind, gets, modify, ret, eval.
  fw_norm. rewrite Fr, Hres. fw_norm. rewrite ?Fr, Fc.
  destruct (uid_listed _ _); intros ->; reflexivity.
Qed.

(** X20. A card answering the reader is judged by the table alone: with no key
    pending, the pass of [Check_Auth] that follows the [RFID_Tick] reading a
    new card's answer returns valid when the four bytes, packed most
    significant first, are in the authorized table, and invalid otherwise;
    and the event is consumed. *)
Theorem presented_card_verdict uid0 w b0 b1 b2 b3 more :
  answer_ready w b0 b1 b2 b3 (Z.lxor (Z.lxor (Z.lxor b0 b1) b2) b3) more ->
  length uid0 = 5%nat ->
  uid_bytes [b0; b1; b2; b3] ->
  [b0; b1; b2; b3] <> map (at_ (g_last_uid (rf w))) [0; 1; 2; 3]%nat ->
  g_pressed_key (kp w) = NUL ->
  let w' := exec (RFID_Tick uid0) w in
  eval Check_Auth w' =
    (if uid_listed (authorized_uids (g_cachedConfig w)) (uid_number [b0; b1; b2; b3])
     then AUTH_VALID else AUTH_INVALID) /\
  g_last_valid_result (rf (exec Check_Auth w')) = 0.
Proof.
  intros Hready Hstack Hb Hnew Hk. cbv zeta.
  pose proof (RFID_Tick_answer uid0 w _ _ _ _ _ _ Hready Hstack) as H.
  cbv zeta in H. destruct H as (_ & _ & _ & H4 & H5 & _).
  pose proof (RFID_Tick_keeps uid0 w) as K. unfold beside_reader in K.
  injection K as _ _ Kk Kc _ _.
  replace (Z.lxor 0 b0) with b0 in * by (symmetry; apply Z.lxor_0_l).
  rewrite Z.eqb_refl in H4, H5.
  assert (Hs : (b0 =? at_ (g_last_uid (rf w)) 0) &&
               ((b1 =? at_ (g_last_uid (rf w)) 1) &&
                ((b2 =? at_ (g_last_uid (rf w)) 2) &&
                 ((b3 =? at_ (g_last_uid (rf w)) 3) && true))) = false).
  { apply not_true_is_false. intros Es. apply Hnew.
    rewrite !andb_true_iff in Es. destruct Es as (S0 & S1 & S2 & S3 & _).
    zb. cbn [map]. congruence. }
  rewrite Hs in H4, H5. cbn [andb negb] in H4, H5.
  set (w' := exec (RFID_Tick uid0) w) in *.
  split; [|apply Check_Auth_frame].
  rewrite Check_Auth_card; [|rewrite Kk; exact Hk|rewrite H4; lia].
  rewrite Kc, RFID_GetLastUID_number.
  - rewrite H5. reflexivity.
  - rewrite H5. intros i Hi. specialize (Hb i Hi).
    destruct i as [|[|[|[|]]]]; try lia; exact Hb.
Qed.

(** The card DE AD BE EF at a reader whose table is empty is refused. *)
Lemma presented_card_verdict_witness :
  eval Check_Auth (exec (RFID_Tick (replicate 5 0)) (answering 0x22)) = AUTH_INVALID.
Proof.
  destruct (presented_card_verdict (replicate 5 0) (answering 0x22)
              0xDE 0xAD 0xBE 0xEF []) as (H & _).
  - repeat split; try reflexivity; [discriminate | cbn; lia].
  - reflexivity.
  - intros i Hi. destruct i as [|[|[|[|]]]]; try lia; vm_compute; split; congruence.
  - vm_compute. discriminate.
  - reflexivity.
  - rewrite H. vm_compute. reflexivity.
Defined.

(* ---------------------------------------------------------------------- *)
(** ** The entry timeout *)
(* ---------------------------------------------------------------------- *)

(** A key polled [TIMEOUT_MS] or more after the last one: the entry so far
    is discarded and the key is the first of a new entry. *)
Lemma keystroke_stale k t w :
  Ascii.eqb k NUL = false -> Ascii.eqb k "#" = false ->
  0 < kp_index (kp w) ->
  TIMEOUT_MS <= wrap32 (t - last_key_time_kp (kp w)) ->
  let w' := exec (keystroke k t) w in
  eval (keystroke k t) w = 0 /\
  g_cachedConfig w' = g_cachedConfig w /\
  last_key_time_kp (kp w') = t /\
  kp_index (kp w') = 1 /\
  kp_buffer (kp w') = <[0%nat := k]> (kp_buffer (kp w)) /\
  trace w' = O_Uart "KEY: %c" [code k] :: O_BuzzerTimeout 30
               :: O_BuzzerOn 1000 50
               :: O_Uart "[KEYPAD] TIMEOUT. Buffer Cleared." [] :: trace w.
Proof.
  intros Hk0 Hk1 Hn Hold. cbv zeta. unfold exec, eval.
  set (r := keystroke k t w).
  assert (E : r = keystroke k t w) by reflexivity. clearbody r.
  revert E. unfold keystroke, Keypad_latch, Keypad_CheckPassword.
  autounfold with fw; fw_norm. rewrite ?Hk0, ?Hk1; cbn [negb].
  apply Z.ltb_lt in Hn. apply Z.leb_le in Hold. rewrite Hn, Hold. cbn [andb].
  fw_norm. rewrite ?Hk0, ?Hk1; cbn [negb]. fw_norm.
  rewrite ?Hk0, ?Hk1; cbn [negb]. fw_norm.
  change (0 <? PASS_LEN) with true. fw_norm.
  change (wrap8 (0 + 1) =? PASS_LEN) with false. fw_norm.
  intros ->. fw_norm. change (Z.to_nat 0) with 0%nat.
  rewrite list_insert_insert_eq.
  repeat split; reflexivity.
Qed.

(** X21. The entry timeout of [Keypad_CheckPassword]: keys typed 5000 ms or
    more before the next one do not count.  Whatever part of an entry is in
    the buffer, four entry keys typed at a pace after such a pause are
    compared with the stored PIN on their own, as if the buffer had been
    empty. *)
Theorem stale_entry_restarts (q : list ascii) (t0 t1 t2 t3 : Z) w :
  length q = 4%nat -> Forall entry_key q ->
  paced [t0; t1; t2; t3] ->
  0 < kp_index (kp w) ->
  TIMEOUT_MS <= wrap32 (t0 - last_key_time_kp (kp w)) ->
  length (kp_buffer (kp w)) = 5%nat ->
  eval (submit (zip q [t0; t1; t2; t3])) w
    = [0; 0; 0; if streq (q ++ [NUL]) (door_pin (g_cachedConfig w))
                then 1 else -1].
Proof.
  intros Hq Hkeys Hpace Hidx Hold Hbuf.
  destruct q as [|q0 [|q1 [|q2 [|q3 [|]]]]]; try discriminate.
  destruct (kp_buffer (kp w)) as [|b0 [|b1 [|b2 [|b3 [|b4 [|]]]]]] eqn:Eb;
    try discriminate.
  inversion Hkeys as [|? ? K0 Hk1]; subst.
  inversion Hk1 as [|? ? K1 Hk2]; subst.
  inversion Hk2 as [|? ? K2 Hk3]; subst.
  inversion Hk3 as [|? ? K3 _]; subst.
  apply entry_key_codes in K0 as [K0 K0'], K1 as [K1 K1'],
    K2 as [K2 K2'], K3 as [K3 K3'].
  cbn [paced] in Hpace. destruct Hpace as (P1 & P2 & P3 & _).
  cbn [zip zip_with]. rewrite !submit_cons.
  (* first key: the stale entry goes *)
  destruct (keystroke_stale q0 t0 w K0 K0' Hidx Hold)
    as (R1 & C1 & L1 & I1 & B1 & _).
  set (w1 := exec (keystroke q0 t0) w) in *.
  (* second key *)
  destruct (keystroke_entry q1 t1 w1 K1 K1' ltac:(lia)
              ltac:(right; rewrite L1; exact P1))
    as (C2 & L2 & S2 & _). cbv zeta in S2.
  destruct (S2 ltac:(lia)) as (R2 & I2 & B2). rewrite I1 in I2.
  set (w2 := exec (keystroke q1 t1) w1) in *.
  (* third key *)
  destruct (keystroke_entry q2 t2 w2 K2 K2' ltac:(lia)
              ltac:(right; rewrite L2; exact P2))
    as (C3 & L3 & S3 & _). cbv zeta in S3.
  destruct (S3 ltac:(lia)) as (R3 & I3 & B3). rewrite I2 in I3.
  set (w3 := exec (keystroke q2 t2) w2) in *.
  (* fourth key *)
  destruct (keystroke_entry q3 t3 w3 K3 K3' ltac:(lia)
              ltac:(right; rewrite L3; exact P3))
    as (C4 & _ & _ & S4). cbv zeta in S4.
  destruct (S4 ltac:(lia)) as (R4 & _).
  rewrite R1, R2, R3, R4. cbn [submit eval ret fst].
  rewrite C3, C2, C1, I3, B3, I2, B2, I1, B1, Eb.
  repeat f_equal.
Qed.

(** Two keys, a pause of six seconds, then the default PIN: accepted. *)
Lemma stale_entry_restarts_witness :
  eval (submit (zip (chars "1234") [9100; 9200; 9300; 9400]))
       (exec (submit (zip (chars "99") [3000; 3100])) booted) = [0; 0; 0; 1].
Proof.
  assert (Hk : Forall entry_key (chars "1234")).
  { repeat (apply List.Forall_cons; [apply entry_key_keys; reflexivity|]).
    apply List.Forall_nil. }
  assert (Hpace : paced [9100; 9200; 9300; 9400]).
  { cbn. unfold wrap32, TIMEOUT_MS. repeat split; reflexivity. }
  exact (stale_entry_restarts (chars "1234") 9100 9200 9300 9400
           (exec (submit (zip (chars "99") [3000; 3100])) booted)
           eq_refl Hk Hpace
           ltac:(vm_compute; reflexivity)
           ltac:(vm_compute; discriminate)
           ltac:(vm_compute; reflexivity)).
Defined.

(* ---------------------------------------------------------------------- *)
(** ** The keypad scan *)
(* ---------------------------------------------------------------------- *)

Lemma key_map_at_key r c :
  0 <= r < 4 -> 0 <= c < 4 -> key_map_at r c <> NUL.
Proof.
  intros Hr Hc.
  assert (Er : r = 0 \/ r = 1 \/ r = 2 \/ r = 3) by lia.
  assert (Ec : c = 0 \/ c = 1 \/ c = 2 \/ c = 3) by lia.
  destruct Er as [->|[->|[->| ->]]], Ec as [->|[->|[->| ->]]]; discriminate.
Qed.

Lemma row_low_PSOR pdor i j :
  0 <= i < 4 -> 0 <= j < 4 ->
  row_low (Z.lor pdor (Z.shiftl 1 (ROW1_PIN + i))) j
    = row_low pdor j && negb (j =? i).
Proof.
  intros Hi Hj. unfold row_low, ROW1_PIN.
  rewrite Z.lor_spec, Z.shiftl_1_l, Z.pow2_bits_eqb by lia.
  rewrite negb_orb. f_equal. f_equal.
  destruct (Z.eqb_spec (8 + i) (8 + j)), (Z.eqb_spec j i); try reflexivity; lia.
Qed.

Lemma row_low_PCOR pdor i j :
  0 <= i < 4 -> 0 <= j < 4 ->
  row_low (Z.ldiff pdor (Z.shiftl 1 (ROW1_PIN + i))) j
    = row_low pdor j || (j =? i).
Proof.
  intros Hi Hj. unfold row_low, ROW1_PIN.
  rewrite Z.ldiff_spec, Z.shiftl_1_l, Z.pow2_bits_eqb by lia.
  rewrite negb_andb, negb_involutive. f_equal.
  destruct (Z.eqb_spec (8 + i) (8 + j)), (Z.eqb_spec j i); try reflexivity; lia.
Qed.

(** [Keypad_Tick] in its four steps. *)
Lemma Keypad_Tick_steps col_val s :
  Keypad_Tick col_val s =
    (s3 <- (if current_row (scan_read col_val s) =? 3
            then scan_settle (scan_read col_val s)
            else ret (scan_read col_val s)) ;;
     ret (scan_advance s3)).
Proof. reflexivity. Qed.

Lemma scan_detect_up row : scan_detect 0x3C row = NUL.
Proof. reflexivity. Qed.

Lemma scan_detect_low row c :
  0 <= c < 4 ->
  scan_detect (Z.ldiff 0x3C (Z.shiftl 1 (COL1_PIN + c))) row = key_map_at row c.
Proof.
  intros Hc. assert (Ec : c = 0 \/ c = 1 \/ c = 2 \/ c = 3) by lia.
  destruct Ec as [->|[->|[->| ->]]]; reflexivity.
Qed.

Lemma scan_read_fields col_val s :
  0 <= current_row s < 4 ->
  let d := scan_detect col_val (current_row s) in
  let s1 := scan_read col_val s in
  current_row s1 = current_row s /\
  stable_key_candidate s1 = stable_key_candidate s /\
  last_valid_key s1 = last_valid_key s /\
  g_stable_count s1 = g_stable_count s /\
  g_raw_key s1 = (if Ascii.eqb d NUL then g_raw_key s else d) /\
  GPIOB_PDOR s1 = Z.lor (GPIOB_PDOR s) (Z.shiftl 1 (ROW1_PIN + current_row s)).
Proof.
  intros Hrow. cbv zeta. unfold scan_read.
  fold (scan_detect col_val (current_row s)).
  assert (Ep : row_pin (current_row s) = Some (ROW1_PIN + current_row s)).
  { assert (Er : current_row s = 0 \/ current_row s = 1 \/
                 current_row s = 2 \/ current_row s = 3) by lia.
    destruct Er as [->|[->|[->| ->]]]; reflexivity. }
  rewrite Ep. destruct (Ascii.eqb _ NUL); repeat split; reflexivity.
Qed.

Lemma scan_advance_driving s pdor0 :
  0 <= current_row s < 4 ->
  (forall j, 0 <= j < 4 -> j <> current_row s -> row_low pdor0 j = false) ->
  GPIOB_PDOR s = Z.lor pdor0 (Z.shiftl 1 (ROW1_PIN + current_row s)) ->
  let s' := scan_advance s in
  driving s' /\
  current_row s' = (if current_row s =? 3 then 0 else current_row s + 1) /\
  stable_key_candidate s' = stable_key_candidate s /\
  last_valid_key s' = last_valid_key s /\
  g_stable_count s' = g_stable_count s /\
  g_raw_key s' = g_raw_key s.
Proof.
  intros Hrow Hlow Hp. cbv zeta. destruct s as [row cand lastv raw cnt pdor].
  cbn [current_row GPIOB_PDOR] in *. subst pdor.
  assert (Er : row = 0 \/ row = 1 \/ row = 2 \/ row = 3) by lia.
  assert (Hd : forall row',
    0 <= row' < 4 ->
    driving {| current_row := row'; stable_key_candidate := cand;
               last_valid_key := lastv; g_raw_key := raw; g_stable_count := cnt;
               GPIOB_PDOR :=
                 Z.ldiff (Z.lor pdor0 (Z.shiftl 1 (ROW1_PIN + row)))
                         (Z.shiftl 1 (ROW1_PIN + row')) |}).
  { intros row' Hrow'. split; [exact Hrow'|]. cbn [current_row GPIOB_PDOR].
    intros j Hj. rewrite row_low_PCOR, row_low_PSOR by lia.
    destruct (Z.eqb_spec j row) as [->|N];
      [rewrite andb_false_r|rewrite (Hlow j Hj N)]; reflexivity. }
  destruct Er as [->|[->|[->| ->]]].
  - split; [exact (Hd 1 ltac:(lia)) | repeat split; reflexivity].
  - split; [exact (Hd 2 ltac:(lia)) | repeat split; reflexivity].
  - split; [exact (Hd 3 ltac:(lia)) | repeat split; reflexivity].
  - split; [exact (Hd 0 ltac:(lia)) | repeat split; reflexivity].
Qed.

Lemma driving_settled s : driving s -> settled s.
Proof.
  intros (Hrow & Hlow). split; [exact Hrow|]. intros j Hj N.
  rewrite (Hlow j Hj). apply Z.eqb_neq. exact N.
Qed.

Lemma Keypad_Tick_step col_val s w :
  settled s ->
  let d := scan_detect col_val (current_row s) in
  let raw1 := if Ascii.eqb d NUL then g_raw_key s else d in
  let s' := eval (Keypad_Tick col_val s) w in
  let w' := exec (Keypad_Tick col_val s) w in
  driving s' /\
  (current_row s <> 3 ->
   current_row s' = current_row s + 1 /\ g_raw_key s' = raw1 /\
   stable_key_candidate s' = stable_key_candidate s /\
   last_valid_key s' = last_valid_key s /\
   g_stable_count s' = g_stable_count s /\ w' = w) /\
  (current_row s = 3 ->
   let counted := negb (Ascii.eqb raw1 NUL)
                  && Ascii.eqb raw1 (stable_key_candidate s) in
   let cand := if counted then stable_key_candidate s else raw1 in
   let count := if counted then wrap8 (g_stable_count s + 1) else 0 in
   let fire := (20 <? count) && negb (Ascii.eqb cand (last_valid_key s)) in
   current_row s' = 0 /\ g_raw_key s' = NUL /\
   stable_key_candidate s' = cand /\ g_stable_count s' = count /\
   last_valid_key s' =
     (if 20 <? count then cand
      else if Ascii.eqb raw1 NUL then NUL else last_valid_key s) /\
   w' = (if fire then upd_kp (set_g_pressed_key cand) w else w)).
Proof.
  intros (Hrow & Hlow). cbv zeta.
  rewrite eval_eq, exec_eq, Keypad_Tick_steps.
  destruct (scan_read_fields col_val s Hrow) as (F1 & F2 & F3 & F4 & F5 & F6).
  set (d := scan_detect col_val (current_row s)) in *.
  set (raw1 := if Ascii.eqb d NUL then g_raw_key s else d) in *.
  set (s1 := scan_read col_val s) in *. clearbody s1.
  destruct s1 as [row1 cand1 last1 raw1' cnt1 pdor1].
  cbn [current_row stable_key_candidate last_valid_key g_raw_key g_stable_count
       GPIOB_PDOR] in F1, F2, F3, F4, F5, F6.
  subst row1 cand1 last1 raw1' cnt1.
  assert (A : forall s3,
    current_row s3 = current_row s -> GPIOB_PDOR s3 = pdor1 ->
    driving (scan_advance s3) /\
    current_row (scan_advance s3)
      = (if current_row s =? 3 then 0 else current_row s + 1) /\
    stable_key_candidate (scan_advance s3) = stable_key_candidate s3 /\
    last_valid_key (scan_advance s3) = last_valid_key s3 /\
    g_stable_count (scan_advance s3) = g_stable_count s3 /\
    g_raw_key (scan_advance s3) = g_raw_key s3).
  { intros s3 R3 P3. rewrite <- R3.
    apply (scan_advance_driving s3 (GPIOB_PDOR s)).
    - lia.
    - rewrite R3. exact Hlow.
    - rewrite P3, F6, R3. reflexivity. }
  destruct (Z.eqb_spec (current_row s) 3) as [E3|N3].
  - cbn [current_row]. rewrite E3 in A |- *. cbn [Z.eqb Pos.eqb] in A |- *.
    unfold scan_settle, Keypad_latch, setK. unfold bind, modify, ret.
    cbn [current_row stable_key_candidate last_valid_key g_raw_key g_stable_count
       GPIOB_PDOR set_g_stable_count set_stable_key_candidate].
    destruct (negb (Ascii.eqb raw1 NUL)
              && Ascii.eqb raw1 (stable_key_candidate s)) eqn:Ec;
      cbn [current_row stable_key_candidate last_valid_key g_raw_key
           g_stable_count GPIOB_PDOR set_g_stable_count set_stable_key_candidate];
      (destruct (20 <? _) eqn:E20;
       [destruct (Ascii.eqb _ (last_valid_key s)) eqn:El
       |destruct (Ascii.eqb raw1 NUL) eqn:En]);
      cbn [negb andb fst snd set_last_valid_key set_g_raw_key
           current_row stable_key_candidate last_valid_key g_raw_key
           g_stable_count GPIOB_PDOR];
      match goal with
      | |- context [scan_advance ?s3] =>
        destruct (A s3 eq_refl eq_refl) as (D & R & C1 & C2 & C3 & C4)
      end;
      (split; [exact D|]); (split; [intros; contradiction|intros _]);
      rewrite R, C1, C2, C3, C4;
      cbn [current_row stable_key_candidate last_valid_key g_raw_key
           g_stable_count GPIOB_PDOR];
      repeat split; try reflexivity;
      cbn [last_valid_key set_g_raw_key set_g_stable_count
           set_stable_key_candidate];
      symmetry; apply Ascii.eqb_eq; exact El.
  - cbn [current_row]. rewrite (proj2 (Z.eqb_neq _ _) N3).
    unfold bind, ret. cbn [fst snd].
    match goal with
    | |- context [scan_advance ?s3] =>
      destruct (A s3 eq_refl eq_refl) as (D & R & C1 & C2 & C3 & C4)
    end.
    split; [exact D|]. split; [intros _|intros E3; contradiction].
    rewrite R, C1, C2, C3, C4. repeat split; reflexivity.
Qed.

Lemma scan_detect_held r c s :
  0 <= r < 4 -> 0 <= c < 4 -> driving s ->
  scan_detect (GPIOE_PDIR (Some (r, c)) (GPIOB_PDOR s)) (current_row s)
    = (if current_row s =? r then key_map_at r c else NUL).
Proof.
  intros Hr Hc (_ & Hlow). unfold GPIOE_PDIR. rewrite (Hlow r Hr).
  rewrite (Z.eqb_sym (current_row s) r).
  destruct (Z.eqb_spec r (current_row s)) as [<-|_].
  - apply scan_detect_low. exact Hc.
  - apply scan_detect_up.
Qed.

Lemma eqb_key_NUL r c :
  0 <= r < 4 -> 0 <= c < 4 -> Ascii.eqb (key_map_at r c) NUL = false.
Proof. intros Hr Hc. apply Ascii.eqb_neq, key_map_at_key; assumption. Qed.

Section Held.

Variables r c : Z.
Hypothesis Hr : 0 <= r < 4.
Hypothesis Hc : 0 <= c < 4.

Let K := key_map_at r c.
Let held := Some (r, c).

(** What a millisecond of the scan notes of the held key. *)
Lemma scan_ms_raw s :
  driving s ->
  g_raw_key s = (if r <? current_row s then K else NUL) ->
  let d := scan_detect (GPIOE_PDIR held (GPIOB_PDOR s)) (current_row s) in
  (if Ascii.eqb d NUL then g_raw_key s else d)
    = (if r <? current_row s + 1 then K else NUL).
Proof.
  intros Hd Hraw. cbv zeta. unfold held. rewrite scan_detect_held by assumption.
  destruct (Z.eqb_spec (current_row s) r) as [E|N].
  - fold K. unfold K at 1. rewrite eqb_key_NUL by assumption.
    destruct (Z.ltb_spec r (current_row s + 1)); [reflexivity|lia].
  - cbn [Ascii.eqb Bool.eqb NUL Ascii.zero]. rewrite Hraw.
    destruct (Z.ltb_spec r (current_row s)), (Z.ltb_spec r (current_row s + 1));
      try reflexivity; lia.
Qed.

Lemma pressing_step j i s w :
  pressing r c j i s -> 0 <= j <= 21 ->
  let s' := eval (scan_ms held s) w in
  let w' := exec (scan_ms held s) w in
  (i < 3 -> pressing r c j (i + 1) s' /\ w' = w) /\
  (i = 3 -> j < 21 -> pressing r c (j + 1) 0 s' /\ w' = w) /\
  (i = 3 -> j = 21 ->
   reported r c s' /\ current_row s' = 0 /\
   w' = upd_kp (set_g_pressed_key K) w).
Proof.
  intros (Hd & Hi & Hraw & Hlast & Hcand & Hcnt) Hj. cbv zeta.
  unfold scan_ms.
  pose proof (Keypad_Tick_step (GPIOE_PDIR held (GPIOB_PDOR s)) s w
                (driving_settled s Hd)) as H.
  cbv zeta in H. rewrite <- Hi in Hraw. rewrite (scan_ms_raw s Hd Hraw) in H.
  destruct H as (D & Hmid & Hend).
  set (s' := eval (Keypad_Tick (GPIOE_PDIR held (GPIOB_PDOR s)) s) w) in *.
  set (w' := exec (Keypad_Tick (GPIOE_PDIR held (GPIOB_PDOR s)) s) w) in *.
  clearbody s' w'. rewrite Hi in *.
  split; [|split].
  - intros Hlt. destruct (Hmid ltac:(lia)) as (R & Rw & C1 & C2 & C3 & W).
    split; [|exact W]. unfold pressing. split; [exact D|].
    rewrite R, Rw, C1, C2, C3. repeat split; assumption || reflexivity.
  - intros -> Hlt. destruct (Hend eq_refl) as (R & Rw & C1 & C3 & C2 & W).
    replace (r <? 3 + 1) with true in * by (symmetry; apply Z.ltb_lt; lia).
    fold K in Hcand. rewrite Hcand, Hcnt, Hlast in *.
    unfold K in *. rewrite (eqb_key_NUL r c Hr Hc) in *. cbn [negb andb] in *.
    destruct (Z.eqb_spec j 0) as [->|Hj0].
    + rewrite (eqb_key_NUL r c Hr Hc) in *. cbn [Z.ltb Z.compare andb] in *.
      split; [|exact W]. unfold pressing. split; [exact D|].
      rewrite R, Rw, C1, C2, C3.
      replace (r <? 0) with false by (symmetry; apply Z.ltb_ge; lia).
      repeat split; reflexivity.
    + rewrite Ascii.eqb_refl in *. rewrite wrap8_small in * by lia.
      replace (j - 1 + 1) with j in * by lia.
      replace (20 <? j) with false in * by (symmetry; apply Z.ltb_ge; lia).
      cbn [andb] in *.
      split; [|exact W]. unfold pressing. split; [exact D|].
      rewrite R, Rw, C1, C2, C3.
      replace (j + 1 =? 0) with false by (symmetry; apply Z.eqb_neq; lia).
      replace (r <? 0) with false by (symmetry; apply Z.ltb_ge; lia).
      repeat split; try reflexivity; lia.
  - intros -> ->. destruct (Hend eq_refl) as (R & Rw & C1 & C3 & C2 & W).
    replace (r <? 3 + 1) with true in * by (symmetry; apply Z.ltb_lt; lia).
    fold K in Hcand. rewrite Hcand, Hcnt, Hlast in *.
    unfold K in *. rewrite (eqb_key_NUL r c Hr Hc) in *.
    cbn [Z.eqb negb andb] in *. rewrite Ascii.eqb_refl in *.
    change (20 <? wrap8 (21 - 1 + 1)) with true in *.
    rewrite (eqb_key_NUL r c Hr Hc) in *. cbn [negb andb] in *.
    split; [|split; [exact R|exact W]].
    unfold reported. split; [exact D|]. rewrite R, Rw, C1, C2, C3.
    replace (r <? 0) with false by (symmetry; apply Z.ltb_ge; lia).
    repeat split; try reflexivity; vm_compute; congruence.
Qed.

Lemma wrap8_range z : 0 <= wrap8 z < 256.
Proof. unfold wrap8. apply Z.mod_pos_bound. lia. Qed.

Lemma reported_step s w :
  reported r c s ->
  reported r c (eval (scan_ms held s) w) /\ exec (scan_ms held s) w = w.
Proof.
  intros (Hd & Hraw & Hcand & Hlast & Hcnt). unfold scan_ms.
  pose proof (Keypad_Tick_step (GPIOE_PDIR held (GPIOB_PDOR s)) s w
                (driving_settled s Hd)) as H.
  cbv zeta in H. rewrite (scan_ms_raw s Hd Hraw) in H.
  destruct H as (D & Hmid & Hend).
  set (s' := eval (Keypad_Tick (GPIOE_PDIR held (GPIOB_PDOR s)) s) w) in *.
  set (w' := exec (Keypad_Tick (GPIOE_PDIR held (GPIOB_PDOR s)) s) w) in *.
  clearbody s' w'.
  destruct (Z.eq_dec (current_row s) 3) as [E3|N3].
  - destruct (Hend E3) as (R & Rw & C1 & C3 & C2 & W). rewrite E3 in *.
    clear Hend Hmid.
    replace (r <? 3 + 1) with true in * by (symmetry; apply Z.ltb_lt; lia).
    unfold K in *. rewrite Hcand, Hlast in *.
    rewrite (eqb_key_NUL r c Hr Hc) in *. rewrite !Ascii.eqb_refl in *.
    cbn [negb andb] in *. rewrite andb_false_r in W.
    assert (C2' : last_valid_key s' = key_map_at r c)
      by (rewrite C2; destruct (20 <? _); reflexivity).
    split; [|exact W]. unfold reported. split; [exact D|].
    rewrite R, Rw, C1, C2', C3.
    replace (r <? 0) with false by (symmetry; apply Z.ltb_ge; lia).
    repeat split; try reflexivity; apply wrap8_range.
  - destruct (Hmid N3) as (R & Rw & C1 & C2 & C3 & W).
    split; [|exact W]. unfold reported. split; [exact D|].
    rewrite R, Rw, C1, C2, C3. repeat split; assumption || reflexivity || lia.
Qed.

Lemma held_polls_cons (p : bool) (rest : list bool) s w :
  let s1 := eval (scan_ms held s) w in
  let w1 := exec (scan_ms held s) w in
  let poll := if p then Keypad_GetKeyNonBlocking else ret NUL in
  eval (held_polls held (p :: rest) s) w
    = eval poll w1 :: eval (held_polls held rest s1) (exec poll w1).
Proof.
  cbv zeta. rewrite !eval_eq, !exec_eq. cbn [held_polls]. unfold bind at 1.
  destruct (scan_ms held s w) as [s1 w1]. cbn [fst snd]. unfold bind at 1.
  destruct ((if p then Keypad_GetKeyNonBlocking else ret NUL) w1) as [k w2].
  cbn [fst snd]. unfold bind, ret.
  destruct (held_polls held rest s1 w2) as [ks w3]. reflexivity.
Qed.

Lemma poll_nothing (p : bool) w :
  g_pressed_key (kp w) = NUL ->
  let poll := if p then Keypad_GetKeyNonBlocking else ret NUL in
  eval poll w = NUL /\ exec poll w = w.
Proof.
  intros Hk. cbv zeta. destruct p; [|split; reflexivity].
  unfold eval, exec, Keypad_GetKeyNonBlocking, bind, gets, ret.
  cbn [fst snd]. rewrite Hk. split; reflexivity.
Qed.

Lemma poll_pending w :
  g_pressed_key (kp w) = K ->
  eval Keypad_GetKeyNonBlocking w = K /\
  g_pressed_key (kp (exec Keypad_GetKeyNonBlocking w)) = NUL.
Proof.
  intros Hk.
  assert (EK : Ascii.eqb K NUL = false) by (apply eqb_key_NUL; assumption).
  unfold eval, exec, Keypad_GetKeyNonBlocking, bind, gets, ret, setK, modify.
  cbn [fst snd]. rewrite Hk, EK. split; reflexivity.
Qed.

(** Reported and consumed: nothing more while the key stays down. *)
Lemma held_polls_consumed polls : forall s w,
  reported r c s -> g_pressed_key (kp w) = NUL ->
  eval (held_polls held polls s) w = map (fun _ => NUL) polls.
Proof.
  induction polls as [|p rest IH]; intros s w Hs Hk; [reflexivity|].
  rewrite held_polls_cons. destruct (reported_step s w Hs) as (Hs1 & W).
  rewrite W. destruct (poll_nothing p w Hk) as (E1 & E2).
  rewrite E1, E2. cbn [map]. f_equal. apply IH; assumption.
Qed.

(** Reported and pending: the first poll gets the key. *)
Lemma held_polls_pending polls : forall s w,
  reported r c s -> g_pressed_key (kp w) = K ->
  eval (held_polls held polls s) w = once K polls.
Proof.
  induction polls as [|p rest IH]; intros s w Hs Hk; [reflexivity|].
  rewrite held_polls_cons. destruct (reported_step s w Hs) as (Hs1 & W).
  rewrite W. destruct p.
  - destruct (poll_pending w Hk) as (E1 & E2). rewrite E1. cbn [once].
    f_equal. apply held_polls_consumed; assumption.
  - cbn [once]. change (exec (ret NUL) w) with w.
    change (eval (ret NUL) w) with NUL. f_equal. apply IH; assumption.
Qed.

(** Not yet reported: [m] more milliseconds pass in silence. *)
Lemma held_polls_pressing polls : forall (m : nat) j i s w,
  pressing r c j i s -> 0 <= j -> 0 <= i < 4 ->
  4 * j + i + Z.of_nat m = 87 ->
  g_pressed_key (kp w) = NUL ->
  eval (held_polls held polls s) w
    = map (fun _ => NUL) (take m polls) ++ once K (drop m polls).
Proof.
  induction polls as [|p rest IH]; intros m j i s w Hs Hj Hi Hm Hk.
  { rewrite take_nil, drop_nil. reflexivity. }
  rewrite held_polls_cons.
  destruct (pressing_step j i s w Hs ltac:(lia)) as (S1 & S2 & S3).
  destruct m as [|m].
  - (* the 88th millisecond *)
    assert (i = 3 /\ j = 21) as (-> & ->) by lia.
    destruct (S3 eq_refl eq_refl) as (Hrep & _ & W).
    cbn [take drop map app]. rewrite W.
    assert (Hk1 : g_pressed_key (kp (upd_kp (set_g_pressed_key K) w)) = K)
      by reflexivity.
    destruct p.
    + destruct (poll_pending _ Hk1) as (E1 & E2). rewrite E1. cbn [once].
      f_equal. apply held_polls_consumed; assumption.
    + cbn [once]. change (eval (ret NUL) ?x) with NUL.
      change (exec (ret NUL) ?x) with x. f_equal.
      apply held_polls_pending; assumption.
  - cbn [take drop map app].
    destruct (Z_lt_le_dec i 3) as [Hlt|Hge].
    + destruct (S1 Hlt) as (Hs1 & W). rewrite W.
      destruct (poll_nothing p w Hk) as (E1 & E2). rewrite E1, E2.
      f_equal. apply (IH m j (i + 1)); try assumption; lia.
    + assert (i = 3) as -> by lia.
      destruct (S2 eq_refl ltac:(lia)) as (Hs1 & W). rewrite W.
      destruct (poll_nothing p w Hk) as (E1 & E2). rewrite E1, E2.
      f_equal. apply (IH m (j + 1) 0); try assumption; lia.
Qed.

Lemma scan_run_O h s w :
  eval (scan_run h 0 s) w = s /\ exec (scan_run h 0 s) w = w.
Proof. split; reflexivity. Qed.

Lemma scan_run_S h n s w :
  eval (scan_run h (S n) s) w
    = eval (scan_run h n (eval (scan_ms h s) w)) (exec (scan_ms h s) w) /\
  exec (scan_run h (S n) s) w
    = exec (scan_run h n (eval (scan_ms h s) w)) (exec (scan_ms h s) w).
Proof.
  rewrite !eval_eq, !exec_eq. cbn [scan_run]. unfold bind.
  destruct (scan_ms h s w) as [s1 w1]. split; reflexivity.
Qed.

Lemma pressing_run (n : nat) : forall j i s w,
  pressing r c j i s -> 0 <= j -> 0 <= i < 4 ->
  4 * j + i + Z.of_nat n <= 87 ->
  exec (scan_run held n s) w = w /\
  exists j' i', 0 <= j' /\ 0 <= i' < 4 /\
    4 * j' + i' = 4 * j + i + Z.of_nat n /\
    pressing r c j' i' (eval (scan_run held n s) w).
Proof.
  induction n as [|n IH]; intros j i s w Hs Hj Hi Hn.
  { split; [reflexivity|]. exists j, i. split; [lia|split; [lia|split; [lia|exact Hs]]]. }
  destruct (scan_run_S held n s w) as (-> & ->).
  destruct (pressing_step j i s w Hs ltac:(lia)) as (S1 & S2 & _).
  destruct (Z_lt_le_dec i 3) as [Hlt|Hge].
  - destruct (S1 Hlt) as (Hs1 & W). rewrite W.
    destruct (IH j (i + 1) _ w Hs1 ltac:(lia) ltac:(lia) ltac:(lia))
      as (E & j' & i' & H1 & H2 & H3 & H4).
    split; [exact E|]. exists j', i'. split; [lia|split; [lia|split; [lia|exact H4]]].
  - assert (i = 3) as -> by lia.
    destruct (S2 eq_refl ltac:(lia)) as (Hs1 & W). rewrite W.
    destruct (IH (j + 1) 0 _ w Hs1 ltac:(lia) ltac:(lia) ltac:(lia))
      as (E & j' & i' & H1 & H2 & H3 & H4).
    split; [exact E|]. exists j', i'. split; [lia|split; [lia|split; [lia|exact H4]]].
Qed.

Lemma reported_run (n : nat) : forall s w,
  reported r c s ->
  reported r c (eval (scan_run held n s) w) /\
  exec (scan_run held n s) w = w.
Proof.
  induction n as [|n IH]; intros s w Hs; [split; [exact Hs|reflexivity]|].
  destruct (scan_run_S held n s w) as (-> & ->).
  destruct (reported_step s w Hs) as (Hs1 & W). rewrite W.
  apply IH. exact Hs1.
Qed.

End Held.

Lemma released_pressing r c s : 0 <= r -> released s -> pressing r c 0 0 s.
Proof.
  intros Hr (Hd & Hrow & Hcand & Hlast & Hraw & Hcnt).
  unfold pressing. split; [exact Hd|]. rewrite Hrow, Hcand, Hlast, Hraw, Hcnt.
  replace (r <? 0) with false by (symmetry; apply Z.ltb_ge; lia).
  repeat split; reflexivity.
Qed.

(** A millisecond of the scan with no key down. *)
Lemma idle_step s w :
  settled s -> g_raw_key s = NUL ->
  let s' := eval (scan_ms None s) w in
  driving s' /\ exec (scan_ms None s) w = w /\ g_raw_key s' = NUL /\
  (current_row s <> 3 ->
   current_row s' = current_row s + 1 /\
   stable_key_candidate s' = stable_key_candidate s /\
   last_valid_key s' = last_valid_key s /\
   g_stable_count s' = g_stable_count s) /\
  (current_row s = 3 ->
   current_row s' = 0 /\ stable_key_candidate s' = NUL /\
   last_valid_key s' = NUL /\ g_stable_count s' = 0).
Proof.
  intros Hs Hraw. cbv zeta. unfold scan_ms.
  change (GPIOE_PDIR None (GPIOB_PDOR s)) with 0x3C.
  pose proof (Keypad_Tick_step 0x3C s w Hs) as H. cbv zeta in H.
  rewrite scan_detect_up, Hraw in H. cbn [Ascii.eqb Bool.eqb NUL Ascii.zero] in H.
  fold NUL in H. destruct H as (D & Hmid & Hend).
  split; [exact D|].
  destruct (Z.eq_dec (current_row s) 3) as [E3|N3].
  - destruct (Hend E3) as (R & Rw & C1 & C3 & C2 & W).
    cbn [Ascii.eqb Bool.eqb NUL Ascii.zero negb andb Z.ltb Z.compare] in *.
    repeat split; try assumption; intros; try contradiction; assumption.
  - destruct (Hmid N3) as (R & Rw & C1 & C2 & C3 & W).
    repeat split; try assumption; intros; try contradiction; assumption.
Qed.

(** A sweep with no key down releases the scan and raises no event. *)
Lemma release_sweep s w :
  settled s -> current_row s = 0 -> g_raw_key s = NUL ->
  released (eval (scan_run None 4 s) w) /\ exec (scan_run None 4 s) w = w.
Proof.
  intros Hs Hrow Hraw.
  destruct (scan_run_S None 3 s w) as (-> & ->).
  destruct (idle_step s w Hs Hraw) as (D1 & -> & Rw1 & M1 & _).
  destruct (M1 ltac:(lia)) as (R1 & _). rewrite Hrow in R1.
  set (s1 := eval (scan_ms None s) w) in *. clearbody s1.
  destruct (scan_run_S None 2 s1 w) as (-> & ->).
  destruct (idle_step s1 w (driving_settled _ D1) Rw1) as (D2 & -> & Rw2 & M2 & _).
  destruct (M2 ltac:(lia)) as (R2 & _). rewrite R1 in R2.
  set (s2 := eval (scan_ms None s1) w) in *. clearbody s2.
  destruct (scan_run_S None 1 s2 w) as (-> & ->).
  destruct (idle_step s2 w (driving_settled _ D2) Rw2) as (D3 & -> & Rw3 & M3 & _).
  destruct (M3 ltac:(lia)) as (R3 & _). rewrite R2 in R3.
  set (s3 := eval (scan_ms None s2) w) in *. clearbody s3.
  destruct (scan_run_S None 0 s3 w) as (-> & ->).
  destruct (idle_step s3 w (driving_settled _ D3) Rw3) as (D4 & -> & Rw4 & _ & E4).
  destruct (E4 R3) as (R4 & C1 & C2 & C3).
  set (s4 := eval (scan_ms None s3) w) in *. clearbody s4.
  destruct (scan_run_O None s4 w) as (-> & ->).
  split; [|reflexivity].
  unfold released. repeat split; try assumption; apply D4.
Qed.

Lemma Keypad_Ticks_cons col_val rest s w :
  eval (Keypad_Ticks (col_val :: rest) s) w
    = eval (Keypad_Ticks rest (eval (Keypad_Tick col_val s) w))
           (exec (Keypad_Tick col_val s) w).
Proof.
  rewrite !eval_eq, !exec_eq. cbn [Keypad_Ticks]. unfold bind.
  destruct (Keypad_Tick col_val s w) as [s1 w1]. reflexivity.
Qed.

Lemma Keypad_Ticks_driving cols : forall s w,
  settled s ->
  let s' := eval (Keypad_Ticks cols s) w in
  (cols <> [] -> driving s') /\
  current_row s' = (current_row s + Z.of_nat (length cols)) mod 4.
Proof.
  induction cols as [|col_val rest IH]; intros s w Hs; cbv zeta.
  { split; [congruence|]. change (eval (Keypad_Ticks [] s) w) with s.
    cbn [length]. rewrite Z.add_0_r, Z.mod_small; [reflexivity|apply Hs]. }
  rewrite Keypad_Ticks_cons.
  destruct (Keypad_Tick_step col_val s w Hs) as (D & Hmid & Hend).
  set (s1 := eval (Keypad_Tick col_val s) w) in *.
  set (w1 := exec (Keypad_Tick col_val s) w) in *. clearbody s1 w1.
  assert (R : current_row s1 = (current_row s + 1) mod 4).
  { destruct Hs as (Hrow & _).
    destruct (Z.eq_dec (current_row s) 3) as [E3|N3].
    - destruct (Hend E3) as (R & _). rewrite R, E3. reflexivity.
    - destruct (Hmid N3) as (R & _). rewrite R, Z.mod_small; lia. }
  destruct (IH s1 w1 (driving_settled _ D)) as (IH1 & IH2). split.
  - intros _. destruct rest as [|c' rest']; [exact D|]. apply IH1. congruence.
  - rewrite IH2, R. cbn [length]. rewrite Zplus_mod_idemp_l. f_equal. lia.
Qed.

Lemma settled_reset : settled KeypadScan_reset.
Proof.
  split; [cbn; lia|]. intros j Hj _.
  assert (Ej : j = 0 \/ j = 1 \/ j = 2 \/ j = 3) by lia.
  destruct Ej as [->|[->|[->| ->]]]; reflexivity.
Qed.

(** X22. From reset on, after every millisecond of the scan and whatever the
    columns read, exactly one row is driven low: the row [current_row], which
    goes round the four rows. *)
Theorem Keypad_Tick_one_row cols w :
  cols <> [] ->
  let s := eval (Keypad_Ticks cols KeypadScan_reset) w in
  current_row s = Z.of_nat (length cols) mod 4 /\
  forall j, 0 <= j < 4 -> row_low (GPIOB_PDOR s) j = (j =? current_row s).
Proof.
  intros Hne. cbv zeta.
  destruct (Keypad_Ticks_driving cols KeypadScan_reset w settled_reset) as (D & R).
  split; [exact R|]. apply (D Hne).
Qed.

Lemma Keypad_Tick_one_row_witness :
  current_row (eval (Keypad_Ticks [0x3C; 0x38; 0x3C] KeypadScan_reset) booted) = 3.
Proof.
  destruct (Keypad_Tick_one_row [0x3C; 0x38; 0x3C] booted ltac:(discriminate))
    as (R & _).
  rewrite R. reflexivity.
Defined.

(** X23. A key held down is reported exactly once, and not before it has been
    seen on 22 sweeps in a row.  With the scan released, the key at row [r],
    column [c] goes down at the start of a sweep and stays down; each
    millisecond the scan runs and the main loop may call
    [Keypad_GetKeyNonBlocking].  Every call in the first 87 ms answers NUL;
    the first call from the 88th millisecond on answers the key; every later
    call answers NUL again, however long the key is held. *)
Theorem held_key_reported_once r c polls s w :
  0 <= r < 4 -> 0 <= c < 4 ->
  released s -> g_pressed_key (kp w) = NUL ->
  eval (held_polls (Some (r, c)) polls s) w
    = map (fun _ => NUL) (take 87 polls)
      ++ once (key_map_at r c) (drop 87 polls).
Proof.
  intros Hr Hc Hs Hk.
  apply (held_polls_pressing r c Hr Hc polls 87 0 0); try lia; try assumption.
  apply released_pressing; [lia|exact Hs].
Qed.

(** X24. Letting go re-arms the scan.  At the start of a sweep, whatever the
    scan has counted or reported, one sweep with no key down raises no event
    and leaves the scan released: the next key held is counted from zero
    and reported. *)
Theorem key_release_rearms s w :
  settled s -> current_row s = 0 -> g_raw_key s = NUL ->
  released (eval (scan_run None 4 s) w) /\ exec (scan_run None 4 s) w = w.
Proof. exact (release_sweep s w). Qed.

(** The scan four milliseconds after reset is released. *)
Lemma key_release_rearms_witness :
  released (eval (scan_run None 4 KeypadScan_reset) booted).
Proof.
  exact (proj1 (key_release_rearms KeypadScan_reset booted
                  settled_reset eq_refl eq_refl)).
Defined.

(** The key 6 held and polled every millisecond: the 88th poll gets it. *)
Lemma held_key_reported_once_witness :
  eval (held_polls (Some (1, 2)) (replicate 90 true)
          (eval (scan_run None 4 KeypadScan_reset) booted)) booted
    = replicate 87 NUL ++ ["6"%char; NUL; NUL].
Proof.
  rewrite (held_key_reported_once 1 2 (replicate 90 true)
             (eval (scan_run None 4 KeypadScan_reset) booted) booted
             ltac:(lia) ltac:(lia)
             (proj1 (release_sweep KeypadScan_reset booted
                       settled_reset eq_refl eq_refl))
             eq_refl).
  reflexivity.
Defined.

(* ---------------------------------------------------------------------- *)
(** ** The beep timer *)
(* ---------------------------------------------------------------------- *)

Lemma Outputs_Ticks_zero n w : Outputs_Ticks n 0 w = (0, w).
Proof. induction n as [|n IH]; [reflexivity|]. cbn [Outputs_Ticks]. exact IH. Qed.

Lemma Outputs_Ticks_run n : forall t w,
  0 <= t < 2 ^ 32 ->
  Outputs_Ticks n t w
    = (Z.max 0 (t - Z.of_nat n),
       if (0 <? t) && (t <=? Z.of_nat n)
       then upd_trace (cons O_BuzzerOff) w else w).
Proof.
  induction n as [|n IH]; intros t w Ht.
  - cbn [Outputs_Ticks]. unfold ret. f_equal; [lia|].
    destruct (Z.ltb_spec 0 t), (Z.leb_spec t (Z.of_nat 0)); try reflexivity; lia.
  - cbn [Outputs_Ticks]. unfold bind at 1, Outputs_Tick.
    destruct (Z.ltb_spec 0 t) as [Hpos|Hz].
    + rewrite wrap32_small by lia. unfold bind, when, Buzzer_Off, emit, modify, ret.
      destruct (Z.eqb_spec (t - 1) 0) as [E|N].
      * rewrite E, Outputs_Ticks_zero. f_equal; [lia|].
        destruct (Z.leb_spec t (Z.of_nat (S n))); [reflexivity|lia].
      * rewrite IH by lia. f_equal; [lia|].
        destruct (Z.ltb_spec 0 (t - 1)); [|lia]. cbn [andb].
        destruct (Z.leb_spec (t - 1) (Z.of_nat n)), (Z.leb_spec t (Z.of_nat (S n)));
          try reflexivity; lia.
    + assert (t = 0) as -> by lia. unfold ret. rewrite Outputs_Ticks_zero.
      reflexivity.
Qed.

(** X25. A beep ends on time and by the tick interrupt alone:
    [Buzzer_Beep d] switches the buzzer on, and the tick that switches it
    off is the [d]-th one, [d] taken as a 32-bit unsigned number.  A beep of
    0 ms is never switched off by the ticks. *)
Theorem Buzzer_Beep_ends duration_ms n w :
  let t := wrap32 duration_ms in
  trace (exec (beep_then_ticks duration_ms n) w)
    = (if (0 <? t) && (t <=? Z.of_nat n) then [O_BuzzerOff] else [])
      ++ O_BuzzerTimeout duration_ms :: O_BuzzerOn 1000 50 :: trace w.
Proof.
  cbv zeta. unfold exec, beep_then_ticks, bind at 1.
  unfold Buzzer_Beep, Buzzer_On, bind, emit, modify. cbn [fst snd].
  rewrite Outputs_Ticks_run by (unfold wrap32; apply Z.mod_pos_bound; lia).
  cbn [snd]. destruct ((0 <? _) && _); reflexivity.
Qed.

(* ---------------------------------------------------------------------- *)
(** ** The admin console *)
(* ---------------------------------------------------------------------- *)


(** X27. The session flag is set by a LOGIN with the admin password and by
    nothing else, and no command clears it: after any command
    [g_admin_logged_in] is what it was, or true when the command starts with
    LOGIN and its second word equals the stored admin password. *)
Theorem Admin_ProcessCommand_session strtoul16 cmd logged w :
  snd (eval (Admin_ProcessCommand strtoul16 cmd logged) w)
    = logged || login_ok cmd w.
Proof.
  unfold eval, Admin_ProcessCommand, login_ok.
  destruct cmd as [buf|]; [|cbn; rewrite orb_false_r; reflexivity].
  destruct (strlen buf =? 0); [cbn; rewrite orb_false_r; reflexivity|].
  cbn [negb andb]. unfold bind at 1, UART_Printf at 1, emit, modify. cbn [fst snd].
  set (w0 := upd_trace _ w).
  destruct (strneq buf (chars "LOGIN") 5).
  - cbn [andb]. destruct (second_token buf (chars " ")) as [[token|] buf'];
      cbn [fst snd].
    + unfold Security_CheckAdminPassword, Storage_GetConfig, bind, gets, ret,
        UART_Printf, emit, modify. cbn [fst snd].
      change (g_cachedConfig w0) with (g_cachedConfig w).
      destruct (streq token _); cbn [fst snd]; [apply eq_sym, orb_true_r|].
      apply eq_sym, orb_false_r.
    + unfold bind, ret, UART_Printf, emit, modify. cbn [fst snd].
      apply eq_sym, orb_false_r.
  - cbn [andb]. rewrite orb_false_r.
    destruct logged; cbn [negb]; [|reflexivity].
    repeat match goal with
    | |- context [if ?b then _ else _] => destruct b
    | |- context [let '(_, _) := ?x in _] => destruct x as [[?|] ?]
    end;
    unfold bind;
    repeat match goal with
    | |- context [let '(_, _) := ?m ?x in _] => destruct (m x) as [? ?]
    end; reflexivity.
Qed.

(** *** Cutting a command in words *)











Lemma strtok_length buf pos delim :
  length (snd (fst (strtok buf pos delim))) = length buf.
Proof.
  unfold strtok. cbv zeta.
  repeat match goal with
  | |- context [if ?b then _ else _] => destruct b
  end; cbn [fst snd]; rewrite ?length_insert; reflexivity.
Qed.

Lemma second_token_length cmd delim :
  length (snd (second_token cmd delim)) = length cmd.
Proof.
  unfold second_token.
  pose proof (strtok_length cmd 0 (chars " ")) as H1.
  destruct (strtok cmd 0 (chars " ")) as [[t1 buf1] pos1]. cbn [fst snd] in H1.
  pose proof (strtok_length buf1 pos1 delim) as H2.
  destruct (strtok buf1 pos1 delim) as [[t2 buf2] pos2]. cbn [fst snd] in *.
  congruence.
Qed.

(** The buffer keeps its length: [strtok] writes inside the string only. *)
Lemma Admin_ProcessCommand_length strtoul16 buf logged w :
  length (fst (eval (Admin_ProcessCommand strtoul16 (Some buf) logged) w))
    = length buf.
Proof.
  unfold eval, Admin_ProcessCommand.
  pose proof (second_token_length buf (chars " ")) as L1.
  pose proof (second_token_length buf []) as L2.
  destruct (second_token buf (chars " ")) as [t1 b1].
  destruct (second_token buf []) as [t2 b2]. cbn [snd] in L1, L2.
  destruct (strlen buf =? 0); [reflexivity|].
  unfold bind at 1, UART_Printf at 1, emit, modify. cbn [fst snd].
  repeat match goal with
  | |- context [if ?b then _ else _] => destruct b
  | |- context [match ?t with Some _ => _ | None => _ end] => destruct t
  end;
  unfold bind;
  repeat match goal with
  | |- context [let '(_, _) := ?m ?x in _] => destruct (m x) as [? ?]
  | |- context [if ?b then _ else _] => destruct b
  end; cbn [fst snd]; assumption || reflexivity.
Qed.

(** X28. The receive interrupt stays inside [rx_buffer]: with the index at
    most 63 and the buffer 64 characters long before an interrupt, they are
    so after it, whatever arrives and whatever the command does. *)
Theorem UART2_IRQHandler_bounds strtoul16 rx_full framing_error data u w :
  0 <= rx_index u <= 63 -> length (rx_buffer u) = 64%nat ->
  let u' := eval (UART2_IRQHandler strtoul16 rx_full framing_error data u) w in
  0 <= rx_index u' <= 63 /\ length (rx_buffer u') = 64%nat.
Proof.
  intros Hidx Hlen. cbv zeta. rewrite eval_eq.
  set (r := UART2_IRQHandler _ _ _ _ _ w).
  assert (E : r = UART2_IRQHandler strtoul16 rx_full framing_error data u w)
    by reflexivity.
  clearbody r. revert E. unfold UART2_IRQHandler.
  destruct (rx_full && negb framing_error); [|intros ->; split; assumption].
  unfold bind at 1, UART_WriteByte, emit, modify. cbn [fst snd].
  set (w0 := upd_trace _ w).
  destruct ((code data =? 8) || (code data =? 127)).
  { unfold ret. destruct (Z.ltb_spec 0 (rx_index u));
      intros ->; cbn [fst]; [|split; assumption].
    cbn [rx_index rx_buffer set_rx_index]. rewrite wrap8_small by lia.
    split; [lia|assumption]. }
  destruct (Ascii.eqb data "013" || Ascii.eqb data "010").
  { destruct (0 <? rx_index u); [|intros ->; split; assumption].
    unfold bind, ret.
    pose proof (Admin_ProcessCommand_length strtoul16
                  (<[Z.to_nat (rx_index u) := NUL]> (rx_buffer u))
                  (g_admin_logged_in u) w0) as L.
    rewrite eval_eq in L.
    destruct (Admin_ProcessCommand _ _ _ w0) as [r' w1]. cbn [fst snd] in *.
    intros ->. cbn [fst rx_index rx_buffer].
    rewrite L, length_insert. split; [lia|assumption]. }
  unfold RX_BUFFER_SIZE, ret.
  destruct (Z.ltb_spec (rx_index u) (64 - 1)); intros ->; cbn [fst].
  - cbn [rx_index rx_buffer set_rx_index set_rx_buffer].
    rewrite wrap8_small, length_insert by lia. split; [lia|assumption].
  - cbn [rx_index rx_buffer set_rx_index]. split; [lia|assumption].
Qed.

(** The first character after reset. *)
Lemma UART2_IRQHandler_bounds_witness :
  let u' := eval (UART2_IRQHandler (fun _ => 0) true false "L" Console_reset)
                 booted in
  0 <= rx_index u' <= 63 /\ length (rx_buffer u') = 64%nat.
Proof.
  exact (UART2_IRQHandler_bounds (fun _ => 0) true false "L" Console_reset
           booted ltac:(cbn; lia) eq_refl).
Defined.

(** *** From the line to the command *)




Lemma stored_char_tests c :
  stored_char c ->
  (code c =? 8) || (code c =? 127) = false /\
  Ascii.eqb c "013" || Ascii.eqb c "010" = false.
Proof.
  intros (H1 & H2 & H3 & H4). split; apply orb_false_iff; split;
    try (apply Z.eqb_neq; assumption); apply Ascii.eqb_neq; assumption.
Qed.

Lemma receive_cons strtoul16 c rest u w :
  receive strtoul16 (c :: rest) u w
    = receive strtoul16 rest
        (eval (UART2_IRQHandler strtoul16 true false c u) w)
        (exec (UART2_IRQHandler strtoul16 true false c u) w).
Proof.
  rewrite eval_eq, exec_eq. cbn [receive]. unfold bind.
  destruct (UART2_IRQHandler strtoul16 true false c u w) as [u1 w1]. reflexivity.
Qed.

(** A stored character goes to the buffer at the index, which moves on. *)
Lemma UART2_IRQHandler_stores strtoul16 c u w :
  stored_char c -> 0 <= rx_index u < 63 ->
  UART2_IRQHandler strtoul16 true false c u w
    = ({| rx_buffer := <[Z.to_nat (rx_index u) := c]> (rx_buffer u);
          rx_index := rx_index u + 1;
          g_admin_logged_in := g_admin_logged_in u |},
       upd_trace (cons (O_Uart "%c" [code c])) w).
Proof.
  intros Hc Hidx. destruct (stored_char_tests c Hc) as (T1 & T2).
  unfold UART2_IRQHandler. cbn [andb negb].
  unfold bind, UART_WriteByte, emit, modify. rewrite T1, T2.
  unfold RX_BUFFER_SIZE. destruct (Z.ltb_spec (rx_index u) (64 - 1)); [|lia].
  unfold ret, set_rx_index, set_rx_buffer. cbn [rx_buffer rx_index g_admin_logged_in].
  rewrite wrap8_small by lia. reflexivity.
Qed.

Lemma receive_stores strtoul16 l : forall u w,
  Forall stored_char l -> 0 <= rx_index u ->
  rx_index u + Z.of_nat (length l) <= 63 ->
  (Z.to_nat (rx_index u) + length l <= length (rx_buffer u))%nat ->
  receive strtoul16 l u w
    = ({| rx_buffer := take (Z.to_nat (rx_index u)) (rx_buffer u) ++ l
                       ++ drop (Z.to_nat (rx_index u) + length l) (rx_buffer u);
          rx_index := rx_index u + Z.of_nat (length l);
          g_admin_logged_in := g_admin_logged_in u |},
       upd_trace (app (echoes l)) w).
Proof.
  induction l as [|c l IH]; intros u w Hl Hidx Hfit Hlen.
  - cbn [receive length app]. unfold ret. rewrite Nat.add_0_r, take_drop.
    destruct u, w. cbn. rewrite Z.add_0_r. reflexivity.
  - inversion Hl as [|? ? Hc Hl']; subst. cbn [length] in Hfit, Hlen.
    rewrite receive_cons, eval_eq, exec_eq.
    rewrite UART2_IRQHandler_stores by (assumption || lia). cbn [fst snd].
    rewrite IH; cbn [rx_index rx_buffer g_admin_logged_in];
      try assumption; try lia;
      [|rewrite length_insert; rewrite Z2Nat.inj_add by lia;
        change (Z.to_nat 1) with 1%nat; lia].
    f_equal.
    + f_equal; [|cbn [length]; lia].
      rewrite Z2Nat.inj_add by lia. change (Z.to_nat 1) with 1%nat.
      set (i := Z.to_nat (rx_index u)) in *.
      assert (Hi : (i < length (rx_buffer u))%nat) by lia.
      rewrite Nat.add_1_r.
      rewrite (take_S_r (<[i:=c]> (rx_buffer u)) i c)
        by (apply list_lookup_insert_eq; exact Hi).
      rewrite take_insert_ge by lia. rewrite drop_insert_lt by lia.
      rewrite <- app_assoc. cbn [app length].
      replace (S i + length l)%nat with (i + S (length l))%nat by lia.
      reflexivity.
    + unfold echoes. cbn [rev]. rewrite map_app. cbn [map].
      destruct w. unfold upd_trace. cbn. f_equal. rewrite <- app_assoc. reflexivity.
Qed.

Lemma receive_app strtoul16 l1 : forall l2 u w,
  receive strtoul16 (l1 ++ l2) u w
    = receive strtoul16 l2 (eval (receive strtoul16 l1 u) w)
                           (exec (receive strtoul16 l1 u) w).
Proof.
  induction l1 as [|c l1 IH]; intros l2 u w; [reflexivity|].
  cbn [app]. rewrite receive_cons, IH.
  rewrite (eval_eq (receive strtoul16 (c :: l1) u)),
    (exec_eq (receive strtoul16 (c :: l1) u)), receive_cons.
  rewrite <- eval_eq, <- exec_eq. reflexivity.
Qed.

(** A carriage return with characters in the buffer: the command runs. *)
Lemma UART2_IRQHandler_enter strtoul16 u w :
  0 < rx_index u ->
  let w0 := upd_trace (cons (O_Uart "%c" [code "013"%char])) w in
  let run := Admin_ProcessCommand strtoul16
               (Some (<[Z.to_nat (rx_index u) := NUL]> (rx_buffer u)))
               (g_admin_logged_in u) in
  UART2_IRQHandler strtoul16 true false "013" u w
    = ({| rx_buffer := fst (eval run w0); rx_index := 0;
          g_admin_logged_in := snd (eval run w0) |},
       exec run w0).
Proof.
  intros Hidx. cbv zeta. rewrite eval_eq, exec_eq.
  unfold UART2_IRQHandler. cbn [andb negb].
  unfold bind at 1, UART_WriteByte, emit, modify. cbn [fst snd].
  change ((code "013" =? 8) || (code "013" =? 127)) with false.
  change (Ascii.eqb "013" "013" || Ascii.eqb "013" "010") with true.
  cbn match. apply Z.ltb_lt in Hidx. rewrite Hidx. unfold bind, ret.
  destruct (Admin_ProcessCommand _ _ _ _) as [r w1]. reflexivity.
Qed.

(** X30. A line typed at the console is the command processed.  With the
    buffer empty, up to 63 characters other than backspace, delete and line
    ends, followed by a carriage return, are echoed one by one; the carriage
    return hands [Admin_ProcessCommand] the characters, terminated, and the
    session flag, and the buffer is empty again for the next line. *)
Theorem UART_line strtoul16 (l : list ascii) u w :
  Forall stored_char l -> l <> [] -> (length l <= 63)%nat ->
  rx_index u = 0 -> length (rx_buffer u) = 64%nat ->
  let cmd := l ++ NUL :: drop (S (length l)) (rx_buffer u) in
  let w1 := upd_trace (app (echoes (l ++ ["013"%char]))) w in
  let run := Admin_ProcessCommand strtoul16 (Some cmd) (g_admin_logged_in u) in
  receive strtoul16 (l ++ ["013"%char]) u w
    = ({| rx_buffer := fst (eval run w1); rx_index := 0;
          g_admin_logged_in := snd (eval run w1) |},
       exec run w1).
Proof.
  intros Hl Hne Hlen Hidx Hbuf. cbv zeta.
  rewrite receive_app.
  rewrite eval_eq, exec_eq, (receive_stores strtoul16 l u w Hl);
    rewrite ?Hidx, ?Hbuf; try lia.
  cbn [fst snd]. change (Z.to_nat 0) with 0%nat. cbn [take app Nat.add].
  cbn [receive]. unfold bind at 1.
  rewrite UART2_IRQHandler_enter
    by (cbn [rx_index]; destruct l; [congruence|cbn [length]; lia]).
  cbn [rx_index rx_buffer g_admin_logged_in]. cbv zeta.
  rewrite Z.add_0_l, Nat2Z.id.
  assert (Eb : <[length l := NUL]> (l ++ drop (length l) (rx_buffer u))
               = l ++ NUL :: drop (S (length l)) (rx_buffer u)).
  { rewrite insert_app_r_alt by lia. rewrite Nat.sub_diag.
    destruct (drop (length l) (rx_buffer u)) as [|x r] eqn:Ed.
    - apply (f_equal length) in Ed. rewrite length_drop in Ed. cbn in Ed. lia.
    - cbn [insert list_insert]. do 2 f_equal.
      replace (S (length l)) with (length l + 1)%nat by lia.
      rewrite <- drop_drop, Ed. reflexivity. }
  rewrite take_0. cbn [app]. rewrite Eb.
  assert (Ew : upd_trace (cons (O_Uart "%c" [code "013"%char]))
                 (upd_trace (app (echoes l)) w)
               = upd_trace (app (echoes (l ++ ["013"%char]))) w).
  { unfold echoes. rewrite rev_app_distr. cbn [rev app map].
    destruct w. reflexivity. }
  rewrite Ew. reflexivity.
Qed.

Lemma stored_char_code c :
  negb (code c =? 8) && negb (code c =? 127)
  && negb (Ascii.eqb c "013") && negb (Ascii.eqb c "010") = true ->
  stored_char c.
Proof.
  intros H. rewrite !andb_true_iff, !negb_true_iff in H.
  destruct H as (((H1 & H2) & H3) & H4).
  repeat split; try (apply Z.eqb_neq; assumption); apply Ascii.eqb_neq; assumption.
Qed.

(** After reset and start-up, the line LOGIN 123456 opens a session. *)
Lemma UART_line_witness :
  g_admin_logged_in
    (fst (receive (fun _ => 0) (chars "LOGIN 123456" ++ ["013"%char])
            Console_reset booted)) = true.
Proof.
  rewrite (UART_line (fun _ => 0) (chars "LOGIN 123456") Console_reset booted).
  - vm_compute. reflexivity.
  - repeat (apply List.Forall_cons; [apply stored_char_code; reflexivity|]).
    apply List.Forall_nil.
  - discriminate.
  - cbn. lia.
  - reflexivity.
  - reflexivity.
Defined.
